(** * twisted.words.service: participants, groups and message delivery

    A shallow embedding of [src/twisted/words/service.py] (the chat service
    of Twisted Words) and the properties of its contact graph, its group
    membership, its session handling and its metadata fallback.

    Python objects are mutable and shared, so the embedding keeps an object
    store: a participant or a group is referred to by its index in the store,
    the lists [contacts], [reverseContacts], [groups] and [members] hold such
    references, and [in] / [list.remove] compare references (the classes
    define no equality of their own).  Methods are computations in a
    state-and-exception monad; an exception leaves the writes made before it
    in place, as in Python.

    What lies outside the file is kept to what the file says about it.
    There is one [Service]; [p.setService(self)] and [log.msg] are left out.
    A client is a remote reference or an in-process object that accepts
    every call of [WordsClientInterface]; what it was sent is recorded.  A
    Deferred keeps the errbacks added to it, and when it fails it calls them
    with positional values of its own ahead of the registered ones: which
    values is an argument of [fail_deferred], Twisted's choice is
    [twisted_supplies]. *)

From Stdlib Require Import ZArith List Lia.
From stdpp Require Import gmap strings list fin_maps pretty.

Local Open Scope Z_scope.
Local Open Scope nat_scope.

(** ** Values *)

Abbreviation pid := nat (only parsing).   (* reference to a Participant object *)
Abbreviation gid := nat (only parsing).   (* reference to a Group object *)
Abbreviation did := nat (only parsing).   (* reference to a Deferred object *)

(** The values that reach [receiveDirectMessage] and [receiveGroupMessage];
    these two methods are also invoked by a Deferred with whatever was
    registered, so their arguments are kept dynamically typed. *)
Inductive pyval :=
| PNone
| PStr (s : string)
| PDict (d : gmap string string)
| PParticipant (p : pid)
| PGroup (g : gid)
| PDeferred (d : did)
| PFailure (why : string).

(** Python truth value: [None], the empty string and the empty dict are
    false, instances are true. *)
Definition truthy (v : pyval) : bool :=
  match v with
  | PNone => false
  | PStr s => negb (String.eqb s "")
  | PDict d => negb (bool_decide (d = ∅))
  | _ => true
  end.

(** [metadata or {}] *)
Definition or_empty_dict (metadata : pyval) : pyval :=
  if truthy metadata then metadata else PDict ∅.

(** Status "enumeration" *)
Definition OFFLINE : Z := 0.
Definition ONLINE : Z := 1.
Definition AWAY : Z := 2.

(** What [Participant.client] can hold: [None]; an instance of
    [styles.Ephemeral] itself (what a stale session unpickles to); a remote
    reference, whose calls return a Deferred; or an in-process client (the
    IRC gateway), whose calls return [None]. *)
Inductive client_ref :=
| NoClient
| Placeholder
| Remote (c : nat)
| InProcess (c : nat).

Definition client_truthy (c : client_ref) : bool :=
  match c with NoClient => false | _ => true end.

(** [self.client is not None and self.client.__class__ != styles.Ephemeral] *)
Definition live_session (c : client_ref) : bool :=
  match c with NoClient | Placeholder => false | _ => true end.

(** The calls of [WordsClientInterface], as they arrive at a client.  A
    message's [metadata] is [None] when the argument was left out. *)
Module WordsClientInterface.
Inductive call :=
| receiveContactList (contactList : list (string * Z))
| notifyStatusChanged (name : string) (status : Z)
| receiveGroupMembers (names : list string) (group : string)
| receiveDirectMessage (sender : string) (message : pyval)
                       (metadata : option pyval)
| receiveGroupMessage (sender group : string) (message : pyval)
                      (metadata : option pyval)
| memberJoined (member group : string)
| memberLeft (member group : string)
| setGroupMetadata (dict_ : gmap string string) (group : string).
End WordsClientInterface.
Module WCI := WordsClientInterface.

(** ** Exceptions *)

Inductive error :=
| Unauthorized (msg : string)
| NotInCollectionError (msg : string)
| NotInGroupError (groupName : string) (pName : option string)
| UserNonexistantError (pName : string)
| WrongStatusError (status : Z) (pName : string)
| AttributeError (attr : string)
| TypeError
| ValueError
| Dangling.   (* a reference outside the store; no Python counterpart *)

(** [except NotInGroupError:] *)
Definition is_NotInGroupError (e : error) : bool :=
  match e with NotInGroupError _ _ => true | _ => false end.

(** ** Objects *)

Module Participant.
Record t := mk {
  name : string;
  status : Z;
  contacts : list pid;
  reverseContacts : list pid;
  groups : list gid;
  client : client_ref;
  info : string
}.

(** [Participant.__init__] *)
Definition init (name : string) : t :=
  mk name OFFLINE [] [] [] NoClient "".

Definition with_status (v : Z) (P : t) : t :=
  mk (name P) v (contacts P) (reverseContacts P) (groups P) (client P) (info P).
Definition with_contacts (v : list pid) (P : t) : t :=
  mk (name P) (status P) v (reverseContacts P) (groups P) (client P) (info P).
Definition with_reverseContacts (v : list pid) (P : t) : t :=
  mk (name P) (status P) (contacts P) v (groups P) (client P) (info P).
Definition with_groups (v : list gid) (P : t) : t :=
  mk (name P) (status P) (contacts P) (reverseContacts P) v (client P) (info P).
Definition with_client (v : client_ref) (P : t) : t :=
  mk (name P) (status P) (contacts P) (reverseContacts P) (groups P) v (info P).
End Participant.

Module Group.
Record t := mk {
  name : string;
  members : list pid;
  metadata : gmap string string
}.

(** [Group.__init__] *)
Definition init (name : string) : t :=
  mk name []
     {[ "topic" := "Welcome to " +:+ name +:+ "!";
        "topic_author" := "admin" ]}.

Definition with_members (v : list pid) (G : t) : t :=
  mk (name G) v (metadata G).
Definition with_metadata (v : gmap string string) (G : t) : t :=
  mk (name G) (members G) v.
End Group.

(** The two dicts of [Service]. *)
Module Service.
Record t := mk {
  participants : gmap string pid;
  groups : gmap string gid
}.
End Service.

(** The bound methods this file hands to [Deferred.addErrback]. *)
Inductive method := m_receiveDirectMessage | m_receiveGroupMessage.

Record errback := mk_errback {
  eb_self : pid;
  eb_method : method;
  eb_args : list pyval
}.

(** The service, the object store, the calls made on clients so far (oldest
    first) and, for every Deferred a remote call returned, the errbacks
    added to it. *)
Record World := mk_World {
  service : Service.t;
  participant_objs : list Participant.t;
  group_objs : list Group.t;
  sent : list (client_ref * WordsClientInterface.call);
  deferreds : list (list errback)
}.

Definition with_service (v : Service.t) (w : World) : World :=
  mk_World v (participant_objs w) (group_objs w) (sent w) (deferreds w).
Definition with_participant_objs (v : list Participant.t) (w : World) : World :=
  mk_World (service w) v (group_objs w) (sent w) (deferreds w).
Definition with_group_objs (v : list Group.t) (w : World) : World :=
  mk_World (service w) (participant_objs w) v (sent w) (deferreds w).
Definition with_sent (v : list (client_ref * WordsClientInterface.call))
    (w : World) : World :=
  mk_World (service w) (participant_objs w) (group_objs w) v (deferreds w).
Definition with_deferreds (v : list (list errback)) (w : World) : World :=
  mk_World (service w) (participant_objs w) (group_objs w) (sent w) v.

(** [Service.__init__] *)
Definition boot : World :=
  mk_World (Service.mk ∅ ∅) [] [] [] [].

(** ** The monad of method bodies *)

Inductive outcome (A : Type) :=
| Return (a : A)
| Raise (e : error).
Arguments Return {A} a.
Arguments Raise {A} e.

Definition Py (A : Type) : Type := World → outcome A * World.

Global Instance Py_ret : MRet Py := λ A a w, (Return a, w).
Global Instance Py_bind : MBind Py := λ A B k m w,
  match m w with
  | (Return a, w') => k a w'
  | (Raise e, w') => (Raise e, w')
  end.
Definition ret {A} (a : A) : Py A := mret a.
Definition raise {A} (e : error) : Py A := λ w, (Raise e, w).

(** [try: m except <caught>: handler] *)
Definition try_except {A} (m : Py A) (caught : error → bool)
    (handler : Py A) : Py A :=
  λ w, match m w with
       | (Raise e, w') => if caught e then handler w' else (Raise e, w')
       | r => r
       end.

(** [for x in xs: body(x)], over a list that the body does not change. *)
Fixpoint for_each {A} (xs : list A) (body : A → Py unit) : Py unit :=
  match xs with
  | [] => ret tt
  | x :: rest => body x ;; for_each rest body
  end.

(** [map(f, xs)] *)
Fixpoint map_each {A B} (f : A → Py B) (xs : list A) : Py (list B) :=
  match xs with
  | [] => ret []
  | x :: rest => y ← f x; ys ← map_each f rest; ret (y :: ys)
  end.

(** ** Store access *)

Definition get_participant (p : pid) : Py Participant.t :=
  λ w, match participant_objs w !! p with
       | Some P => (Return P, w)
       | None => (Raise Dangling, w)
       end.

Definition get_group (g : gid) : Py Group.t :=
  λ w, match group_objs w !! g with
       | Some G => (Return G, w)
       | None => (Raise Dangling, w)
       end.

Definition put_participant (p : pid) (P : Participant.t) : Py unit :=
  λ w, (Return tt, with_participant_objs (<[p := P]> (participant_objs w)) w).

Definition put_group (g : gid) (G : Group.t) : Py unit :=
  λ w, (Return tt, with_group_objs (<[g := G]> (group_objs w)) w).

(** An attribute assignment or an in-place list update on participant [p]:
    the object is read afresh, so that writes through another reference to
    the same object are seen. *)
Definition update_participant (p : pid) (f : Participant.t → Participant.t)
    : Py unit :=
  P ← get_participant p; put_participant p (f P).

Definition update_group (g : gid) (f : Group.t → Group.t) : Py unit :=
  G ← get_group g; put_group g (f G).

(** [xs.remove(x)]: drops the first occurrence, [ValueError] if there is
    none. *)
Fixpoint list_remove (x : nat) (xs : list nat) : option (list nat) :=
  match xs with
  | [] => None
  | y :: rest =>
      if decide (y = x) then Some rest
      else match list_remove x rest with
           | Some rest' => Some (y :: rest')
           | None => None
           end
  end.

(** ** Calls on a client *)

(** [client.<attr>]: looking up a method on [None] or on the bare
    [Ephemeral] placeholder raises [AttributeError]. *)
Definition getattr_client (c : client_ref) (attr : string) : Py client_ref :=
  match c with
  | NoClient | Placeholder => raise (AttributeError attr)
  | live => ret live
  end.

(** The call itself: it is recorded, and a remote reference answers with a
    fresh Deferred while an in-process client answers [None]. *)
Definition invoke (c : client_ref) (what : WordsClientInterface.call)
    : Py pyval :=
  λ w,
    let w' := with_sent (sent w ++ [(c, what)]) w in
    match c with
    | Remote _ =>
        (Return (PDeferred (length (deferreds w))),
         with_deferreds (deferreds w ++ [[]]) w')
    | _ => (Return PNone, w')
    end.

(** [x.name] on a dynamically typed value. *)
Definition getattr_name (v : pyval) : Py string :=
  match v with
  | PParticipant p => P ← get_participant p; ret (Participant.name P)
  | PGroup g => G ← get_group g; ret (Group.name G)
  | _ => raise (AttributeError "name")
  end.

(** [d.addErrback(method, *args)] *)
Definition addErrback (d : pyval) (eb : errback) : Py unit :=
  match d with
  | PDeferred i =>
      λ w, match deferreds w !! i with
           | Some chain =>
               (Return tt,
                with_deferreds (<[i := chain ++ [eb]]> (deferreds w)) w)
           | None => (Raise Dangling, w)
           end
  | _ => raise (AttributeError "addErrback")
  end.

(** ** Participant: what a participant is told *)

(** [Participant.notifyStatusChanged] *)
Definition notifyStatusChanged (self contact : pid) : Py unit :=
  P ← get_participant self;
  if client_truthy (Participant.client P) then
    c ← getattr_client (Participant.client P) "notifyStatusChanged";
    C ← get_participant contact;
    invoke c (WCI.notifyStatusChanged (Participant.name C)
                                      (Participant.status C));;
    ret tt
  else ret tt.

(** [Participant.changeStatus] *)
Definition changeStatus (self : pid) (newStatus : Z) : Py unit :=
  update_participant self (Participant.with_status newStatus);;
  P ← get_participant self;
  for_each (Participant.reverseContacts P)
           (λ contact, notifyStatusChanged contact self).

(** [Participant.setGroupMetadata] *)
Definition setGroupMetadata (self : pid) (dict_ : gmap string string)
    (groupName : string) : Py unit :=
  P ← get_participant self;
  if client_truthy (Participant.client P) then
    c ← getattr_client (Participant.client P) "setGroupMetadata";
    invoke c (WCI.setGroupMetadata dict_ groupName);;
    ret tt
  else ret tt.

(** [Participant.memberJoined] *)
Definition memberJoined (self member : pid) (group : gid) : Py unit :=
  P ← get_participant self;
  c ← getattr_client (Participant.client P) "memberJoined";
  M ← get_participant member;
  G ← get_group group;
  invoke c (WCI.memberJoined (Participant.name M) (Group.name G));;
  ret tt.

(** [Participant.memberLeft] *)
Definition memberLeft (self member : pid) (group : gid) : Py unit :=
  P ← get_participant self;
  c ← getattr_client (Participant.client P) "memberLeft";
  M ← get_participant member;
  G ← get_group group;
  invoke c (WCI.memberLeft (Participant.name M) (Group.name G));;
  ret tt.

(** [Participant.receiveDirectMessage].  The errback is the bound method
    with the extra arguments [sender.name, message, None]. *)
Definition receiveDirectMessage (self : pid) (sender message metadata : pyval)
    : Py unit :=
  P ← get_participant self;
  if client_truthy (Participant.client P) then
    if truthy metadata then
      c ← getattr_client (Participant.client P) "receiveDirectMessage";
      sender_name ← getattr_name sender;
      d ← invoke c (WCI.receiveDirectMessage sender_name message (Some metadata));
      if truthy d then
        sender_name' ← getattr_name sender;
        addErrback d (mk_errback self m_receiveDirectMessage
                                 [PStr sender_name'; message; PNone])
      else ret tt
    else
      c ← getattr_client (Participant.client P) "receiveDirectMessage";
      sender_name ← getattr_name sender;
      invoke c (WCI.receiveDirectMessage sender_name message None);;
      ret tt
  else raise (WrongStatusError (Participant.status P) (Participant.name P)).

(** [sender is not self] *)
Definition is_not (v : pyval) (self : pid) : bool :=
  match v with
  | PParticipant p => negb (bool_decide (p = self))
  | _ => true
  end.

(** [Participant.receiveGroupMessage].  The errback is the bound method with
    the extra arguments [sender, group, message, None]. *)
Definition receiveGroupMessage (self : pid)
    (sender group message metadata : pyval) : Py unit :=
  P ← get_participant self;
  if is_not sender self && client_truthy (Participant.client P) then
    if truthy metadata then
      c ← getattr_client (Participant.client P) "receiveGroupMessage";
      sender_name ← getattr_name sender;
      group_name ← getattr_name group;
      d ← invoke c (WCI.receiveGroupMessage sender_name group_name message
                                            (Some metadata));
      if truthy d then
        addErrback d (mk_errback self m_receiveGroupMessage
                                 [sender; group; message; PNone])
      else ret tt
    else
      c ← getattr_client (Participant.client P) "receiveGroupMessage";
      sender_name ← getattr_name sender;
      group_name ← getattr_name group;
      invoke c (WCI.receiveGroupMessage sender_name group_name message None);;
      ret tt
  else ret tt.

(** ** Group *)

(** [Group.addMember] *)
Definition addMember (self : gid) (participant : pid) : Py unit :=
  G ← get_group self;
  if bool_decide (participant ∈ Group.members G) then ret tt
  else
    for_each (Group.members G)
             (λ member, memberJoined member participant self);;
    G ← get_group self;
    setGroupMetadata participant (Group.metadata G) (Group.name G);;
    update_group self
      (λ G, Group.with_members (Group.members G ++ [participant]) G).

(** [Group.removeMember] *)
Definition removeMember (self : gid) (participant : pid) : Py unit :=
  G ← get_group self;
  match list_remove participant (Group.members G) with
  | None =>
      P ← get_participant participant;
      raise (NotInGroupError (Group.name G) (Some (Participant.name P)))
  | Some rest =>
      put_group self (Group.with_members rest G);;
      for_each rest (λ member, memberLeft member participant self)
  end.

(** [Group.sendMessage] *)
Definition sendMessage (self : gid) (sender message metadata : pyval)
    : Py unit :=
  G ← get_group self;
  for_each (Group.members G)
           (λ member,
              receiveGroupMessage member sender (PGroup self) message metadata).

(** [Group.setMetadata]: [dict.update] lets the new entries win. *)
Definition setMetadata (self : gid) (dict_ : gmap string string) : Py unit :=
  update_group self (λ G, Group.with_metadata (dict_ ∪ Group.metadata G) G);;
  G ← get_group self;
  for_each (Group.members G)
           (λ member, setGroupMetadata member dict_ (Group.name G)).

(** ** Service *)

(** [Service.getGroup]; a [Group] instance is always true, so [not group]
    holds exactly when the dict has no entry. *)
Definition getGroup (name : string) : Py gid :=
  λ w,
    match Service.groups (service w) !! name with
    | Some group => (Return group, w)
    | None =>
        let group := length (group_objs w) in
        (Return group,
         with_service
           (Service.mk (Service.participants (service w))
                       (<[name := group]> (Service.groups (service w))))
           (with_group_objs (group_objs w ++ [Group.init name]) w))
    end.

(** [Service.createParticipant]; [None] when the name is taken. *)
Definition createParticipant (name : string) : Py (option pid) :=
  λ w,
    match Service.participants (service w) !! name with
    | Some _ => (Return None, w)
    | None =>
        let p := length (participant_objs w) in
        (Return (Some p),
         with_service
           (Service.mk (<[name := p]> (Service.participants (service w)))
                       (Service.groups (service w)))
           (with_participant_objs
              (participant_objs w ++ [Participant.init name]) w))
    end.

(** [Service.getPerspectiveNamed] *)
Definition getPerspectiveNamed (name : string) : Py pid :=
  λ w,
    match Service.participants (service w) !! name with
    | Some p => (Return p, w)
    | None => (Raise (UserNonexistantError name), w)
    end.

(** ** Participant: sessions, contacts, groups, messages *)

(** [Participant.attached]; the [log.msg] line is left out. *)
Definition attached (self : pid) (client : client_ref) (identity : pyval)
    : Py pid :=
  P ← get_participant self;
  if live_session (Participant.client P) then
    raise (Unauthorized "duplicate login not permitted.")
  else
    update_participant self (Participant.with_client client);;
    c ← getattr_client client "receiveContactList";
    P ← get_participant self;
    contactList ← map_each
      (λ contact, C ← get_participant contact;
                  ret (Participant.name C, Participant.status C))
      (Participant.contacts P);
    invoke c (WCI.receiveContactList contactList);;
    changeStatus self ONLINE;;
    ret self.

(** The loop of [Participant.leaveGroup] over [self.groups]; it returns from
    the method at the first group of that name, and the [raise] after the
    loop is its empty case. *)
Fixpoint leaveGroup_scan (self : pid) (name : string) (todo : list gid)
    : Py unit :=
  match todo with
  | [] => raise (NotInGroupError name None)
  | group :: rest =>
      G ← get_group group;
      if String.eqb (Group.name G) name then
        P ← get_participant self;
        match list_remove group (Participant.groups P) with
        | None => raise ValueError
        | Some groups' =>
            put_participant self (Participant.with_groups groups' P);;
            removeMember group self
        end
      else leaveGroup_scan self name rest
  end.

(** [Participant.leaveGroup] *)
Definition leaveGroup (self : pid) (name : string) : Py unit :=
  P ← get_participant self;
  leaveGroup_scan self name (Participant.groups P).

(** [Participant.detached]; the loop runs over the copy [self.groups[:]]. *)
Definition detached (self : pid) (client : client_ref) (identity : pyval)
    : Py unit :=
  update_participant self (Participant.with_client NoClient);;
  P ← get_participant self;
  for_each (Participant.groups P)
           (λ group,
              try_except (G ← get_group group; leaveGroup self (Group.name G))
                         is_NotInGroupError (ret tt));;
  changeStatus self OFFLINE.

(** [Participant.addContact] *)
Definition addContact (self : pid) (contactName : string) : Py unit :=
  contact ← getPerspectiveNamed contactName;
  update_participant self
    (λ P, Participant.with_contacts (Participant.contacts P ++ [contact]) P);;
  update_participant contact
    (λ C, Participant.with_reverseContacts
            (Participant.reverseContacts C ++ [self]) C);;
  notifyStatusChanged self contact.

(** The loop of [Participant.removeContact] over [self.contacts]. *)
Fixpoint removeContact_scan (self : pid) (contactName : string)
    (todo : list pid) : Py unit :=
  match todo with
  | [] =>
      raise (NotInCollectionError ("No such contact '" +:+ contactName +:+ "'."))
  | contact :: rest =>
      C ← get_participant contact;
      if String.eqb (Participant.name C) contactName then
        P ← get_participant self;
        match list_remove contact (Participant.contacts P) with
        | None => raise ValueError
        | Some contacts' =>
            put_participant self (Participant.with_contacts contacts' P);;
            C ← get_participant contact;
            match list_remove self (Participant.reverseContacts C) with
            | None => raise ValueError
            | Some reverse' =>
                put_participant contact
                  (Participant.with_reverseContacts reverse' C)
            end
        end
      else removeContact_scan self contactName rest
  end.

(** [Participant.removeContact] *)
Definition removeContact (self : pid) (contactName : string) : Py unit :=
  P ← get_participant self;
  removeContact_scan self contactName (Participant.contacts P).

(** [Participant.joinGroup] *)
Definition joinGroup (self : pid) (name : string) : Py unit :=
  group ← getGroup name;
  P ← get_participant self;
  if bool_decide (group ∈ Participant.groups P) then ret tt
  else
    addMember group self;;
    update_participant self
      (λ P, Participant.with_groups (Participant.groups P ++ [group]) P).

(** [Participant.getGroupMembers]: there is no [return] in the loop, the
    [raise] after it is always reached unless the push itself fails. *)
Definition getGroupMembers (self : pid) (groupName : string) : Py unit :=
  P ← get_participant self;
  for_each (Participant.groups P)
    (λ group,
       G ← get_group group;
       if String.eqb (Group.name G) groupName then
         P ← get_participant self;
         c ← getattr_client (Participant.client P) "receiveGroupMembers";
         G ← get_group group;
         names ← map_each
           (λ m, M ← get_participant m; ret (Participant.name M))
           (Group.members G);
         invoke c (WCI.receiveGroupMembers names (Group.name G));;
         ret tt
       else ret tt);;
  raise (NotInGroupError groupName None).

(** [Participant.getGroupMetadata] *)
Definition getGroupMetadata (self : pid) (groupName : string) : Py unit :=
  P ← get_participant self;
  for_each (Participant.groups P)
    (λ group,
       G ← get_group group;
       if String.eqb (Group.name G) groupName then
         P ← get_participant self;
         c ← getattr_client (Participant.client P) "setGroupMetadata";
         G ← get_group group;
         invoke c (WCI.setGroupMetadata (Group.metadata G) (Group.name G));;
         ret tt
       else ret tt).

(** [Participant.directMessage] *)
Definition directMessage (self : pid) (recipientName : string)
    (message metadata : pyval) : Py unit :=
  recipient ← getPerspectiveNamed recipientName;
  receiveDirectMessage recipient (PParticipant self) message
                       (or_empty_dict metadata).

(** The loop of [Participant.groupMessage] over [self.groups]. *)
Fixpoint groupMessage_scan (self : pid) (groupName : string)
    (message metadata : pyval) (todo : list gid) : Py unit :=
  match todo with
  | [] => raise (NotInGroupError groupName None)
  | group :: rest =>
      G ← get_group group;
      if String.eqb (Group.name G) groupName then
        sendMessage group (PParticipant self) message (or_empty_dict metadata)
      else groupMessage_scan self groupName message metadata rest
  end.

(** [Participant.groupMessage] *)
Definition groupMessage (self : pid) (groupName : string)
    (message metadata : pyval) : Py unit :=
  P ← get_participant self;
  groupMessage_scan self groupName message metadata (Participant.groups P).

(** ** Deferreds *)

(** Calling a bound method with positional arguments: the number of
    arguments has to be the number of parameters after [self]. *)
Definition call_method (eb_m : method) (self : pid) (args : list pyval)
    : Py unit :=
  match eb_m, args with
  | m_receiveDirectMessage, [sender; message; metadata] =>
      receiveDirectMessage self sender message metadata
  | m_receiveGroupMessage, [sender; group; message; metadata] =>
      receiveGroupMessage self sender group message metadata
  | _, _ => raise TypeError
  end.

(** The errbacks of a Deferred that failed, run in the order they were
    added.  Each is called with [supplied], the positional values the
    Deferred passes on its own (Twisted passes one, the failure), followed by
    the arguments given to [addErrback].  An exception in an errback stays
    inside the Deferred: the next errback runs, and the result lists what
    each call did.  An errback that returns ends the failure. *)
Fixpoint run_errbacks (chain : list errback) (supplied : list pyval)
    : Py (list (outcome unit)) :=
  match chain with
  | [] => ret []
  | eb :: rest =>
      λ w,
        match call_method (eb_method eb) (eb_self eb)
                          (supplied ++ eb_args eb) w with
        | (Return tt, w') => (Return [Return tt], w')
        | (Raise e, w') =>
            match run_errbacks rest supplied w' with
            | (Return rs, w'') => (Return (Raise e :: rs), w'')
            | (Raise e', w'') => (Raise e', w'')
            end
        end
  end.

(** The Deferred [d] fails; afterwards it has been called and holds no
    errbacks. *)
Definition fail_deferred (d : did) (supplied : list pyval)
    : Py (list (outcome unit)) :=
  λ w,
    match deferreds w !! d with
    | Some chain =>
        run_errbacks chain supplied
                     (with_deferreds (<[d := []]> (deferreds w)) w)
    | None => (Raise Dangling, w)
    end.

(** The convention of Twisted's Deferred: the failure comes first. *)
Definition twisted_supplies (failure : string) : list pyval :=
  [PFailure failure].

(** ** Messages of the exceptions *)

(** [statuses] *)
Definition statuses : list string := ["Offline"; "Online"; "Away"].

(** What the [status] of a [WrongStatusError] can be when it is printed: a
    number, as the constants [OFFLINE], [ONLINE] and [AWAY] are, or a
    string, as the entries of [statuses] are. *)
Inductive status_value :=
| IntStatus (n : Z)
| StrStatus (s : string).

(** [self.status in statuses]: an int is equal to no string. *)
Definition in_statuses (v : status_value) : bool :=
  match v with
  | IntStatus _ => false
  | StrStatus s => bool_decide (s ∈ statuses)
  end.

(** ['%s' % v] *)
Definition format_status (v : status_value) : string :=
  match v with
  | IntStatus n => pretty n
  | StrStatus s => s
  end.

(** [if self.pName:] on a name that may be [None] *)
Definition name_given (pName : option string) : option string :=
  match pName with
  | Some p => if String.eqb p "" then None else Some p
  | None => None
  end.

(** [NotInGroupError.__str__] *)
Definition NotInGroupError_str (group : string) (pName : option string)
    : string :=
  let pName' := match name_given pName with
                | Some p => "'" +:+ p +:+ "' is"
                | None => "You are"
                end in
  pName' +:+ " not in group '" +:+ group +:+ "'.".

(** [UserNonexistantError.__str__] *)
Definition UserNonexistantError_str (pName : string) : string :=
  "'" +:+ pName +:+ "' does not exist.".

(** [WrongStatusError.__str__] *)
Definition WrongStatusError_str (status : status_value)
    (pName : option string) : string :=
  let pName' := match name_given pName with
                | Some p => "'" +:+ p +:+ "'"
                | None => "User"
                end in
  let status' := if in_statuses status then format_status status
                 else "unknown? (" +:+ format_status status +:+ ")" in
  pName' +:+ " status is '" +:+ status' +:+ "'.".

(** [str(e)] for the exceptions whose message is made of names alone.  What
    a [WrongStatusError] prints depends on whether its status is a number or
    a string: see [WrongStatusError_str]. *)
Definition error_str (e : error) : option string :=
  match e with
  | NotInGroupError group pName => Some (NotInGroupError_str group pName)
  | UserNonexistantError pName => Some (UserNonexistantError_str pName)
  | _ => None
  end.

(** ** Persistence

    [styles.Versioned.__getstate__] hands back the instance's attributes;
    the two methods below overwrite some of them. *)

(** [Participant.__getstate__] *)
Definition Participant__getstate__ (self : Participant.t) : Participant.t :=
  Participant.with_groups []
    (Participant.with_status OFFLINE
       (Participant.with_client NoClient self)).

(** [Group.__getstate__] *)
Definition Group__getstate__ (self : Group.t) : Group.t :=
  Group.with_members [] self.

(** [Group.upgradeToVersion1], from the [topic] of a version 0 group to its
    [metadata]. *)
Definition Group_upgradeToVersion1 (topic : string) : gmap string string :=
  <[ "topic_author" := "admin" ]> {[ "topic" := topic ]}.

(** ** Requests

    What the transport layer asks of the service, one request at a time; an
    error goes back to the caller and the service carries on in the state
    the failed method left. *)

Inductive request :=
| CreateParticipant (name : string)
| Attached (p : pid) (client : client_ref)
| Detached (p : pid)
| ChangeStatus (p : pid) (newStatus : Z)
| AddContact (p : pid) (contactName : string)
| RemoveContact (p : pid) (contactName : string)
| JoinGroup (p : pid) (name : string)
| LeaveGroup (p : pid) (name : string)
| GetGroupMembers (p : pid) (groupName : string)
| GetGroupMetadata (p : pid) (groupName : string)
| DirectMessage (p : pid) (recipientName : string) (message metadata : pyval)
| GroupMessage (p : pid) (groupName : string) (message metadata : pyval)
| SetMetadata (g : gid) (dict_ : gmap string string)
| FailDeferred (d : did) (supplied : list pyval).

Definition perform (r : request) : Py unit :=
  match r with
  | CreateParticipant name => createParticipant name;; ret tt
  | Attached p client => attached p client PNone;; ret tt
  | Detached p => detached p NoClient PNone
  | ChangeStatus p newStatus => changeStatus p newStatus
  | AddContact p contactName => addContact p contactName
  | RemoveContact p contactName => removeContact p contactName
  | JoinGroup p name => joinGroup p name
  | LeaveGroup p name => leaveGroup p name
  | GetGroupMembers p groupName => getGroupMembers p groupName
  | GetGroupMetadata p groupName => getGroupMetadata p groupName
  | DirectMessage p recipientName message metadata =>
      directMessage p recipientName message metadata
  | GroupMessage p groupName message metadata =>
      groupMessage p groupName message metadata
  | SetMetadata g dict_ => setMetadata g dict_
  | FailDeferred d supplied => fail_deferred d supplied;; ret tt
  end.

Definition step (w : World) (r : request) : World := (perform r w).2.

Definition run (rs : list request) (w : World) : World := foldl step w rs.

(** * Vocabulary of the properties

    What the statements below are written with; nothing here is part of the
    program. *)

(** ** Properties that a method keeps *)

(** [preserves I m]: whatever [m] returns or raises, the world it leaves
    satisfies [I] if the world it started in did. *)
Definition preserves (I : World → Prop) {A} (m : Py A) : Prop :=
  ∀ w, I w → I (m w).2.

(** A property kept by every call on a client and by every [addErrback]. *)
Class KeptByClients (I : World → Prop) : Prop := {
  kept_by_invoke : ∀ c what, preserves I (invoke c what);
  kept_by_addErrback : ∀ d eb, preserves I (addErrback d eb)
}.

(** A property that reads neither [sent] nor [deferreds]. *)
Class IgnoresWire (I : World → Prop) : Prop := {
  ignores_sent : ∀ v w, I w → I (with_sent v w);
  ignores_deferreds : ∀ v w, I w → I (with_deferreds v w)
}.

(** A property that reads neither object store. *)
Class IgnoresObjects (I : World → Prop) : Prop := {
  ignores_participant_objs : ∀ v w, I w → I (with_participant_objs v w);
  ignores_group_objs : ∀ v w, I w → I (with_group_objs v w)
}.

(** A method that changes at most what was sent and the Deferreds. *)
Definition quiet {A} (m : Py A) : Prop :=
  ∀ I, IgnoresWire I → preserves I m.

(** [raises_only E m]: every exception that leaves [m] satisfies [E]. *)
Definition raises_only (E : error → Prop) {A} (m : Py A) : Prop :=
  ∀ w e w', m w = (Raise e, w') → E e.

(** ** The links between objects *)

(** How often a reference occurs in a list. *)
Fixpoint occurrences (x : nat) (xs : list nat) : nat :=
  match xs with
  | [] => 0
  | y :: rest => (if decide (y = x) then 1 else 0) + occurrences x rest
  end.

(** A list-valued field of the object behind a reference; a reference to
    nothing has no entries. *)
Definition list_field {O X} (f : O → list X) (objs : list O) (i : nat)
    : list X :=
  from_option f [] (objs !! i).

(** The four lists of the data model, by reference. *)
Definition contacts_of (w : World) : pid → list pid :=
  list_field Participant.contacts (participant_objs w).
Definition reverseContacts_of (w : World) : pid → list pid :=
  list_field Participant.reverseContacts (participant_objs w).
Definition groups_of (w : World) : pid → list gid :=
  list_field Participant.groups (participant_objs w).
Definition members_of (w : World) : gid → list pid :=
  list_field Group.members (group_objs w).

(** Every contact edge is recorded at both ends, and so is every group
    membership; counting occurrences says so even if a list repeats a
    reference, and it rules out references to nothing.  The names in the
    service's dict all lead to an object. *)
Record linked (w : World) : Prop := {
  linked_names : ∀ n p,
    Service.participants (service w) !! n = Some p →
    p < length (participant_objs w);
  linked_contacts : ∀ a b,
    occurrences b (contacts_of w a) = occurrences a (reverseContacts_of w b);
  linked_groups : ∀ p g,
    occurrences g (groups_of w p) = occurrences p (members_of w g)
}.

(** Two worlds with the same names and the same lists. *)
Record same_links (w w' : World) : Prop := {
  same_names :
    Service.participants (service w') = Service.participants (service w);
  same_length : length (participant_objs w') = length (participant_objs w);
  same_contacts : ∀ a, contacts_of w' a = contacts_of w a;
  same_reverseContacts : ∀ a, reverseContacts_of w' a = reverseContacts_of w a;
  same_groups : ∀ a, groups_of w' a = groups_of w a;
  same_members : ∀ g, members_of w' g = members_of w g
}.

(** [same_store w0 w]: [w] differs from [w0] at most in what was sent to
    clients and in the Deferreds. *)
Definition same_store (w0 w : World) : Prop :=
  service w = service w0 ∧
  participant_objs w = participant_objs w0 ∧
  group_objs w = group_objs w0.

(** The service's dict binds the name to group [g]. *)
Definition group_named (name : string) (g : gid) (w : World) : Prop :=
  Service.groups (service w) !! name = Some g.

(** ** What clients are sent *)

(** [sent_extends w0 w]: [w] has everything [w0] had sent, and maybe more. *)
Definition sent_extends (w0 w : World) : Prop :=
  ∃ more, sent w = sent w0 ++ more.

(** The world after one call on a client. *)
Definition delivered (c : client_ref) (what : WCI.call) (w : World) : World :=
  (invoke c what w).2.

(** The world after a list of calls, made in order. *)
Definition delivered_all (calls : list (client_ref * WCI.call)) (w : World)
    : World :=
  foldl (λ w x, delivered x.1 x.2 w) w calls.

(** [map(lambda m: m.name, members)] when every member is there. *)
Definition names_of (w : World) (refs : list pid) : list string :=
  omap (λ m, Participant.name <$> participant_objs w !! m) refs.

(** What [getGroupMembers] sends to client [c]: the member names of every
    group in [self.groups] that bears the name, in order. *)
Definition groupMembers_calls (w : World) (c : client_ref)
    (groupName : string) (gs : list gid) : list (client_ref * WCI.call) :=
  flat_map
    (λ g, match group_objs w !! g with
          | Some G =>
              if String.eqb (Group.name G) groupName then
                [(c, WCI.receiveGroupMembers (names_of w (Group.members G))
                                             (Group.name G))]
              else []
          | None => []
          end) gs.

(** ** Loop bodies of the program, named

    Each is convertible with the body written out in the method. *)

(** One pass of the cleanup loop of [detached]. *)
Definition detached_leave (self : pid) (group : gid) : Py unit :=
  try_except (G ← get_group group; leaveGroup self (Group.name G))
             is_NotInGroupError (ret tt).

(** The loop body of [getGroupMembers]. *)
Definition getGroupMembers_body (self : pid) (groupName : string)
    (group : gid) : Py unit :=
  G ← get_group group;
  if String.eqb (Group.name G) groupName then
    P ← get_participant self;
    c ← getattr_client (Participant.client P) "receiveGroupMembers";
    G ← get_group group;
    names ← map_each
      (λ m, M ← get_participant m; ret (Participant.name M))
      (Group.members G);
    invoke c (WCI.receiveGroupMembers names (Group.name G));;
    ret tt
  else ret tt.

(** The common shape of [Participant.memberJoined] and
    [Participant.memberLeft]. *)
Definition member_notice (attr : string) (what : string → string → WCI.call)
    (self member : pid) (group : gid) : Py unit :=
  P ← get_participant self;
  c ← getattr_client (Participant.client P) attr;
  M ← get_participant member;
  G ← get_group group;
  invoke c (what (Participant.name M) (Group.name G));;
  ret tt.

(** ** Clients of participants *)

(** The client a reference leads to; [None] if it leads nowhere. *)
Definition client_of (w : World) (p : pid) : client_ref :=
  from_option Participant.client NoClient (participant_objs w !! p).

(** The participant exists and holds a client that answers calls. *)
Definition has_live_client (w : World) (p : pid) : Prop :=
  ∃ P, participant_objs w !! p = Some P ∧
       live_session (Participant.client P) = true.

(** The participant exists and its client handle is [None]. *)
Definition client_cleared (self : pid) (w : World) : Prop :=
  ∃ P, participant_objs w !! self = Some P ∧ Participant.client P = NoClient.

(** ** Names *)

(** What the names in the world are: the two dicts, and the name of every
    object in store order. *)
Definition names_view (w : World) : Service.t * list string * list string :=
  (service w, Participant.name <$> participant_objs w,
   Group.name <$> group_objs w).

Definition has_view (v : Service.t * list string * list string) (w : World)
    : Prop :=
  names_view w = v.

(** Every name in a dict of the service leads to an object that bears it, and
    every object is in the dict under its name. *)
Definition registered (w : World) : Prop :=
  (∀ n p, Service.participants (service w) !! n = Some p →
          (Participant.name <$> participant_objs w) !! p = Some n) ∧
  (∀ p n, (Participant.name <$> participant_objs w) !! p = Some n →
          Service.participants (service w) !! n = Some p) ∧
  (∀ n g, Service.groups (service w) !! n = Some g →
          (Group.name <$> group_objs w) !! g = Some n) ∧
  (∀ g n, (Group.name <$> group_objs w) !! g = Some n →
          Service.groups (service w) !! n = Some g).

(** The service's dict has no participant of that name. *)
Definition unknown_participant (name : string) (w : World) : Prop :=
  Service.participants (service w) !! name = None.

(** The service's dict binds the name to participant [p]. *)
Definition participant_named (name : string) (p : pid) (w : World) : Prop :=
  Service.participants (service w) !! name = Some p.

(** ** Memberships *)

(** No participant has a group twice in its [groups]. *)
Definition single_membership (w : World) : Prop :=
  Forall (λ P, NoDup (Participant.groups P)) (participant_objs w).

(** ** Contacts *)

(** The store that a successful [addContact] leaves. *)
Definition contact_added (self c : pid) (objs : list Participant.t)
    : list Participant.t :=
  match objs !! self with
  | Some P =>
      let objs1 :=
        <[self := Participant.with_contacts (Participant.contacts P ++ [c]) P]>
          objs in
      match objs1 !! c with
      | Some C =>
          <[c := Participant.with_reverseContacts
                   (Participant.reverseContacts C ++ [self]) C]> objs1
      | None => objs1
      end
  | None => objs
  end.

(** ** Fan-out *)

(** One call for each of the participants that holds a client, in order: what
    a loop over a guarded notification sends. *)
Definition calls_to (w : World) (what : WCI.call) (ps : list pid)
    : list (client_ref * WCI.call) :=
  flat_map (λ p, if client_truthy (client_of w p)
                 then [(client_of w p, what)] else []) ps.

(** No participant of the list holds the [Ephemeral] placeholder, and all of
    them exist. *)
Definition all_callable (w : World) (ps : list pid) : Prop :=
  Forall (λ p, ∃ P, participant_objs w !! p = Some P ∧
                    Participant.client P ≠ Placeholder) ps.

(** ** Messages *)

(** The metadata a client is handed with a message: [None] stands for the
    call without the fourth argument. *)
Definition passed_on (metadata : pyval) : option pyval :=
  if truthy metadata then Some metadata else None.

(** ** Snapshots *)

(** The world with every object replaced by its [__getstate__]. *)
Definition persisted (w : World) : World :=
  with_group_objs (Group__getstate__ <$> group_objs w)
    (with_participant_objs (Participant__getstate__ <$> participant_objs w) w).

(** * Properties *)

(** ** Running a method body *)

Lemma run_bind {A B} (m : Py A) (k : A → Py B) (w : World) :
  (m ≫= k) w = match m w with
               | (Return a, w') => k a w'
               | (Raise e, w') => (Raise e, w')
               end.
Proof. reflexivity. Qed.

Lemma run_bind_return {A B} (m : Py A) (k : A → Py B) w a w' :
  m w = (Return a, w') → (m ≫= k) w = k a w'.
Proof. intros H. rewrite run_bind, H. reflexivity. Qed.

Lemma run_bind_raise {A B} (m : Py A) (k : A → Py B) w e w' :
  m w = (Raise e, w') → (m ≫= k) w = (Raise e, w').
Proof. intros H. rewrite run_bind, H. reflexivity. Qed.

(** Unfolds the bookkeeping of the monad and of the store in the goal. *)
Ltac py_run :=
  cbv [mbind Py_bind mret Py_ret ret raise get_participant get_group
       put_participant put_group update_participant update_group];
  simpl.

Lemma run_ret {A} (a : A) w : ret a w = (Return a, w).
Proof. reflexivity. Qed.

Lemma run_raise {A} e w : (raise e : Py A) w = (Raise e, w).
Proof. reflexivity. Qed.

(** Runs [ret] and [raise] where they are applied to a world and reduces the
    [match] of a [bind] whose first part has been run. *)
Ltac py_step := rewrite ?run_ret, ?run_raise; cbn beta iota.

Lemma run_get_participant p w P :
  participant_objs w !! p = Some P → get_participant p w = (Return P, w).
Proof. intros H. unfold get_participant. rewrite H. reflexivity. Qed.

Lemma run_get_group g w G :
  group_objs w !! g = Some G → get_group g w = (Return G, w).
Proof. intros H. unfold get_group. rewrite H. reflexivity. Qed.

(** ** Properties of the world that a method keeps

    [preserves I m]: whatever [m] returns or raises, the world it leaves
    satisfies [I] if the world it started in did. *)

Section Preserves.
Variable I : World → Prop.

Lemma preserves_ret {A} (a : A) : preserves I (ret a).
Proof. intros w H. exact H. Qed.

Lemma preserves_mret {A} (a : A) : preserves I (mret a : Py A).
Proof. intros w H. exact H. Qed.

Lemma preserves_raise {A} (e : error) : preserves I (raise e : Py A).
Proof. intros w H. exact H. Qed.

Lemma preserves_bind {A B} (m : Py A) (k : A → Py B) :
  preserves I m → (∀ a, preserves I (k a)) → preserves I (m ≫= k).
Proof.
  intros Hm Hk w H. rewrite run_bind. specialize (Hm w H).
  destruct (m w) as [[a|e] w']; simpl in *; [by apply Hk | done].
Qed.

Lemma preserves_try_except {A} (m handler : Py A) caught :
  preserves I m → preserves I handler →
  preserves I (try_except m caught handler).
Proof.
  intros Hm Hh w H. unfold try_except. specialize (Hm w H).
  destruct (m w) as [[a|e] w']; simpl in *; [done|].
  destruct (caught e); [by apply Hh | done].
Qed.

Lemma preserves_for_each {A} (xs : list A) (body : A → Py unit) :
  (∀ x, preserves I (body x)) → preserves I (for_each xs body).
Proof.
  intros Hb. induction xs as [|x xs IH]; simpl.
  - apply preserves_ret.
  - apply preserves_bind; [apply Hb | intros _; apply IH].
Qed.

Lemma preserves_map_each {A B} (f : A → Py B) (xs : list A) :
  (∀ x, preserves I (f x)) → preserves I (map_each f xs).
Proof.
  intros Hf. induction xs as [|x xs IH]; simpl.
  - apply preserves_ret.
  - apply preserves_bind; [apply Hf | intros y].
    apply preserves_bind; [apply IH | intros ys; apply preserves_ret].
Qed.

Lemma preserves_get_participant p : preserves I (get_participant p).
Proof.
  intros w H. unfold get_participant.
  by destruct (participant_objs w !! p).
Qed.

Lemma preserves_get_group g : preserves I (get_group g).
Proof.
  intros w H. unfold get_group. by destruct (group_objs w !! g).
Qed.

Lemma preserves_getPerspectiveNamed n : preserves I (getPerspectiveNamed n).
Proof.
  intros w H. unfold getPerspectiveNamed.
  by destruct (Service.participants (service w) !! n).
Qed.

Lemma preserves_getattr_client c attr : preserves I (getattr_client c attr).
Proof. intros w H. by destruct c. Qed.

Lemma preserves_getattr_name v : preserves I (getattr_name v).
Proof.
  destruct v; simpl; try apply preserves_raise.
  - apply preserves_bind; [apply preserves_get_participant|].
    intros; apply preserves_ret.
  - apply preserves_bind; [apply preserves_get_group|].
    intros; apply preserves_ret.
Qed.
End Preserves.

(** One step of a proof that a body built from [bind], branches and loops
    preserves a property, given the facts about its primitives in the hint
    database [preserves]. *)
Create HintDb preserves discriminated.

Ltac preserves_step :=
  lazymatch goal with
  | |- preserves _ (_ ≫= _) => apply preserves_bind; [|intros ?]
  | |- preserves _ (ret _) => apply preserves_ret
  | |- preserves _ (mret _) => apply preserves_mret
  | |- preserves _ (raise _) => apply preserves_raise
  | |- preserves _ (for_each _ _) => apply preserves_for_each; intros ?
  | |- preserves _ (map_each _ _) => apply preserves_map_each; intros ?
  | |- preserves _ (try_except _ _ _) => apply preserves_try_except
  | |- preserves _ (get_participant _) => apply preserves_get_participant
  | |- preserves _ (get_group _) => apply preserves_get_group
  | |- preserves _ (getPerspectiveNamed _) => apply preserves_getPerspectiveNamed
  | |- preserves _ (getattr_client _ _) => apply preserves_getattr_client
  | |- preserves _ (getattr_name _) => apply preserves_getattr_name
  | |- preserves _ (if ?c then _ else _) => destruct c
  | |- preserves _ (match ?o with Some _ => _ | None => _ end) => destruct o
  | |- preserves _ _ => solve [eauto with preserves]
  end.

Ltac preserves_auto := repeat preserves_step.

(** *** Properties that calls on clients keep

    A property kept by [invoke] and by [addErrback] is kept by every method
    that only talks to clients.  A property that reads neither [sent] nor
    [deferreds] is one of them. *)

Global Instance ignores_wire_kept I : IgnoresWire I → KeptByClients I.
Proof.
  intros HI. split.
  - intros c what w H. unfold invoke.
    destruct c; simpl; try by apply ignores_sent.
    by apply ignores_deferreds, ignores_sent.
  - intros d eb w H. destruct d; simpl; try done.
    destruct (deferreds w !! d); simpl; [by apply ignores_deferreds | done].
Qed.

Section Wire.
Context (I : World → Prop) `{!KeptByClients I}.

Lemma preserves_invoke c what : preserves I (invoke c what).
Proof. apply kept_by_invoke. Qed.

Lemma preserves_addErrback d eb : preserves I (addErrback d eb).
Proof. apply kept_by_addErrback. Qed.

Local Hint Resolve preserves_invoke preserves_addErrback : preserves.

Lemma preserves_notifyStatusChanged self contact :
  preserves I (notifyStatusChanged self contact).
Proof. unfold notifyStatusChanged. preserves_auto. Qed.

Lemma preserves_setGroupMetadata self d n :
  preserves I (setGroupMetadata self d n).
Proof. unfold setGroupMetadata. preserves_auto. Qed.

Lemma preserves_memberJoined self member group :
  preserves I (memberJoined self member group).
Proof. unfold memberJoined. preserves_auto. Qed.

Lemma preserves_memberLeft self member group :
  preserves I (memberLeft self member group).
Proof. unfold memberLeft. preserves_auto. Qed.

Lemma preserves_receiveDirectMessage self sender message metadata :
  preserves I (receiveDirectMessage self sender message metadata).
Proof. unfold receiveDirectMessage. preserves_auto. Qed.

Lemma preserves_receiveGroupMessage self sender group message metadata :
  preserves I (receiveGroupMessage self sender group message metadata).
Proof. unfold receiveGroupMessage. preserves_auto. Qed.

Local Hint Resolve preserves_notifyStatusChanged preserves_setGroupMetadata
  preserves_memberJoined preserves_memberLeft preserves_receiveDirectMessage
  preserves_receiveGroupMessage : preserves.

Lemma preserves_sendMessage self sender message metadata :
  preserves I (sendMessage self sender message metadata).
Proof. unfold sendMessage. preserves_auto. Qed.

Lemma preserves_getGroupMembers self groupName :
  preserves I (getGroupMembers self groupName).
Proof. unfold getGroupMembers. preserves_auto. Qed.

Lemma preserves_getGroupMetadata self groupName :
  preserves I (getGroupMetadata self groupName).
Proof. unfold getGroupMetadata. preserves_auto. Qed.

Lemma preserves_directMessage self recipientName message metadata :
  preserves I (directMessage self recipientName message metadata).
Proof. unfold directMessage. preserves_auto. Qed.

Local Hint Resolve preserves_sendMessage : preserves.

Lemma preserves_groupMessage_scan self groupName message metadata todo :
  preserves I (groupMessage_scan self groupName message metadata todo).
Proof. induction todo as [|g gs IH]; simpl; preserves_auto. Qed.

Local Hint Resolve preserves_groupMessage_scan : preserves.

Lemma preserves_groupMessage self groupName message metadata :
  preserves I (groupMessage self groupName message metadata).
Proof. unfold groupMessage. preserves_auto. Qed.

Lemma preserves_call_method m self args :
  preserves I (call_method m self args).
Proof.
  unfold call_method.
  destruct m; repeat (destruct args as [|? args]; try apply preserves_raise);
    preserves_auto.
Qed.

Lemma preserves_run_errbacks chain supplied :
  preserves I (run_errbacks chain supplied).
Proof.
  induction chain as [|eb rest IH]; simpl; [apply preserves_ret|].
  intros w H.
  pose proof (preserves_call_method (eb_method eb) (eb_self eb)
                (supplied ++ eb_args eb) w H) as H1.
  destruct (call_method _ _ _ w) as [[[]|e] w1]; simpl in *; [done|].
  specialize (IH w1 H1).
  by destruct (run_errbacks rest supplied w1) as [[rs|e'] w2].
Qed.

End Wire.

Lemma preserves_fail_deferred I `{!IgnoresWire I} d supplied :
  preserves I (fail_deferred d supplied).
Proof.
  intros w H. unfold fail_deferred.
  destruct (deferreds w !! d); [|done].
  apply preserves_run_errbacks; [apply _|]. by apply ignores_deferreds.
Qed.

(** ** Counting references in a list *)

Lemma occurrences_app x xs ys :
  occurrences x (xs ++ ys) = occurrences x xs + occurrences x ys.
Proof. induction xs as [|y xs IH]; simpl; [done | rewrite IH; lia]. Qed.

Lemma occurrences_snoc x xs y :
  occurrences x (xs ++ [y]) =
  occurrences x xs + (if decide (y = x) then 1 else 0).
Proof. rewrite occurrences_app. simpl. lia. Qed.

Lemma occurrences_pos x xs : x ∈ xs ↔ 0 < occurrences x xs.
Proof.
  induction xs as [|y xs IH]; simpl.
  - split; [by intros ?%elem_of_nil | lia].
  - rewrite elem_of_cons, IH. destruct (decide (y = x)) as [->|Hne].
    + split; [lia | by left].
    + split; [intros [->|?]; [done | lia] | intros ?; right; lia].
Qed.

Lemma occurrences_zero x xs : x ∉ xs ↔ occurrences x xs = 0.
Proof. rewrite occurrences_pos. lia. Qed.

Lemma list_remove_None x xs : list_remove x xs = None ↔ x ∉ xs.
Proof.
  induction xs as [|y xs IH]; simpl.
  - split; [intros _; apply not_elem_of_nil | done].
  - rewrite not_elem_of_cons. destruct (decide (y = x)) as [->|Hne].
    + split; [done | by intros [? _]].
    + destruct (list_remove x xs).
      * split; [done|]. intros [_ H]. by apply IH in H.
      * split; [|done]. intros _. split; [done | by apply IH].
  Qed.

Lemma list_remove_occurrences x xs xs' y :
  list_remove x xs = Some xs' →
  occurrences y xs = (if decide (x = y) then 1 else 0) + occurrences y xs'.
Proof.
  revert xs'. induction xs as [|z xs IH]; intros xs'; simpl; [done|].
  destruct (decide (z = x)) as [->|Hne].
  - intros [= ->]. done.
  - destruct (list_remove x xs) as [r|]; [|done].
    intros [= <-]. simpl. rewrite (IH r eq_refl).
    repeat case_decide; subst; try done; lia.
Qed.

Lemma list_remove_head x xs : list_remove x (x :: xs) = Some xs.
Proof. simpl. by rewrite decide_True. Qed.

(** ** The links between objects *)

Lemma list_field_lookup {O X} (f : O → list X) objs i o :
  objs !! i = Some o → list_field f objs i = f o.
Proof. unfold list_field. by intros ->. Qed.

Lemma list_field_insert {O X} (f : O → list X) objs i o o' j :
  objs !! i = Some o →
  list_field f (<[i := o']> objs) j =
  if decide (j = i) then f o' else list_field f objs j.
Proof.
  intros Hi. unfold list_field. case_decide as Hj.
  - subst j. rewrite list_lookup_insert_eq; [done|].
    by eapply lookup_lt_Some.
  - by rewrite list_lookup_insert_ne.
Qed.

Lemma list_field_insert_same {O X} (f : O → list X) objs i o o' j :
  objs !! i = Some o → f o' = f o →
  list_field f (<[i := o']> objs) j = list_field f objs j.
Proof.
  intros Hi Hf. rewrite (list_field_insert f objs i o o' j Hi).
  case_decide; [subst; by rewrite (list_field_lookup f objs i o) | done].
Qed.

Lemma list_field_snoc {O X} (f : O → list X) objs o j :
  f o = [] → list_field f (objs ++ [o]) j = list_field f objs j.
Proof.
  intros Hf. unfold list_field.
  destruct (decide (j < length objs)) as [Hlt|Hge].
  - by rewrite lookup_app_l.
  - rewrite (proj2 (lookup_ge_None objs j)); [|lia]. simpl.
    destruct ((objs ++ [o]) !! j) as [o1|] eqn:E; [|done]. simpl.
    apply lookup_snoc_Some in E as [[? ?]|[? ->]]; [lia | done].
Qed.

Global Instance linked_ignores_wire : IgnoresWire linked.
Proof. split; intros v w [H1 H2 H3]; by split. Qed.

Lemma linked_same_links w w' : same_links w w' → linked w → linked w'.
Proof.
  intros [Hn Hl Hc Hr Hg Hm] [H1 H2 H3]. split.
  - intros n p. rewrite Hn, Hl. apply H1.
  - intros a b. by rewrite Hc, Hr.
  - intros p g. by rewrite Hg, Hm.
Qed.

Lemma linked_boot : linked boot.
Proof. split; done. Qed.

Global Instance same_store_ignores_wire w0 : IgnoresWire (same_store w0).
Proof. split; intros v w H; exact H. Qed.

Lemma same_store_refl w : same_store w w.
Proof. by repeat split. Qed.

Lemma same_store_trans w0 w1 w2 :
  same_store w0 w1 → same_store w1 w2 → same_store w0 w2.
Proof. intros (?&?&?) (?&?&?). repeat split; congruence. Qed.

Lemma same_store_linked w0 w : same_store w0 w → linked w0 → linked w.
Proof.
  intros (Hs & Hp & Hg). apply linked_same_links.
  split; unfold contacts_of, reverseContacts_of, groups_of, members_of;
    by rewrite ?Hs, ?Hp, ?Hg.
Qed.

(** *** Writes that leave the links alone *)

Lemma linked_update_participant p f :
  (∀ P, Participant.contacts (f P) = Participant.contacts P) →
  (∀ P, Participant.reverseContacts (f P) = Participant.reverseContacts P) →
  (∀ P, Participant.groups (f P) = Participant.groups P) →
  preserves linked (update_participant p f).
Proof.
  intros Hc Hr Hg w H. unfold update_participant. rewrite run_bind.
  unfold get_participant.
  destruct (participant_objs w !! p) as [P|] eqn:E; simpl; [|done].
  apply (linked_same_links w); [|done].
  split; simpl; try done.
  - apply length_insert.
  - intros a. by apply (list_field_insert_same _ _ _ P).
  - intros a. by apply (list_field_insert_same _ _ _ P).
  - intros a. by apply (list_field_insert_same _ _ _ P).
Qed.

Lemma linked_update_group g f :
  (∀ G, Group.members (f G) = Group.members G) →
  preserves linked (update_group g f).
Proof.
  intros Hm w H. unfold update_group. rewrite run_bind. unfold get_group.
  destruct (group_objs w !! g) as [G|] eqn:E; simpl; [|done].
  apply (linked_same_links w); [|done].
  split; simpl; try done.
  intros a. by apply (list_field_insert_same _ _ _ G).
Qed.

Lemma linked_getGroup name : preserves linked (getGroup name).
Proof.
  intros w H. unfold getGroup.
  destruct (Service.groups (service w) !! name); simpl; [done|].
  apply (linked_same_links w); [|done].
  split; simpl; try done.
  intros g. by apply list_field_snoc.
Qed.

Lemma linked_createParticipant name : preserves linked (createParticipant name).
Proof.
  intros w [H1 H2 H3]. unfold createParticipant.
  destruct (Service.participants (service w) !! name) eqn:E; simpl; [done|].
  split; simpl.
  - intros n p. rewrite length_app. simpl.
    destruct (decide (n = name)) as [->|Hne].
    + rewrite lookup_insert_eq. intros [= <-]. lia.
    + rewrite lookup_insert_ne by done. intros Hp%H1. lia.
  - intros a b. unfold contacts_of, reverseContacts_of. simpl.
    rewrite !list_field_snoc by done. apply H2.
  - intros p g. unfold groups_of, members_of. simpl.
    rewrite list_field_snoc by done. apply H3.
Qed.

Global Hint Resolve linked_getGroup linked_createParticipant : preserves.

Lemma linked_changeStatus self newStatus :
  preserves linked (changeStatus self newStatus).
Proof.
  unfold changeStatus. preserves_auto.
  - by apply linked_update_participant.
  - apply preserves_notifyStatusChanged, _.
Qed.

Lemma linked_attached self client identity :
  preserves linked (attached self client identity).
Proof.
  unfold attached. preserves_auto.
  - by apply linked_update_participant.
  - apply preserves_invoke, _.
  - apply linked_changeStatus.
Qed.

Lemma linked_setMetadata g dict_ : preserves linked (setMetadata g dict_).
Proof.
  unfold setMetadata. preserves_auto.
  - by apply linked_update_group.
  - apply preserves_setGroupMetadata, _.
Qed.

(** *** Methods that only talk to clients *)

Lemma quiet_same_store {A} (m : Py A) w : quiet m → same_store w (m w).2.
Proof. intros Hm. apply (Hm (same_store w) _), same_store_refl. Qed.

Lemma quiet_run {A} (m : Py A) w r w' :
  quiet m → m w = (r, w') → same_store w w'.
Proof. intros Hm E. pose proof (quiet_same_store m w Hm) as H. by rewrite E in H. Qed.

Lemma quiet_for_each {A} (xs : list A) body :
  (∀ x, quiet (body x)) → quiet (for_each xs body).
Proof. intros Hb I HI. apply preserves_for_each. intros x. by apply Hb. Qed.

Lemma quiet_notifyStatusChanged self contact :
  quiet (notifyStatusChanged self contact).
Proof. intros I HI. apply preserves_notifyStatusChanged, _. Qed.

Lemma quiet_setGroupMetadata self d n : quiet (setGroupMetadata self d n).
Proof. intros I HI. apply preserves_setGroupMetadata, _. Qed.

Lemma quiet_memberJoined self member group :
  quiet (memberJoined self member group).
Proof. intros I HI. apply preserves_memberJoined, _. Qed.

Lemma quiet_memberLeft self member group :
  quiet (memberLeft self member group).
Proof. intros I HI. apply preserves_memberLeft, _. Qed.

Lemma quiet_getGroupMembers self groupName :
  quiet (getGroupMembers self groupName).
Proof. intros I HI. apply preserves_getGroupMembers, _. Qed.

Lemma quiet_receiveDirectMessage self sender message metadata :
  quiet (receiveDirectMessage self sender message metadata).
Proof. intros I HI. apply preserves_receiveDirectMessage, _. Qed.

Lemma quiet_receiveGroupMessage self sender group message metadata :
  quiet (receiveGroupMessage self sender group message metadata).
Proof. intros I HI. apply preserves_receiveGroupMessage, _. Qed.

(** *** What the group methods write *)

(** [Group.addMember] writes nothing but the group's member list, and that
    only when it returns after having notified everybody. *)
Lemma addMember_store g p w r w' :
  addMember g p w = (r, w') →
  service w' = service w ∧ participant_objs w' = participant_objs w ∧
  (((∃ e, r = Raise e) ∧ group_objs w' = group_objs w) ∨
   (r = Return tt ∧ ∃ G, group_objs w !! g = Some G ∧
     ((p ∈ Group.members G ∧ group_objs w' = group_objs w) ∨
      ((p ∉ Group.members G) ∧
       group_objs w' =
         (<[g := Group.with_members (Group.members G ++ [p]) G]>
            (group_objs w)))))).
Proof.
  unfold addMember. rewrite run_bind. unfold get_group at 1.
  destruct (group_objs w !! g) as [G|] eqn:E; simpl;
    [|intros [= <- <-]; eauto 6].
  case_bool_decide as Hin; [intros [= <- <-]; eauto 10|].
  rewrite run_bind.
  destruct (for_each _ _ w) as [[[]|e] w1] eqn:E1;
    apply quiet_run in E1 as (Hs1 & Hp1 & Hg1);
    try (apply quiet_for_each; intros; apply quiet_memberJoined);
    [|intros [= <- <-]; eauto 6].
  rewrite run_bind. unfold get_group at 1. rewrite Hg1, E. simpl.
  rewrite run_bind.
  destruct (setGroupMetadata _ _ _ w1) as [[[]|e] w2] eqn:E2;
    apply quiet_run in E2 as (Hs2 & Hp2 & Hg2);
    try apply quiet_setGroupMetadata;
    [|intros [= <- <-]; rewrite Hs2, Hp2, Hg2; eauto 6].
  unfold update_group. rewrite run_bind. unfold get_group.
  rewrite Hg2, Hg1, E. simpl. intros [= <- <-]. simpl.
  rewrite Hs2, Hp2, Hg2, Hg1. split_and!; try done.
  right. split; [done|]. exists G. eauto.
Qed.

(** [Group.removeMember] writes nothing but the group's member list; it
    drops the participant before it notifies anybody. *)
Lemma removeMember_store g p w r w' :
  removeMember g p w = (r, w') →
  service w' = service w ∧ participant_objs w' = participant_objs w ∧
  (((∃ e, r = Raise e) ∧ group_objs w' = group_objs w ∧
     p ∉ members_of w g) ∨
   (∃ G rest, group_objs w !! g = Some G ∧
     list_remove p (Group.members G) = Some rest ∧
     group_objs w' = (<[g := Group.with_members rest G]> (group_objs w)))).
Proof.
  unfold removeMember. rewrite run_bind. unfold get_group at 1.
  destruct (group_objs w !! g) as [G|] eqn:E; simpl.
  2:{ intros [= <- <-]. split_and!; try done. left.
      unfold members_of, list_field. rewrite E.
      split_and!; eauto using not_elem_of_nil. }
  destruct (list_remove p (Group.members G)) as [rest|] eqn:Er.
  - rewrite run_bind. simpl.
    destruct (for_each _ _ _) as [r1 w1] eqn:E1.
    apply quiet_run in E1 as (Hs1 & Hp1 & Hg1);
      [|apply quiet_for_each; intros; apply quiet_memberLeft].
    simpl in *. intros E2.
    assert (w' = w1) as -> by (destruct r1; congruence).
    rewrite Hs1, Hp1, Hg1. split_and!; try done. right. eauto.
  - apply list_remove_None in Er. rewrite run_bind. unfold get_participant.
    unfold members_of. rewrite (list_field_lookup _ _ _ _ E).
    destruct (participant_objs w !! p); simpl; intros [= <- <-];
      split_and!; try done; left; eauto.
Qed.

(** *** Rewriting one membership, one contact edge *)

(** Replacing [self.groups] and [group.members] keeps the worlds linked when
    the two new lists agree on the pair [(self, group)] and count every other
    reference as before. *)
Lemma linked_regroup w w' self g P G gs ms :
  linked w →
  participant_objs w !! self = Some P →
  group_objs w !! g = Some G →
  Service.participants (service w') = Service.participants (service w) →
  participant_objs w' =
    (<[self := Participant.with_groups gs P]> (participant_objs w)) →
  group_objs w' = (<[g := Group.with_members ms G]> (group_objs w)) →
  (∀ x, x ≠ g → occurrences x gs = occurrences x (Participant.groups P)) →
  (∀ y, y ≠ self → occurrences y ms = occurrences y (Group.members G)) →
  occurrences g gs = occurrences self ms →
  linked w'.
Proof.
  intros [H1 H2 H3] EP EG Hs Hp Hg Hgs Hms Hpair. split.
  - intros n p. rewrite Hs, Hp, length_insert. apply H1.
  - intros a b. unfold contacts_of, reverseContacts_of. rewrite Hp.
    rewrite !(list_field_insert_same _ _ _ P) by done. apply H2.
  - intros p' g'. unfold groups_of, members_of. rewrite Hp, Hg.
    rewrite (list_field_insert _ _ _ P) by done.
    rewrite (list_field_insert _ _ _ G) by done.
    specialize (H3 p' g'). unfold groups_of, members_of in H3.
    repeat case_decide; subst; simpl.
    + done.
    + rewrite Hgs by done.
      by rewrite (list_field_lookup _ _ _ _ EP) in H3.
    + rewrite Hms by done.
      by rewrite (list_field_lookup _ _ _ _ EG) in H3.
    + done.
Qed.

(** The same for [self.contacts] and [contact.reverseContacts]; the two may
    be one object, so the second write is stated on the store the first one
    left. *)
Lemma linked_recontact w w' self c P C cs rs :
  linked w →
  participant_objs w !! self = Some P →
  (<[self := Participant.with_contacts cs P]> (participant_objs w)) !! c
    = Some C →
  Service.participants (service w') = Service.participants (service w) →
  participant_objs w' =
    (<[c := Participant.with_reverseContacts rs C]>
       (<[self := Participant.with_contacts cs P]> (participant_objs w))) →
  group_objs w' = group_objs w →
  (∀ x, x ≠ c → occurrences x cs = occurrences x (Participant.contacts P)) →
  (∀ y, y ≠ self →
        occurrences y rs = occurrences y (Participant.reverseContacts C)) →
  occurrences c cs = occurrences self rs →
  linked w'.
Proof.
  intros [H1 H2 H3] EP EC Hs Hp Hg Hcs Hrs Hpair. split.
  - intros n p. rewrite Hs, Hp, !length_insert. apply H1.
  - intros a b. unfold contacts_of, reverseContacts_of. rewrite Hp.
    rewrite (list_field_insert_same _ _ c C) by done.
    rewrite (list_field_insert _ _ self P) by done.
    rewrite (list_field_insert _ _ c C) by done. simpl.
    assert (Participant.reverseContacts C = reverseContacts_of w c) as EC'.
    { unfold reverseContacts_of.
      rewrite <- (list_field_lookup Participant.reverseContacts _ _ _ EC).
      by rewrite (list_field_insert_same _ _ self P). }
    rewrite (list_field_insert_same _ _ self P) by done.
    specialize (H2 a b). unfold contacts_of, reverseContacts_of in *.
    repeat case_decide; subst; simpl.
    + done.
    + rewrite Hcs by done.
      by rewrite (list_field_lookup _ _ _ _ EP) in H2.
    + rewrite Hrs, EC' by done. done.
    + done.
  - intros p g. unfold groups_of, members_of. rewrite Hp, Hg.
    rewrite (list_field_insert_same _ _ c C) by done.
    rewrite (list_field_insert_same _ _ self P) by done. apply H3.
Qed.

(** *** The methods that write links *)

Lemma linked_joinGroup self name : preserves linked (joinGroup self name).
Proof.
  intros w H. unfold joinGroup. rewrite run_bind.
  pose proof (linked_getGroup name w H) as H0.
  destruct (getGroup name w) as [[g|e] w0]; simpl in H0; [|done].
  rewrite run_bind. unfold get_participant at 1.
  destruct (participant_objs w0 !! self) as [P|] eqn:EP; simpl; [|done].
  case_bool_decide as Hin; [done|].
  rewrite run_bind.
  destruct (addMember g self w0) as [r w1] eqn:E1.
  apply addMember_store in E1
    as (Hs & Hp & [[[e ->] Hg] | [-> (G & EG & [[Hm Hg] | [Hm Hg]])]]).
  - simpl. by apply (same_store_linked w0).
  - exfalso. apply Hin. apply occurrences_pos.
    pose proof (linked_groups _ H0 self g) as Hl.
    unfold groups_of, members_of in Hl.
    rewrite (list_field_lookup _ _ _ _ EP), (list_field_lookup _ _ _ _ EG) in Hl.
    rewrite Hl. by apply occurrences_pos.
  - unfold update_participant. rewrite run_bind. unfold get_participant.
    rewrite Hp, EP. simpl.
    eapply (linked_regroup w0 _ self g P G (Participant.groups P ++ [g])
              (Group.members G ++ [self])); try done; simpl.
    + by rewrite Hs.
    + by rewrite Hp.
    + intros x Hx. rewrite occurrences_snoc. by rewrite decide_False.
    + intros y Hy. rewrite occurrences_snoc. by rewrite decide_False.
    + rewrite !occurrences_snoc, !decide_True by done.
      pose proof (linked_groups _ H0 self g) as Hl.
      unfold groups_of, members_of in Hl.
      rewrite (list_field_lookup _ _ _ _ EP), (list_field_lookup _ _ _ _ EG)
        in Hl. lia.
Qed.

Lemma linked_leaveGroup_scan self name todo :
  preserves linked (leaveGroup_scan self name todo).
Proof.
  induction todo as [|g todo IH]; intros w H; simpl; [done|].
  rewrite run_bind. unfold get_group at 1.
  destruct (group_objs w !! g) as [G|] eqn:EG; simpl; [|done].
  destruct (String.eqb (Group.name G) name); [|by apply IH].
  rewrite run_bind. unfold get_participant at 1.
  destruct (participant_objs w !! self) as [P|] eqn:EP; simpl; [|done].
  destruct (list_remove g (Participant.groups P)) as [gs|] eqn:Egs; [|done].
  rewrite run_bind. simpl.
  pose proof (linked_groups _ H self g) as Hl.
  unfold groups_of, members_of in Hl.
  rewrite (list_field_lookup _ _ _ _ EP), (list_field_lookup _ _ _ _ EG) in Hl.
  rewrite (list_remove_occurrences _ _ _ g Egs), decide_True in Hl by done.
  destruct (removeMember g self _) as [r w1] eqn:E1.
  apply removeMember_store in E1
    as (Hs & Hp & [([e ->] & Hg & Hm) | (G' & ms & EG' & Ems & Hg)]);
    simpl in *.
  - exfalso. unfold members_of in Hm. simpl in Hm.
    rewrite (list_field_lookup _ _ _ _ EG) in Hm.
    apply occurrences_zero in Hm. lia.
  - rewrite EG in EG'. injection EG' as <-.
    eapply (linked_regroup w _ self g P G gs ms); try done.
    + by rewrite Hs.
    + intros x Hx. rewrite (list_remove_occurrences _ _ _ x Egs).
      by rewrite decide_False.
    + intros y Hy. rewrite (list_remove_occurrences _ _ _ y Ems).
      by rewrite decide_False.
    + rewrite (list_remove_occurrences _ _ _ self Ems), decide_True in Hl
        by done. lia.
Qed.

Lemma linked_leaveGroup self name : preserves linked (leaveGroup self name).
Proof.
  unfold leaveGroup. preserves_auto. apply linked_leaveGroup_scan.
Qed.

Lemma linked_detached self client identity :
  preserves linked (detached self client identity).
Proof.
  unfold detached. preserves_auto.
  - by apply linked_update_participant.
  - apply linked_leaveGroup.
  - apply linked_changeStatus.
Qed.

Lemma linked_addContact self contactName :
  preserves linked (addContact self contactName).
Proof.
  intros w H. unfold addContact. rewrite run_bind. unfold getPerspectiveNamed.
  destruct (Service.participants (service w) !! contactName) as [c|] eqn:Ec;
    simpl; [|done].
  apply (linked_names _ H) in Ec.
  unfold update_participant. rewrite !run_bind. unfold get_participant at 1.
  destruct (participant_objs w !! self) as [P|] eqn:EP; simpl; [|done].
  rewrite !run_bind. unfold get_participant. simpl.
  destruct ((<[self := _]> (participant_objs w)) !! c) as [C|] eqn:EC; simpl.
  2:{ apply lookup_ge_None in EC. rewrite length_insert in EC. lia. }
  apply (preserves_notifyStatusChanged linked).
  eapply (linked_recontact w _ self c P C (Participant.contacts P ++ [c])
            (Participant.reverseContacts C ++ [self])); try done; simpl.
  - intros x Hx. rewrite occurrences_snoc. by rewrite decide_False.
  - intros y Hy. rewrite occurrences_snoc. by rewrite decide_False.
  - rewrite !occurrences_snoc, !decide_True by done.
    pose proof (linked_contacts _ H self c) as Hl.
    unfold contacts_of, reverseContacts_of in Hl.
    rewrite (list_field_lookup _ _ _ _ EP) in Hl.
    rewrite <- (list_field_insert_same Participant.reverseContacts _ self P
                 (Participant.with_contacts
                    (Participant.contacts P ++ [c]) P) c EP eq_refl) in Hl.
    rewrite (list_field_lookup _ _ _ _ EC) in Hl. lia.
Qed.

Lemma linked_removeContact_scan self contactName todo :
  preserves linked (removeContact_scan self contactName todo).
Proof.
  induction todo as [|c todo IH]; intros w H; simpl; [done|].
  rewrite run_bind. unfold get_participant at 1.
  destruct (participant_objs w !! c) as [C0|] eqn:EC0; simpl; [|done].
  destruct (String.eqb (Participant.name C0) contactName); [|by apply IH].
  rewrite run_bind. unfold get_participant at 1.
  destruct (participant_objs w !! self) as [P|] eqn:EP; simpl; [|done].
  destruct (list_remove c (Participant.contacts P)) as [cs|] eqn:Ecs; [|done].
  rewrite !run_bind. simpl. rewrite !run_bind. unfold get_participant. simpl.
  destruct ((<[self := _]> (participant_objs w)) !! c) as [C|] eqn:EC; simpl.
  2:{ apply lookup_ge_None in EC. rewrite length_insert in EC.
      apply lookup_lt_Some in EC0. lia. }
  pose proof (linked_contacts _ H self c) as Hl.
  unfold contacts_of, reverseContacts_of in Hl.
  rewrite (list_field_lookup _ _ _ _ EP) in Hl.
  rewrite <- (list_field_insert_same Participant.reverseContacts _ self P
               (Participant.with_contacts cs P) c EP eq_refl) in Hl.
  rewrite (list_field_lookup _ _ _ _ EC) in Hl.
  rewrite (list_remove_occurrences _ _ _ c Ecs), decide_True in Hl by done.
  destruct (list_remove self (Participant.reverseContacts C)) as [rs|] eqn:Ers.
  2:{ apply list_remove_None, occurrences_zero in Ers. lia. }
  simpl.
  eapply (linked_recontact w _ self c P C cs rs); try done; simpl.
  - intros x Hx. rewrite (list_remove_occurrences _ _ _ x Ecs).
    by rewrite decide_False.
  - intros y Hy. rewrite (list_remove_occurrences _ _ _ y Ers).
    by rewrite decide_False.
  - rewrite (list_remove_occurrences _ _ _ self Ers), decide_True in Hl
      by done. lia.
Qed.

Lemma linked_removeContact self contactName :
  preserves linked (removeContact self contactName).
Proof.
  unfold removeContact. preserves_auto. apply linked_removeContact_scan.
Qed.

(** *** Every request keeps the world linked *)

Lemma linked_perform r : preserves linked (perform r).
Proof.
  destruct r; simpl; preserves_auto.
  - apply linked_attached.
  - apply linked_detached.
  - apply linked_changeStatus.
  - apply linked_addContact.
  - apply linked_removeContact.
  - apply linked_joinGroup.
  - apply linked_leaveGroup.
  - apply preserves_getGroupMembers, _.
  - apply preserves_getGroupMetadata, _.
  - apply preserves_directMessage, _.
  - apply preserves_groupMessage, _.
  - apply linked_setMetadata.
  - apply preserves_fail_deferred, _.
Qed.

Lemma linked_run rs w : linked w → linked (run rs w).
Proof.
  revert w. induction rs as [|r rs IH]; intros w H; simpl; [done|].
  apply IH. by apply linked_perform.
Qed.

Lemma linked_reachable rs : linked (run rs boot).
Proof. apply linked_run, linked_boot. Qed.

(** In a linked world every reference held in a list leads to an object. *)
Lemma linked_group_allocated w p P g :
  linked w → participant_objs w !! p = Some P →
  g ∈ Participant.groups P → is_Some (group_objs w !! g).
Proof.
  intros H EP Hin. pose proof (linked_groups _ H p g) as Hl.
  unfold groups_of, members_of in Hl.
  rewrite (list_field_lookup _ _ _ _ EP) in Hl.
  apply occurrences_pos in Hin.
  destruct (group_objs w !! g) eqn:E; [eauto|].
  unfold list_field in Hl. rewrite E in Hl. simpl in Hl. lia.
Qed.

Lemma linked_member_allocated w g G p :
  linked w → group_objs w !! g = Some G →
  p ∈ Group.members G → is_Some (participant_objs w !! p).
Proof.
  intros H EG Hin. pose proof (linked_groups _ H p g) as Hl.
  unfold groups_of, members_of in Hl.
  rewrite (list_field_lookup _ _ _ _ EG) in Hl.
  apply occurrences_pos in Hin.
  destruct (participant_objs w !! p) eqn:E; [eauto|].
  unfold list_field in Hl. rewrite E in Hl. simpl in Hl. lia.
Qed.

Lemma linked_contact_allocated w a A b :
  linked w → participant_objs w !! a = Some A →
  b ∈ Participant.contacts A → is_Some (participant_objs w !! b).
Proof.
  intros H EA Hin. pose proof (linked_contacts _ H a b) as Hl.
  unfold contacts_of, reverseContacts_of in Hl.
  rewrite (list_field_lookup _ _ _ _ EA) in Hl.
  apply occurrences_pos in Hin.
  destruct (participant_objs w !! b) eqn:E; [eauto|].
  unfold list_field in Hl. rewrite E in Hl. simpl in Hl. lia.
Qed.

(** *** removeContact when no contact has the name *)

Lemma removeContact_scan_absent self contactName todo w :
  Forall (λ c, ∃ C, participant_objs w !! c = Some C ∧
                    Participant.name C ≠ contactName) todo →
  removeContact_scan self contactName todo w =
    (Raise (NotInCollectionError
              ("No such contact '" +:+ contactName +:+ "'.")), w).
Proof.
  induction 1 as [|c todo (C & EC & Hne) _ IH]; simpl; [done|].
  rewrite (run_bind_return _ _ _ _ _ (run_get_participant _ _ _ EC)).
  apply String.eqb_neq in Hne. by rewrite Hne.
Qed.

(** [NotInCollectionError] itself comes only from the end of the scan, where
    nothing has been written. *)
Lemma removeContact_scan_NotInCollection self contactName todo w msg w' :
  removeContact_scan self contactName todo w
    = (Raise (NotInCollectionError msg), w') →
  w' = w.
Proof.
  induction todo as [|c todo IH]; simpl; [by intros [= _ <-]|].
  rewrite run_bind. unfold get_participant at 1.
  destruct (participant_objs w !! c) as [C0|]; simpl; [|done].
  destruct (String.eqb (Participant.name C0) contactName); [|done].
  rewrite run_bind. unfold get_participant at 1.
  destruct (participant_objs w !! self) as [P|]; simpl; [|done].
  destruct (list_remove c (Participant.contacts P)); [|done].
  rewrite !run_bind. simpl. rewrite !run_bind. unfold get_participant. simpl.
  destruct (_ !! c) as [C|]; simpl; [|done].
  by destruct (list_remove self (Participant.reverseContacts C)).
Qed.

(** *** Properties of the service's dicts alone

    A property that reads only [service] is kept by every method once
    [getGroup] and [createParticipant], the two writers of the dicts, keep
    it. *)

Section Dicts.
Context (I : World → Prop) `{!IgnoresWire I} `{!IgnoresObjects I}.
Hypothesis I_getGroup : ∀ name, preserves I (getGroup name).
Hypothesis I_createParticipant : ∀ name, preserves I (createParticipant name).

Lemma dicts_put_participant p P : preserves I (put_participant p P).
Proof. intros w H. by apply ignores_participant_objs. Qed.

Lemma dicts_put_group g G : preserves I (put_group g G).
Proof. intros w H. by apply ignores_group_objs. Qed.

Local Hint Resolve dicts_put_participant dicts_put_group : preserves.
Local Hint Extern 1 (KeptByClients _) => apply _ : preserves.

Lemma dicts_update_participant p f : preserves I (update_participant p f).
Proof. unfold update_participant. preserves_auto. Qed.

Lemma dicts_update_group g f : preserves I (update_group g f).
Proof. unfold update_group. preserves_auto. Qed.

Local Hint Resolve dicts_update_participant dicts_update_group
  preserves_invoke preserves_notifyStatusChanged preserves_setGroupMetadata
  preserves_memberJoined preserves_memberLeft : preserves.

Lemma dicts_changeStatus self newStatus :
  preserves I (changeStatus self newStatus).
Proof. unfold changeStatus. preserves_auto. Qed.

Lemma dicts_addMember g p : preserves I (addMember g p).
Proof. unfold addMember. preserves_auto. Qed.

Lemma dicts_removeMember g p : preserves I (removeMember g p).
Proof. unfold removeMember. preserves_auto. Qed.

Local Hint Resolve dicts_changeStatus dicts_addMember dicts_removeMember
  : preserves.

Lemma dicts_leaveGroup_scan self name todo :
  preserves I (leaveGroup_scan self name todo).
Proof. induction todo as [|g todo IH]; simpl; preserves_auto. Qed.

Lemma dicts_removeContact_scan self contactName todo :
  preserves I (removeContact_scan self contactName todo).
Proof. induction todo as [|c todo IH]; simpl; preserves_auto. Qed.

Local Hint Resolve dicts_leaveGroup_scan dicts_removeContact_scan
  : preserves.

Lemma dicts_leaveGroup self name : preserves I (leaveGroup self name).
Proof. unfold leaveGroup. preserves_auto. Qed.

Local Hint Resolve dicts_leaveGroup : preserves.

Lemma dicts_perform r : preserves I (perform r).
Proof.
  destruct r; simpl.
  - preserves_auto.
  - unfold attached. preserves_auto.
  - unfold detached. preserves_auto.
  - preserves_auto.
  - unfold addContact. preserves_auto.
  - unfold removeContact. preserves_auto.
  - unfold joinGroup. preserves_auto.
  - preserves_auto.
  - apply preserves_getGroupMembers, _.
  - apply preserves_getGroupMetadata, _.
  - apply preserves_directMessage, _.
  - apply preserves_groupMessage, _.
  - unfold setMetadata. preserves_auto.
  - preserves_step; [apply preserves_fail_deferred, _ | preserves_auto].
Qed.

Lemma dicts_run rs w : I w → I (run rs w).
Proof.
  revert w. induction rs as [|r rs IH]; intros w H; simpl; [done|].
  apply IH. by apply dicts_perform.
Qed.
End Dicts.

Global Instance group_named_ignores_wire name g : IgnoresWire (group_named name g).
Proof. by split. Qed.

Global Instance group_named_ignores_objects name g :
  IgnoresObjects (group_named name g).
Proof. by split. Qed.

Lemma group_named_getGroup name g name' :
  preserves (group_named name g) (getGroup name').
Proof.
  intros w H. unfold getGroup, group_named in *.
  destruct (Service.groups (service w) !! name') eqn:E; simpl; [done|].
  rewrite lookup_insert_ne; [done|]. intros <-. congruence.
Qed.

Lemma group_named_createParticipant name g name' :
  preserves (group_named name g) (createParticipant name').
Proof.
  intros w H. unfold createParticipant, group_named in *.
  by destruct (Service.participants (service w) !! name').
Qed.

Lemma group_named_run name g rs w :
  group_named name g w → group_named name g (run rs w).
Proof.
  apply dicts_run; try apply _.
  - apply group_named_getGroup.
  - apply group_named_createParticipant.
Qed.

Lemma getGroup_known name g w :
  group_named name g w → getGroup name w = (Return g, w).
Proof. unfold getGroup, group_named. by intros ->. Qed.

Lemma getGroup_returns name w :
  ∃ g w', getGroup name w = (Return g, w') ∧ group_named name g w' ∧
          participant_objs w' = participant_objs w.
Proof.
  unfold getGroup, group_named.
  destruct (Service.groups (service w) !! name) as [g|] eqn:E.
  - by exists g, w.
  - eexists _, _. split; [done|]. simpl. by rewrite lookup_insert_eq.
Qed.

(** ** Which exceptions a method can raise *)

Section Raises.
Variable E : error → Prop.

Lemma raises_only_ret {A} (a : A) : raises_only E (ret a).
Proof. by intros w e w'. Qed.

Lemma raises_only_raise {A} e : E e → raises_only E (raise e : Py A).
Proof. by intros He w e' w' [= <- _]. Qed.

Lemma raises_only_bind {A B} (m : Py A) (k : A → Py B) :
  raises_only E m → (∀ a, raises_only E (k a)) → raises_only E (m ≫= k).
Proof.
  intros Hm Hk w e w'. rewrite run_bind.
  destruct (m w) as [[a|e1] w1] eqn:E1; [apply Hk|].
  intros [= <- <-]. by eapply Hm.
Qed.

Lemma raises_only_for_each {A} (xs : list A) body :
  (∀ x, raises_only E (body x)) → raises_only E (for_each xs body).
Proof.
  intros Hb. induction xs as [|x xs IH]; simpl; [apply raises_only_ret|].
  apply raises_only_bind; [apply Hb | by intros _].
Qed.

Lemma raises_only_map_each {A B} (f : A → Py B) xs :
  (∀ x, raises_only E (f x)) → raises_only E (map_each f xs).
Proof.
  intros Hf. induction xs as [|x xs IH]; simpl; [apply raises_only_ret|].
  apply raises_only_bind; [apply Hf | intros y].
  apply raises_only_bind; [apply IH | intros ys; apply raises_only_ret].
Qed.

Lemma raises_only_try_except {A} (m handler : Py A) caught :
  raises_only (λ e, caught e = false → E e) m →
  raises_only E handler →
  raises_only E (try_except m caught handler).
Proof.
  intros Hm Hh w e w'. unfold try_except.
  destruct (m w) as [[a|e1] w1] eqn:E1; [done|].
  destruct (caught e1) eqn:Ec; [apply Hh|].
  intros [= <- <-]. by eapply Hm.
Qed.

(** The methods below can fail only where they look something up: on a
    reference to nothing, or on a client that lacks the method. *)
Hypothesis E_Dangling : E Dangling.
Hypothesis E_AttributeError : ∀ attr, E (AttributeError attr).

Lemma raises_only_get_participant p : raises_only E (get_participant p).
Proof.
  intros w e w'. unfold get_participant.
  destruct (participant_objs w !! p); [done | by intros [= <- _]].
Qed.

Lemma raises_only_get_group g : raises_only E (get_group g).
Proof.
  intros w e w'. unfold get_group.
  destruct (group_objs w !! g); [done | by intros [= <- _]].
Qed.

Lemma raises_only_update_participant p f :
  raises_only E (update_participant p f).
Proof.
  apply raises_only_bind; [apply raises_only_get_participant|].
  by intros P w e w'.
Qed.

Lemma raises_only_getattr_client c attr :
  raises_only E (getattr_client c attr).
Proof. intros w e w'. destruct c; simpl; by intros [= <- _]. Qed.

Lemma raises_only_invoke c what : raises_only E (invoke c what).
Proof. intros w e w'. unfold invoke. by destruct c. Qed.

Lemma raises_only_notifyStatusChanged self contact :
  raises_only E (notifyStatusChanged self contact).
Proof.
  unfold notifyStatusChanged.
  apply raises_only_bind; [apply raises_only_get_participant | intros P].
  destruct (client_truthy _); [|apply raises_only_ret].
  apply raises_only_bind; [apply raises_only_getattr_client | intros c].
  apply raises_only_bind; [apply raises_only_get_participant | intros C].
  apply raises_only_bind; [apply raises_only_invoke | intros _].
  apply raises_only_ret.
Qed.

Lemma raises_only_changeStatus self newStatus :
  raises_only E (changeStatus self newStatus).
Proof.
  unfold changeStatus.
  apply raises_only_bind; [apply raises_only_update_participant | intros _].
  apply raises_only_bind; [apply raises_only_get_participant | intros P].
  apply raises_only_for_each. intros c.
  apply raises_only_notifyStatusChanged.
Qed.
End Raises.

(** ** What the session methods write *)

Lemma changeStatus_store self newStatus w P r w' :
  participant_objs w !! self = Some P →
  changeStatus self newStatus w = (r, w') →
  service w' = service w ∧
  participant_objs w' =
    (<[self := Participant.with_status newStatus P]> (participant_objs w)) ∧
  group_objs w' = group_objs w.
Proof.
  intros EP. unfold changeStatus. py_run. rewrite EP. simpl.
  rewrite list_lookup_insert_eq by (by eapply lookup_lt_Some).
  intros E1. apply quiet_run in E1 as (Hs & Hp & Hg); [done|].
  apply quiet_for_each. intros. apply quiet_notifyStatusChanged.
Qed.

Global Instance sent_extends_kept w0 : KeptByClients (sent_extends w0).
Proof.
  split.
  - intros c what w [more H]. exists (more ++ [(c, what)]).
    unfold invoke. destruct c; simpl; by rewrite H, app_assoc.
  - intros d eb w H. destruct d; simpl; try done.
    by destruct (deferreds w !! d).
Qed.

Lemma changeStatus_sent self newStatus w :
  sent_extends w (changeStatus self newStatus w).2.
Proof.
  unfold changeStatus. py_run.
  destruct (participant_objs w !! self) as [P|]; simpl;
    [|by exists []; rewrite app_nil_r].
  destruct (_ !! self) as [P1|]; simpl; [|by exists []; rewrite app_nil_r].
  apply (preserves_for_each (sent_extends w)).
  - intros c. apply preserves_notifyStatusChanged, _.
  - exists []. simpl. by rewrite app_nil_r.
Qed.

(** [map(lambda x: f(x), refs)] only reads. *)
Lemma map_each_get {B} (f : Participant.t → B) refs w r w' :
  map_each (λ c, C ← get_participant c; ret (f C)) refs w = (r, w') →
  w' = w ∧
  ∀ l, r = Return l →
       Forall2 (λ c y, ∃ C, participant_objs w !! c = Some C ∧ y = f C) refs l.
Proof.
  revert r w'. induction refs as [|c refs IH]; intros r w'; simpl.
  - intros [= <- <-]. split; [done|]. intros l [= <-]. constructor.
  - rewrite !run_bind. unfold get_participant at 1.
    destruct (participant_objs w !! c) as [C|] eqn:EC; simpl;
      [|by intros [= <- <-]].
    rewrite run_bind.
    destruct (map_each _ refs w) as [r1 w1] eqn:E1.
    destruct (IH _ _ eq_refl) as [-> Hl].
    destruct r1 as [ys|e]; simpl; intros [= <- <-]; split; try done.
    intros l [= <-]. constructor; eauto.
Qed.

Lemma run_update_participant p f w P :
  participant_objs w !! p = Some P →
  update_participant p f w =
    (Return tt, with_participant_objs (<[p := f P]> (participant_objs w)) w).
Proof. intros EP. unfold update_participant. py_run. by rewrite EP. Qed.

Lemma invoke_returns c what w :
  ∃ d w', invoke c what w = (Return d, w') ∧ same_store w w' ∧
          sent w' = sent w ++ [(c, what)].
Proof.
  unfold invoke. by destruct c; eexists _, _.
Qed.

Lemma getattr_client_Return c attr w r w' :
  getattr_client c attr w = (Return r, w') →
  r = c ∧ w' = w ∧ live_session c = true.
Proof. destruct c; cbv; intros [= <- <-]; done. Qed.

Lemma getattr_client_live c attr w :
  live_session c = true → getattr_client c attr w = (Return c, w).
Proof. by destruct c. Qed.

Lemma getattr_client_not_live c attr w :
  live_session c = false →
  getattr_client c attr w = (Raise (AttributeError attr), w).
Proof. by destruct c. Qed.

(** ** detached *)

(** While the loop runs, [self.groups] is what is left of the copy being
    iterated: each pass that does not abort the loop removes the head. *)
Lemma detached_leave_head self g rest w P w' :
  participant_objs w !! self = Some P →
  Participant.groups P = g :: rest →
  detached_leave self g w = (Return tt, w') →
  participant_objs w' =
    (<[self := Participant.with_groups rest P]> (participant_objs w)).
Proof.
  intros EP Hgs. unfold detached_leave, try_except.
  destruct ((G ← get_group g; leaveGroup self (Group.name G)) w)
    as [r w1] eqn:E1.
  assert (participant_objs w1 =
          (<[self := Participant.with_groups rest P]> (participant_objs w)) ∨
          ∃ e, r = Raise e ∧ is_NotInGroupError e = false) as Hw1.
  { revert E1. rewrite run_bind. unfold get_group at 1.
    destruct (group_objs w !! g) as [G|] eqn:EG; simpl;
      [|intros [= <- <-]; eauto].
    unfold leaveGroup.
    rewrite (run_bind_return _ _ _ _ _ (run_get_participant _ _ _ EP)).
    rewrite Hgs. simpl.
    rewrite (run_bind_return _ _ _ _ _ (run_get_group _ _ _ EG)).
    rewrite String.eqb_refl.
    rewrite (run_bind_return _ _ _ _ _ (run_get_participant _ _ _ EP)).
    rewrite Hgs, list_remove_head. rewrite run_bind. simpl.
    intros E1. apply removeMember_store in E1 as (_ & Hp & _). by left. }
  destruct r as [[]|e].
  - intros [= <-]. destruct Hw1 as [?|(e & ? & _)]; done.
  - destruct (is_NotInGroupError e) eqn:Ee; [|done].
    intros [= <-]. destruct Hw1 as [?|(e' & [= <-] & ?)]; [done | congruence].
Qed.

Lemma detached_loop self todo w P w' :
  participant_objs w !! self = Some P →
  Participant.groups P = todo →
  for_each todo (detached_leave self) w = (Return tt, w') →
  participant_objs w' =
    (<[self := Participant.with_groups [] P]> (participant_objs w)).
Proof.
  revert w P. induction todo as [|g rest IH]; intros w P EP Hgs; simpl.
  - intros [= <-]. rewrite list_insert_id; [done|].
    rewrite EP. f_equal. destruct P; simpl in *. by subst.
  - rewrite run_bind.
    destruct (detached_leave self g w) as [[[]|e] w1] eqn:E1; [|done].
    apply (detached_leave_head _ _ _ _ _ _ EP Hgs) in E1.
    intros E2.
    apply (IH w1 (Participant.with_groups rest P)) in E2; [|rewrite E1|done].
    + rewrite E2, E1. simpl. by rewrite list_insert_insert_eq.
    + apply list_lookup_insert_eq. by eapply lookup_lt_Some.
Qed.

(** ** What exactly reaches a live client *)

Lemma invoke_delivered c what w :
  ∃ d, invoke c what w = (Return d, delivered c what w).
Proof. unfold delivered, invoke. destruct c; eauto. Qed.

Lemma delivered_same_store c what w : same_store w (delivered c what w).
Proof. unfold delivered, invoke. by destruct c. Qed.

Lemma delivered_sent c what w :
  sent (delivered c what w) = sent w ++ [(c, what)].
Proof. unfold delivered, invoke. by destruct c. Qed.

Lemma delivered_all_same_store calls w : same_store w (delivered_all calls w).
Proof.
  revert w. induction calls as [|x calls IH]; intros w; simpl.
  - apply same_store_refl.
  - eapply same_store_trans; [apply delivered_same_store | apply IH].
Qed.

Lemma delivered_all_sent calls w :
  sent (delivered_all calls w) = sent w ++ calls.
Proof.
  revert w. induction calls as [|[c what] calls IH]; intros w; simpl.
  - by rewrite app_nil_r.
  - rewrite IH, delivered_sent. by rewrite <- app_assoc.
Qed.

Lemma delivered_all_app calls calls' w :
  delivered_all (calls ++ calls') w = delivered_all calls' (delivered_all calls w).
Proof. apply foldl_app. Qed.

Lemma map_each_names refs w :
  Forall (λ m, is_Some (participant_objs w !! m)) refs →
  map_each (λ m, M ← get_participant m; ret (Participant.name M)) refs w =
    (Return (names_of w refs), w).
Proof.
  induction 1 as [|m refs [M EM] _ IH]; [done|]. cbn [map_each].
  rewrite !run_bind, (run_get_participant _ _ _ EM). py_step.
  rewrite run_bind, IH. unfold names_of. simpl. by rewrite EM.
Qed.

(** ** getGroupMembers *)

Lemma getGroupMembers_loop self P groupName w0 gs w :
  linked w0 → same_store w0 w →
  participant_objs w0 !! self = Some P →
  live_session (Participant.client P) = true →
  Forall (λ g, is_Some (group_objs w0 !! g)) gs →
  for_each gs (getGroupMembers_body self groupName) w =
    (Return tt,
     delivered_all
       (groupMembers_calls w0 (Participant.client P) groupName gs) w).
Proof.
  intros Hl Hsame EP Hlive Hgs. revert w Hsame.
  induction Hgs as [|g gs [G EG] _ IH]; intros w Hsame; simpl; [done|].
  destruct Hsame as (Hs & Hp & Hg).
  assert (group_objs w !! g = Some G) as EG' by by rewrite Hg.
  assert (participant_objs w !! self = Some P) as EP' by by rewrite Hp.
  rewrite run_bind. unfold getGroupMembers_body at 1.
  rewrite (run_bind_return _ _ _ _ _ (run_get_group _ _ _ EG')).
  rewrite EG. destruct (String.eqb (Group.name G) groupName); simpl.
  2:{ apply IH. by repeat split. }
  rewrite (run_bind_return _ _ _ _ _ (run_get_participant _ _ _ EP')).
  rewrite (run_bind_return _ _ _ _ _ (getattr_client_live _ _ _ Hlive)).
  rewrite (run_bind_return _ _ _ _ _ (run_get_group _ _ _ EG')).
  rewrite (run_bind_return _ _ _ (names_of w0 (Group.members G)) w).
  2:{ assert (names_of w0 (Group.members G) = names_of w (Group.members G))
        as -> by (unfold names_of; by rewrite Hp).
      apply map_each_names, Forall_forall. intros m Hm. rewrite Hp.
      by eapply linked_member_allocated. }
  destruct (invoke_delivered (Participant.client P)
              (WCI.receiveGroupMembers (names_of w0 (Group.members G))
                                       (Group.name G)) w) as [d Ed].
  rewrite (run_bind_return _ _ _ _ _ Ed). simpl.
  apply IH. eapply same_store_trans; [|apply delivered_same_store].
  by repeat split.
Qed.

Lemma getGroupMembers_no_match self groupName gs w :
  Forall (λ g, ∃ G, group_objs w !! g = Some G ∧ Group.name G ≠ groupName) gs →
  for_each gs (getGroupMembers_body self groupName) w = (Return tt, w).
Proof.
  induction 1 as [|g gs (G & EG & Hne) _ IH]; simpl; [done|].
  rewrite run_bind. unfold getGroupMembers_body at 1.
  rewrite (run_bind_return _ _ _ _ _ (run_get_group _ _ _ EG)).
  apply String.eqb_neq in Hne. rewrite Hne. py_step. apply IH.
Qed.

(** ** memberJoined and memberLeft *)

Lemma memberJoined_notice :
  memberJoined = member_notice "memberJoined" WCI.memberJoined.
Proof. reflexivity. Qed.

Lemma memberLeft_notice :
  memberLeft = member_notice "memberLeft" WCI.memberLeft.
Proof. reflexivity. Qed.

Section Notices.
Variables (attr : string) (what : string → string → WCI.call).

Lemma member_notice_Return m p g w w' :
  member_notice attr what m p g w = (Return tt, w') →
  has_live_client w m ∧ same_store w w'.
Proof.
  unfold member_notice. rewrite run_bind. unfold get_participant at 1.
  destruct (participant_objs w !! m) as [M|] eqn:EM; [|done]. py_step.
  rewrite run_bind.
  destruct (getattr_client _ _ w) as [[c|e] w1] eqn:Ec; [|done].
  apply getattr_client_Return in Ec as (-> & -> & Hlive). py_step.
  intros E. split; [by exists M|]. revert E.
  apply quiet_run. intros I HI.
  preserves_auto. apply preserves_invoke, _.
Qed.

Lemma member_notice_live m M p Pp g G w :
  participant_objs w !! m = Some M →
  live_session (Participant.client M) = true →
  participant_objs w !! p = Some Pp →
  group_objs w !! g = Some G →
  member_notice attr what m p g w =
    (Return tt,
     delivered (Participant.client M)
               (what (Participant.name Pp) (Group.name G)) w).
Proof.
  intros EM Hlive EP EG. unfold member_notice.
  rewrite (run_bind_return _ _ _ _ _ (run_get_participant _ _ _ EM)).
  rewrite (run_bind_return _ _ _ _ _ (getattr_client_live _ _ _ Hlive)).
  rewrite (run_bind_return _ _ _ _ _ (run_get_participant _ _ _ EP)).
  rewrite (run_bind_return _ _ _ _ _ (run_get_group _ _ _ EG)).
  destruct (invoke_delivered (Participant.client M)
              (what (Participant.name Pp) (Group.name G)) w) as [d Ed].
  by rewrite (run_bind_return _ _ _ _ _ Ed).
Qed.

Lemma member_notice_not_live m M p g w :
  participant_objs w !! m = Some M →
  live_session (Participant.client M) = false →
  member_notice attr what m p g w = (Raise (AttributeError attr), w).
Proof.
  intros EM Hdead. unfold member_notice.
  rewrite (run_bind_return _ _ _ _ _ (run_get_participant _ _ _ EM)).
  by rewrite (run_bind_raise _ _ _ _ _
                (getattr_client_not_live _ _ _ Hdead)).
Qed.

(** The loop returns only if every member it went through has a live
    client. *)
Lemma notice_loop_Return p g ms w w' :
  for_each ms (λ m, member_notice attr what m p g) w = (Return tt, w') →
  ∀ m, m ∈ ms → has_live_client w m.
Proof.
  revert w. induction ms as [|m0 ms IH]; intros w; simpl.
  - intros _ m Hm. by apply elem_of_nil in Hm.
  - rewrite run_bind.
    destruct (member_notice attr what m0 p g w) as [[[]|e] w1] eqn:E0;
      [|done].
    apply member_notice_Return in E0 as [H0 (_ & Hp & _)].
    intros E m [->|Hm]%elem_of_cons; [done|].
    destruct (IH _ E m Hm) as (M & EM & Hlive). exists M.
    by rewrite <- Hp.
Qed.

(** The loop stops at the first member without a live client, after the
    members before it have been told. *)
Lemma notice_loop_fails p Pp g G pre m M post w0 w :
  same_store w0 w →
  participant_objs w0 !! p = Some Pp →
  group_objs w !! g = Some G →
  (∀ x, x ∈ pre → has_live_client w0 x) →
  participant_objs w0 !! m = Some M →
  live_session (Participant.client M) = false →
  for_each (pre ++ m :: post) (λ m, member_notice attr what m p g) w =
    (Raise (AttributeError attr),
     delivered_all
       (map (λ x, (client_of w0 x,
                   what (Participant.name Pp) (Group.name G))) pre) w).
Proof.
  intros Hsame EP EG Hpre EM Hdead. revert w Hsame EG.
  induction pre as [|x pre IH]; intros w (Hs & Hp & Hg) EG; simpl.
  - rewrite run_bind. rewrite (member_notice_not_live m M); try done.
    by rewrite Hp.
  - destruct (Hpre x) as (X & EX & Hlive); [by left|].
    rewrite run_bind.
    rewrite (member_notice_live x X p Pp g G); try done; try by rewrite Hp.
    py_step.
    assert (client_of w0 x = Participant.client X) as ->
      by (unfold client_of; by rewrite EX).
    pose proof (delivered_same_store (Participant.client X)
                  (what (Participant.name Pp) (Group.name G)) w)
      as (Hs1 & Hp1 & Hg1).
    apply IH.
    + intros y Hy. apply Hpre. by right.
    + repeat split; congruence.
    + by rewrite Hg1.
Qed.
End Notices.

(** The loop of an unguarded notification when every member has a live
    client. *)
Lemma notice_loop_all_live attr what p Pp g G ms w0 w :
  same_store w0 w →
  participant_objs w0 !! p = Some Pp →
  group_objs w !! g = Some G →
  (∀ x, x ∈ ms → has_live_client w0 x) →
  for_each ms (λ m, member_notice attr what m p g) w =
    (Return tt,
     delivered_all
       (map (λ x, (client_of w0 x,
                   what (Participant.name Pp) (Group.name G))) ms) w).
Proof.
  intros Hsame EP EG Hms. revert w Hsame EG.
  induction ms as [|x ms IH]; intros w (Hs & Hp & Hg) EG; simpl; [done|].
  destruct (Hms x) as (X & EX & Hlive); [by left|].
  rewrite run_bind.
  rewrite (member_notice_live attr what x X p Pp g G); try done;
    try by rewrite Hp.
  py_step.
  assert (client_of w0 x = Participant.client X) as ->
    by (unfold client_of; by rewrite EX).
  pose proof (delivered_same_store (Participant.client X)
                (what (Participant.name Pp) (Group.name G)) w)
    as (Hs1 & Hp1 & Hg1).
  apply IH.
  - intros y Hy. apply Hms. by right.
  - repeat split; congruence.
  - by rewrite Hg1.
Qed.

(** ** The metadata fallback *)

Lemma call_method_direct_arity self args :
  length args ≠ 3 →
  call_method m_receiveDirectMessage self args = raise TypeError.
Proof. by do 4 (destruct args as [|? args]; simpl; try done). Qed.

Lemma call_method_group_arity self args :
  length args ≠ 4 →
  call_method m_receiveGroupMessage self args = raise TypeError.
Proof. by do 5 (destruct args as [|? args]; simpl; try done). Qed.

Lemma run_errbacks_single eb supplied w e w' :
  call_method (eb_method eb) (eb_self eb) (supplied ++ eb_args eb) w
    = (Raise e, w') →
  run_errbacks [eb] supplied w = (Return [Raise e], w').
Proof. intros E. cbn [run_errbacks]. by rewrite E. Qed.

(** ** getGroupMembers without a live client *)

(** The loop stops at the first group of the name: the push raises. *)
Lemma getGroupMembers_not_live self P groupName gs w :
  participant_objs w !! self = Some P →
  live_session (Participant.client P) = false →
  Forall (λ g, is_Some (group_objs w !! g)) gs →
  (∃ g G, g ∈ gs ∧ group_objs w !! g = Some G ∧ Group.name G = groupName) →
  for_each gs (getGroupMembers_body self groupName) w =
    (Raise (AttributeError "receiveGroupMembers"), w).
Proof.
  intros EP Hdead Hall.
  induction Hall as [|g gs [G EG] _ IH];
    intros (g' & G' & Hin & EG' & Hname).
  { by apply elem_of_nil in Hin. }
  simpl. destruct (String.eqb (Group.name G) groupName) eqn:Heq.
  - apply run_bind_raise. unfold getGroupMembers_body.
    rewrite (run_bind_return _ _ _ _ _ (run_get_group _ _ _ EG)).
    rewrite Heq.
    rewrite (run_bind_return _ _ _ _ _ (run_get_participant _ _ _ EP)).
    by rewrite (run_bind_raise _ _ _ _ _
                  (getattr_client_not_live _ _ _ Hdead)).
  - rewrite (run_bind_return _ _ _ tt w).
    2:{ unfold getGroupMembers_body.
        rewrite (run_bind_return _ _ _ _ _ (run_get_group _ _ _ EG)).
        by rewrite Heq. }
    apply IH. exists g', G'. split_and!; try done.
    apply elem_of_cons in Hin as [->|Hin]; [|done].
    rewrite EG in EG'. injection EG' as <-.
    apply String.eqb_neq in Heq. done.
Qed.

(** ** detached: what an aborted cleanup leaves *)

Global Instance client_cleared_ignores_wire self :
  IgnoresWire (client_cleared self).
Proof. by split. Qed.

Lemma cleared_put_participant self p P' w :
  client_cleared self w →
  (p = self → Participant.client P' = NoClient) →
  client_cleared self (put_participant p P' w).2.
Proof.
  intros (P & EP & Hc) HP'. unfold client_cleared. simpl.
  destruct (decide (p = self)) as [->|Hne].
  - exists P'. split; [|by apply HP'].
    apply list_lookup_insert_eq. by eapply lookup_lt_Some.
  - exists P. by rewrite list_lookup_insert_ne.
Qed.

Lemma cleared_update_participant self p f :
  (∀ P, Participant.client (f P) = Participant.client P) →
  preserves (client_cleared self) (update_participant p f).
Proof.
  intros Hf w H. unfold update_participant. rewrite run_bind.
  unfold get_participant.
  destruct (participant_objs w !! p) as [P0|] eqn:E0; [|done].
  apply cleared_put_participant; [done|]. intros ->.
  destruct H as (P & EP & Hc). rewrite Hf. congruence.
Qed.

Lemma cleared_changeStatus self p newStatus :
  preserves (client_cleared self) (changeStatus p newStatus).
Proof.
  unfold changeStatus.
  apply preserves_bind; [by apply cleared_update_participant; intros []|].
  intros _. apply preserves_bind; [apply preserves_get_participant|].
  intros P. apply preserves_for_each. intros c.
  apply preserves_notifyStatusChanged, _.
Qed.

Lemma cleared_removeMember self g p :
  preserves (client_cleared self) (removeMember g p).
Proof.
  intros w H. unfold removeMember. rewrite run_bind. unfold get_group.
  destruct (group_objs w !! g) as [G|] eqn:E; [|done]. py_step.
  destruct (list_remove p (Group.members G)) as [rest|].
  - rewrite run_bind. unfold put_group at 1. py_step.
    apply preserves_for_each; [|done]. intros m.
    apply preserves_memberLeft, _.
  - rewrite run_bind. unfold get_participant.
    by destruct (participant_objs w !! p).
Qed.

Lemma cleared_leaveGroup_scan self p name todo :
  preserves (client_cleared self) (leaveGroup_scan p name todo).
Proof.
  induction todo as [|g todo IH]; intros w H; simpl; [done|].
  rewrite run_bind. unfold get_group at 1.
  destruct (group_objs w !! g) as [G|]; [|done]. py_step.
  destruct (String.eqb (Group.name G) name); [|by apply IH].
  rewrite run_bind. unfold get_participant at 1.
  destruct (participant_objs w !! p) as [P|] eqn:EP; [|done]. py_step.
  destruct (list_remove g (Participant.groups P)) as [gs|]; [|done].
  rewrite run_bind.
  assert (p = self → Participant.client (Participant.with_groups gs P)
                     = NoClient) as Hc.
  { intros ->. destruct H as (P0 & EP0 & Hc). simpl. congruence. }
  pose proof (cleared_put_participant self p (Participant.with_groups gs P)
                w H Hc) as H1.
  destruct (put_participant p _ w) as [[[]|e] w1]; [|done]. simpl in H1.
  by apply cleared_removeMember.
Qed.

Lemma cleared_detached_leave self g :
  preserves (client_cleared self) (detached_leave self g).
Proof.
  unfold detached_leave.
  apply preserves_try_except; [|apply preserves_ret].
  apply preserves_bind; [apply preserves_get_group|]. intros G.
  unfold leaveGroup.
  apply preserves_bind; [apply preserves_get_participant|]. intros P.
  apply cleared_leaveGroup_scan.
Qed.

(** [detached] clears the client first, and nothing it does afterwards
    brings one back. *)
Lemma detached_clears_client self client identity w P :
  participant_objs w !! self = Some P →
  client_cleared self (detached self client identity w).2.
Proof.
  intros EP. unfold detached.
  rewrite (run_bind_return _ _ _ _ _ (run_update_participant _ _ _ _ EP)).
  set (w1 := with_participant_objs _ w).
  assert (client_cleared self w1) as H1.
  { exists (Participant.with_client NoClient P). split; [|done].
    apply list_lookup_insert_eq. by eapply lookup_lt_Some. }
  revert H1. generalize w1.
  change (preserves (client_cleared self)
            (P ← get_participant self;
             for_each (Participant.groups P) (detached_leave self);;
             changeStatus self OFFLINE)).
  apply preserves_bind; [apply preserves_get_participant|]. intros P1.
  apply preserves_bind; [|intros _; apply cleared_changeStatus].
  apply preserves_for_each. intros g. apply cleared_detached_leave.
Qed.

(** Every member of a list is allocated: either all have a live client, or
    there is a first one that has none. *)
Lemma live_or_first_dead w ms :
  (∀ x, x ∈ ms → is_Some (participant_objs w !! x)) →
  (∀ x, x ∈ ms → has_live_client w x) ∨
  (∃ pre m M post,
     ms = pre ++ m :: post ∧
     (∀ x, x ∈ pre → has_live_client w x) ∧
     participant_objs w !! m = Some M ∧
     live_session (Participant.client M) = false).
Proof.
  induction ms as [|x ms IH]; intros Hall.
  { left. intros x Hx. by apply elem_of_nil in Hx. }
  destruct (Hall x) as [X EX]; [by left|].
  destruct (live_session (Participant.client X)) eqn:Hlive.
  - destruct IH as [Hms|(pre & m & M & post & -> & Hpre & EM & Hdead)].
    + intros y Hy. apply Hall. by right.
    + left. intros y [->|Hy]%elem_of_cons; [by exists X | by apply Hms].
    + right. exists (x :: pre), m, M, post. split_and!; try done.
      intros y [->|Hy]%elem_of_cons; [by exists X | by apply Hpre].
  - right. exists [], x, X, ms. split_and!; try done.
    intros y Hy. by apply elem_of_nil in Hy.
Qed.

(** One pass of the cleanup loop at the head of [self.groups]: the group is
    dropped on both sides, then the remaining members are told. *)
Lemma detached_leave_run self g rest_g w P G rest_m :
  participant_objs w !! self = Some P →
  Participant.groups P = g :: rest_g →
  group_objs w !! g = Some G →
  list_remove self (Group.members G) = Some rest_m →
  (G ← get_group g; leaveGroup self (Group.name G)) w =
    for_each rest_m
      (λ m, member_notice "memberLeft" WCI.memberLeft m self g)
      (with_group_objs
         (<[g := Group.with_members rest_m G]> (group_objs w))
         (with_participant_objs
            (<[self := Participant.with_groups rest_g P]>
               (participant_objs w)) w)).
Proof.
  intros EP Hgs EG Hms.
  rewrite (run_bind_return _ _ _ _ _ (run_get_group _ _ _ EG)).
  unfold leaveGroup.
  rewrite (run_bind_return _ _ _ _ _ (run_get_participant _ _ _ EP)).
  rewrite Hgs. simpl.
  rewrite (run_bind_return _ _ _ _ _ (run_get_group _ _ _ EG)).
  rewrite String.eqb_refl.
  rewrite (run_bind_return _ _ _ _ _ (run_get_participant _ _ _ EP)).
  rewrite Hgs, list_remove_head. rewrite run_bind.
  unfold put_participant at 1. py_step.
  unfold removeMember. rewrite run_bind. unfold get_group at 1. simpl.
  rewrite EG. py_step. rewrite Hms. rewrite run_bind.
  unfold put_group at 1. py_step. by rewrite memberLeft_notice.
Qed.

(** The cleanup loop of [detached] aborts as soon as a group it leaves has
    another member without a live client; the status is then what it was. *)
Lemma detached_loop_aborts self todo :
  ∀ w P,
    linked w →
    participant_objs w !! self = Some P →
    Participant.groups P = todo →
    (∃ g G m M,
       g ∈ todo ∧ group_objs w !! g = Some G ∧
       m ∈ Group.members G ∧ m ≠ self ∧
       participant_objs w !! m = Some M ∧
       live_session (Participant.client M) = false) →
    ∃ w' P',
      for_each todo (detached_leave self) w =
        (Raise (AttributeError "memberLeft"), w') ∧
      participant_objs w' !! self = Some P' ∧
      Participant.status P' = Participant.status P ∧
      Participant.client P' = Participant.client P.
Proof.
  induction todo as [|g rest_g IH];
    intros w P Hl EP Hgs (g' & G' & m & M & Hin & EG' & Hm & Hne & EM & Hdead).
  { by apply elem_of_nil in Hin. }
  destruct (linked_group_allocated w self P g Hl EP) as [G EG].
  { rewrite Hgs. by left. }
  assert (self ∈ Group.members G) as Hself.
  { apply occurrences_pos.
    pose proof (linked_groups _ Hl self g) as Hocc.
    unfold groups_of, members_of in Hocc.
    rewrite (list_field_lookup _ _ _ _ EP), (list_field_lookup _ _ _ _ EG)
      in Hocc. rewrite <- Hocc, Hgs. simpl. rewrite decide_True by done. lia. }
  destruct (list_remove self (Group.members G)) as [rest_m|] eqn:Hms.
  2:{ by apply list_remove_None in Hms. }
  set (P1 := Participant.with_groups rest_g P).
  set (G1 := Group.with_members rest_m G).
  set (w2 := with_group_objs (<[g := G1]> (group_objs w))
               (with_participant_objs (<[self := P1]> (participant_objs w))
                                      w)).
  pose proof (detached_leave_run self g rest_g w P G rest_m EP Hgs EG Hms)
    as Hrun. fold P1 G1 w2 in Hrun.
  assert (participant_objs w2 !! self = Some P1) as EP2.
  { simpl. apply list_lookup_insert_eq. by eapply lookup_lt_Some. }
  assert (group_objs w2 !! g = Some G1) as EG2.
  { simpl. apply list_lookup_insert_eq. by eapply lookup_lt_Some. }
  assert (∀ x X, x ≠ self → participant_objs w !! x = Some X →
                 participant_objs w2 !! x = Some X) as Hother.
  { intros x X Hx EX. simpl. by rewrite list_lookup_insert_ne. }
  assert (∀ x, x ∈ rest_m → is_Some (participant_objs w2 !! x)) as Hall.
  { intros x Hx. destruct (decide (x = self)) as [->|Hx']; [by eexists|].
    destruct (linked_member_allocated w g G x Hl EG) as [X EX].
    - apply occurrences_pos. apply occurrences_pos in Hx.
      rewrite (list_remove_occurrences _ _ _ x Hms). lia.
    - exists X. by apply Hother. }
  simpl for_each.
  destruct (live_or_first_dead w2 rest_m Hall)
    as [Hlive|(pre & d & D & post & -> & Hpre & ED & HD)].
  - (* this group is left; the trouble is further on *)
    pose proof (notice_loop_all_live "memberLeft" WCI.memberLeft self P1 g G1
                  rest_m w2 w2 (same_store_refl w2) EP2 EG2 Hlive) as Hloop.
    set (calls := map _ rest_m) in Hloop.
    assert (detached_leave self g w = (Return tt, delivered_all calls w2))
      as Hstep.
    { unfold detached_leave, try_except. by rewrite Hrun, Hloop. }
    rewrite (run_bind_return _ _ _ _ _ Hstep).
    pose proof (delivered_all_same_store calls w2) as (Hs3 & Hp3 & Hg3).
    assert (linked (delivered_all calls w2)) as Hl3.
    { assert (preserves linked (detached_leave self g)) as Hpres.
      { unfold detached_leave.
        apply preserves_try_except; [|apply preserves_ret].
        apply preserves_bind; [apply preserves_get_group|].
        intros G0. apply linked_leaveGroup. }
      specialize (Hpres w Hl). by rewrite Hstep in Hpres. }
    assert (g' ≠ g) as Hg'.
    { intros ->. rewrite EG in EG'. injection EG' as <-.
      assert (m ∈ rest_m) as Hmr.
      { apply occurrences_pos. apply occurrences_pos in Hm.
        rewrite (list_remove_occurrences _ _ _ m Hms) in Hm.
        rewrite decide_False in Hm by done. lia. }
      destruct (Hlive m Hmr) as (M' & EM' & HM').
      rewrite (Hother m M Hne EM) in EM'. injection EM' as <-. congruence. }
    destruct (IH (delivered_all calls w2) P1 Hl3)
      as (w' & P' & E & EP' & Hst & Hcl).
    + by rewrite Hp3.
    + done.
    + exists g', G', m, M. split_and!; try done.
      * apply elem_of_cons in Hin as [->|Hin]; done.
      * rewrite Hg3. simpl. by rewrite list_lookup_insert_ne.
      * rewrite Hp3. by apply Hother.
    + exists w', P'. by split_and!.
  - (* a member of this group has no live client *)
    pose proof (notice_loop_fails "memberLeft" WCI.memberLeft self P1 g G1
                  pre d D post w2 w2 (same_store_refl w2) EP2 EG2 Hpre ED HD)
      as Hloop.
    set (calls := map _ pre) in Hloop.
    assert (detached_leave self g w =
              (Raise (AttributeError "memberLeft"), delivered_all calls w2))
      as Hstep.
    { unfold detached_leave, try_except. by rewrite Hrun, Hloop. }
    rewrite (run_bind_raise _ _ _ _ _ Hstep).
    pose proof (delivered_all_same_store calls w2) as (Hs3 & Hp3 & Hg3).
    exists (delivered_all calls w2), P1. split_and!; try done.
    by rewrite Hp3.
Qed.

(** * The claims *)

(** C1, as the code has it.  A participant with a remote client is sent a
    message with non-empty metadata.  The first push goes out with the
    metadata, and the errback registered on its Deferred is the method itself
    with the extra arguments [sender.name, message, None] (direct) or
    [sender, group, message, None] (group).  When the Deferred fails, the
    retry never reaches the client.  For a direct message that is so whatever
    the Deferred passes ahead of the registered arguments: with anything
    passed (Twisted passes the failure) the call has too many arguments and
    raises TypeError, and with nothing passed the method takes the name, a
    string, for the sender and raises AttributeError on [sender.name].  For a
    group message the failure that Twisted passes makes it a TypeError as
    well.  In each case nothing more is sent. *)
Theorem metadata_retry_never_reaches_client
    (w : World) (self : pid) (P : Participant.t) (c : nat)
    (s : pid) (S : Participant.t) (g : gid) (G : Group.t)
    (message metadata : pyval) :
  participant_objs w !! self = Some P →
  Participant.client P = Remote c →
  participant_objs w !! s = Some S →
  group_objs w !! g = Some G →
  s ≠ self →
  truthy metadata = true →
  (∃ w1,
     receiveDirectMessage self (PParticipant s) message metadata w =
       (Return tt, w1) ∧
     sent w1 =
       sent w ++ [(Remote c,
                   WCI.receiveDirectMessage (Participant.name S) message
                                            (Some metadata))] ∧
     deferreds w1 !! length (deferreds w) =
       Some [mk_errback self m_receiveDirectMessage
                        [PStr (Participant.name S); message; PNone]] ∧
     ∀ supplied, ∃ w2,
       fail_deferred (length (deferreds w)) supplied w1 =
         (Return [Raise (match supplied with
                         | [] => AttributeError "name"
                         | _ => TypeError
                         end)], w2) ∧
       sent w2 = sent w1) ∧
  (∃ w1,
     receiveGroupMessage self (PParticipant s) (PGroup g) message metadata w =
       (Return tt, w1) ∧
     sent w1 =
       sent w ++ [(Remote c,
                   WCI.receiveGroupMessage (Participant.name S) (Group.name G)
                                           message (Some metadata))] ∧
     deferreds w1 !! length (deferreds w) =
       Some [mk_errback self m_receiveGroupMessage
                        [PParticipant s; PGroup g; message; PNone]] ∧
     ∀ why, ∃ w2,
       fail_deferred (length (deferreds w)) (twisted_supplies why) w1 =
         (Return [Raise TypeError], w2) ∧
       sent w2 = sent w1).
Proof.
  intros EP Hc ES EG Hne Hmd. split.
  - eexists. split; [|split; [|split]].
    + unfold receiveDirectMessage, getattr_name, addErrback, invoke. py_run.
      rewrite EP, Hc. simpl. rewrite Hmd, ES. simpl. rewrite ES. simpl.
      rewrite lookup_app_r, Nat.sub_diag by done. simpl. reflexivity.
    + reflexivity.
    + simpl. apply list_lookup_insert_eq. rewrite length_app. simpl. lia.
    + intros supplied. unfold fail_deferred. cbn [deferreds with_deferreds].
      rewrite list_lookup_insert_eq by (rewrite length_app; simpl; lia).
      destruct supplied as [|x supplied]; eexists.
      * split;
          [apply run_errbacks_single; cbn [eb_method eb_self eb_args]; simpl;
           unfold receiveDirectMessage, getattr_name; py_run;
           rewrite EP, Hc; simpl; reflexivity
          |reflexivity].
      * split;
          [apply run_errbacks_single; cbn [eb_method eb_self eb_args];
           rewrite call_method_direct_arity
             by (simpl; rewrite length_app; simpl; lia);
           reflexivity
          |reflexivity].
  - eexists. split; [|split; [|split]].
    + unfold receiveGroupMessage, getattr_name, addErrback, invoke. py_run.
      rewrite EP, Hc. simpl. rewrite bool_decide_eq_false_2 by done. simpl.
      rewrite Hmd, ES, EG. simpl.
      rewrite lookup_app_r, Nat.sub_diag by done. simpl. reflexivity.
    + reflexivity.
    + simpl. apply list_lookup_insert_eq. rewrite length_app. simpl. lia.
    + intros why. unfold fail_deferred. cbn [deferreds with_deferreds].
      rewrite list_lookup_insert_eq by (rewrite length_app; simpl; lia).
      eexists.
      split; [apply run_errbacks_single; reflexivity | reflexivity].
Qed.

Lemma metadata_retry_never_reaches_client_witness :
  let w := run [CreateParticipant "alice"; CreateParticipant "bob";
                Attached 0 (Remote 7); Attached 1 (Remote 8);
                JoinGroup 0 "lobby"; JoinGroup 1 "lobby"] boot in
  let emote := PDict {[ "style" := "emote" ]} in
  ∃ w1,
    directMessage 0 "bob" (PStr "hi") emote w = (Return tt, w1) ∧
    sent w1 =
      sent w ++ [(Remote 8,
                  WCI.receiveDirectMessage "alice" (PStr "hi") (Some emote))] ∧
    ∃ w2,
      fail_deferred (length (deferreds w)) (twisted_supplies "no metadata") w1
        = (Return [Raise TypeError], w2) ∧
      sent w2 = sent w1.
Proof.
  intros w emote.
  destruct (metadata_retry_never_reaches_client w 1
              (Participant.mk "bob" ONLINE [] [] [0] (Remote 8) "") 8
              0 (Participant.mk "alice" ONLINE [] [] [0] (Remote 7) "")
              0 (Group.with_members [0; 1] (Group.init "lobby"))
              (PStr "hi") emote eq_refl eq_refl eq_refl eq_refl
              ltac:(discriminate) eq_refl)
    as [(w1 & E1 & Hsent & _ & Hfail) _].
  exists w1. split; [exact E1|]. split; [exact Hsent|].
  exact (Hfail (twisted_supplies "no metadata")).
Defined.


(** C2.  After any sequence of requests from a fresh service (any mix of
    createParticipant, addContact and removeContact calls, and every other
    request as well), participant [b] is in [a.contacts] exactly when [a] is
    in [b.reverseContacts].  A removeContact for a name that none of the
    contacts bears raises NotInCollectionError and leaves the world as it
    was, and whenever removeContact raises NotInCollectionError nothing has
    changed. *)
Theorem contacts_reverseContacts_reciprocal
    (rs : list request) (a b : pid) (A B : Participant.t) :
  participant_objs (run rs boot) !! a = Some A →
  participant_objs (run rs boot) !! b = Some B →
  (b ∈ Participant.contacts A ↔ a ∈ Participant.reverseContacts B) ∧
  (∀ contactName,
     (∀ c C, c ∈ Participant.contacts A →
             participant_objs (run rs boot) !! c = Some C →
             Participant.name C ≠ contactName) →
     removeContact a contactName (run rs boot) =
       (Raise (NotInCollectionError
                 ("No such contact '" +:+ contactName +:+ "'.")),
        run rs boot)) ∧
  (∀ contactName msg w',
     removeContact a contactName (run rs boot) =
       (Raise (NotInCollectionError msg), w') →
     w' = run rs boot).
Proof.
  intros EA EB. pose proof (linked_reachable rs) as H. split_and!.
  - pose proof (linked_contacts _ H a b) as Hl.
    unfold contacts_of, reverseContacts_of in Hl.
    rewrite (list_field_lookup _ _ _ _ EA), (list_field_lookup _ _ _ _ EB) in Hl.
    rewrite !occurrences_pos. lia.
  - intros contactName Habsent. unfold removeContact.
    rewrite (run_bind_return _ _ _ _ _ (run_get_participant _ _ _ EA)).
    apply removeContact_scan_absent, Forall_forall. intros c Hc.
    destruct (linked_contact_allocated _ _ _ _ H EA Hc) as [C EC]. eauto.
  - intros contactName msg w'. unfold removeContact.
    rewrite (run_bind_return _ _ _ _ _ (run_get_participant _ _ _ EA)).
    apply removeContact_scan_NotInCollection.
Qed.

Lemma contacts_reverseContacts_reciprocal_witness :
  let rs := [CreateParticipant "alice"; CreateParticipant "bob";
             AddContact 0 "bob"; AddContact 0 "bob"; AddContact 1 "alice";
             RemoveContact 0 "bob"; RemoveContact 0 "carol"] in
  ∃ A B,
    participant_objs (run rs boot) !! 0 = Some A ∧
    participant_objs (run rs boot) !! 1 = Some B ∧
    Participant.contacts A = [1] ∧ Participant.reverseContacts B = [0] ∧
    (1 ∈ Participant.contacts A ↔ 0 ∈ Participant.reverseContacts B).
Proof.
  intros rs.
  eexists _, _. split; [reflexivity|]. split; [reflexivity|].
  split; [reflexivity|]. split; [reflexivity|].
  apply (contacts_reverseContacts_reciprocal rs 0 1); reflexivity.
Defined.

(** C3.  After any sequence of requests from a fresh service (joinGroup,
    leaveGroup and detach among them, whether they return or raise), group
    [g] is in [p.groups] exactly when [p] is in [g.members]. *)
Theorem groups_members_symmetric
    (rs : list request) (p : pid) (g : gid) (P : Participant.t) (G : Group.t) :
  participant_objs (run rs boot) !! p = Some P →
  group_objs (run rs boot) !! g = Some G →
  (g ∈ Participant.groups P ↔ p ∈ Group.members G).
Proof.
  intros EP EG. pose proof (linked_groups _ (linked_reachable rs) p g) as Hl.
  unfold groups_of, members_of in Hl.
  rewrite (list_field_lookup _ _ _ _ EP), (list_field_lookup _ _ _ _ EG) in Hl.
  rewrite !occurrences_pos. lia.
Qed.

Lemma groups_members_symmetric_witness :
  let rs := [CreateParticipant "alice"; CreateParticipant "bob";
             Attached 0 (Remote 7); JoinGroup 0 "lobby"; JoinGroup 1 "lobby";
             JoinGroup 0 "den"; LeaveGroup 1 "den"; Detached 0] in
  ∃ P G,
    participant_objs (run rs boot) !! 1 = Some P ∧
    group_objs (run rs boot) !! 0 = Some G ∧
    Participant.groups P = [0] ∧ Group.members G = [1] ∧
    (0 ∈ Participant.groups P ↔ 1 ∈ Group.members G).
Proof.
  intros rs.
  eexists _, _. split; [reflexivity|]. split; [reflexivity|].
  split; [reflexivity|]. split; [reflexivity|].
  apply (groups_members_symmetric rs 1 0); reflexivity.
Defined.

(** C4.  attached raises Unauthorized("duplicate login not permitted.")
    exactly when the participant already holds a client that is neither None
    nor the Ephemeral placeholder, and then changes nothing.  When it
    returns, it returns the participant itself, the participant holds the
    new client and is ONLINE, and the new client has been sent the contact
    list, one (name, status) pair per entry of [contacts] in order, ahead of
    whatever the status change sends out. *)
Theorem attached_guards_duplicate_login
    (w : World) (self : pid) (P : Participant.t)
    (client : client_ref) (identity : pyval) :
  participant_objs w !! self = Some P →
  (live_session (Participant.client P) = true →
     attached self client identity w =
       (Raise (Unauthorized "duplicate login not permitted."), w)) ∧
  (live_session (Participant.client P) = false →
     ∀ msg w',
       attached self client identity w ≠ (Raise (Unauthorized msg), w')) ∧
  (∀ r w',
     attached self client identity w = (Return r, w') →
     r = self ∧
     (∃ P', participant_objs w' !! self = Some P' ∧
            Participant.client P' = client ∧
            Participant.status P' = ONLINE) ∧
     ∃ contactList notifications,
       Forall2 (λ c entry,
                  ∃ C, participant_objs w !! c = Some C ∧
                       entry = (Participant.name C, Participant.status C))
               (Participant.contacts P) contactList ∧
       sent w' =
         sent w ++ (client, WCI.receiveContactList contactList)
                   :: notifications).
Proof.
  intros EP. split_and!.
  - intros Hlive. unfold attached.
    rewrite (run_bind_return _ _ _ _ _ (run_get_participant _ _ _ EP)).
    by rewrite Hlive.
  - intros Hlive msg w' E. revert E. unfold attached.
    rewrite (run_bind_return _ _ _ _ _ (run_get_participant _ _ _ EP)).
    rewrite Hlive. intros E.
    assert (raises_only (λ e, ∀ m, e ≠ Unauthorized m)
              (update_participant self (Participant.with_client client);;
               c ← getattr_client client "receiveContactList";
               P ← get_participant self;
               contactList ← map_each
                 (λ contact, C ← get_participant contact;
                             ret (Participant.name C, Participant.status C))
                 (Participant.contacts P);
               invoke c (WCI.receiveContactList contactList);;
               changeStatus self ONLINE;;
               ret self)) as Hr.
    { apply raises_only_bind; [by apply raises_only_update_participant|].
      intros _.
      apply raises_only_bind; [by apply raises_only_getattr_client|].
      intros c.
      apply raises_only_bind; [by apply raises_only_get_participant|].
      intros P1. apply raises_only_bind.
      { apply raises_only_map_each. intros x.
        apply raises_only_bind; [by apply raises_only_get_participant|].
        intros C. apply raises_only_ret. }
      intros l. apply raises_only_bind; [by apply raises_only_invoke|].
      intros _. apply raises_only_bind; [by apply raises_only_changeStatus|].
      intros _. apply raises_only_ret. }
    by apply (Hr _ _ _ E msg).
  - intros r w'. unfold attached.
    rewrite (run_bind_return _ _ _ _ _ (run_get_participant _ _ _ EP)).
    destruct (live_session (Participant.client P)); [done|].
    rewrite (run_bind_return _ _ _ _ _ (run_update_participant _ _ _ _ EP)).
    set (P1 := Participant.with_client client P).
    set (w1 := with_participant_objs _ w).
    assert (participant_objs w1 !! self = Some P1) as EP1.
    { apply list_lookup_insert_eq. by eapply lookup_lt_Some. }
    rewrite run_bind.
    destruct (getattr_client client "receiveContactList" w1)
      as [[c|e] w1'] eqn:Ec; [|done].
    apply getattr_client_Return in Ec as (-> & -> & Hlive).
    rewrite (run_bind_return _ _ _ _ _ (run_get_participant _ _ _ EP1)).
    rewrite run_bind.
    destruct (map_each _ _ w1) as [rl w2] eqn:El.
    apply map_each_get in El as [-> Hl].
    destruct rl as [contactList|e]; [|done].
    specialize (Hl _ eq_refl). rewrite run_bind.
    destruct (invoke_returns client (WCI.receiveContactList contactList) w1)
      as (d & w3 & -> & (Hs3 & Hp3 & Hg3) & Hsent3).
    rewrite run_bind.
    destruct (changeStatus self ONLINE w3) as [r4 w4] eqn:E4.
    pose proof (changeStatus_sent self ONLINE w3) as [more Hsent4].
    rewrite E4 in Hsent4. simpl in Hsent4.
    apply (changeStatus_store _ _ _ P1) in E4 as (Hs4 & Hp4 & Hg4);
      [|by rewrite Hp3].
    destruct r4 as [[]|e]; [|done]. intros [= <- <-]. split_and!; [done| |].
    + exists (Participant.with_status ONLINE P1). split_and!; try done.
      rewrite Hp4. apply list_lookup_insert_eq. rewrite Hp3.
      by eapply lookup_lt_Some.
    + exists contactList, more. split.
      * eapply Forall2_impl; [exact Hl|]. intros c y (C & EC & ->).
        subst w1. simpl in EC.
        destruct (decide (c = self)) as [->|Hne].
        -- rewrite list_lookup_insert_eq in EC by (by eapply lookup_lt_Some).
           injection EC as <-. eauto.
        -- rewrite list_lookup_insert_ne in EC by done. eauto.
      * rewrite Hsent4, Hsent3. subst w1. simpl. by rewrite <- app_assoc.
Qed.

Lemma attached_guards_duplicate_login_witness :
  let w := run [CreateParticipant "alice"; CreateParticipant "bob";
                AddContact 0 "bob"; Attached 1 (Remote 8)] boot in
  let w' := (attached 0 (Remote 7) PNone w).2 in
  (attached 0 (Remote 7) PNone w).1 = Return 0 ∧
  sent w' = sent w ++ [(Remote 7, WCI.receiveContactList [("bob", ONLINE)])] ∧
  attached 0 (Remote 9) PNone w' =
    (Raise (Unauthorized "duplicate login not permitted."), w').
Proof.
  intros w w'. split; [reflexivity|]. split; [reflexivity|].
  refine (proj1 (attached_guards_duplicate_login w' 0 _ (Remote 9) PNone _) _);
    reflexivity.
Defined.

(** C5, as the code has it.  The claim fails when a group that is being
    left has another member without client: memberLeft raises
    AttributeError, which the loop does not catch, so detached does not
    complete; the participant stays ONLINE and in the groups not yet left. *)
Lemma detached_aborted_by_member_without_client :
  let w := run [CreateParticipant "alice"; CreateParticipant "bob";
                Attached 0 (Remote 7); JoinGroup 0 "lobby";
                JoinGroup 0 "den"; JoinGroup 1 "lobby"] boot in
  participant_objs w !! 0 =
    Some (Participant.mk "alice" ONLINE [] [] [0; 1] (Remote 7) "") ∧
  ∃ w',
    detached 0 (Remote 7) PNone w = (Raise (AttributeError "memberLeft"), w') ∧
    participant_objs w' !! 0 =
      Some (Participant.mk "alice" ONLINE [] [] [1] NoClient "").
Proof.
  intros w. split; [reflexivity|].
  exists (detached 0 (Remote 7) PNone w).2. split; reflexivity.
Qed.

(** C5, amended.  detached sets the client to None first: after every call
    on a participant that exists, returned or raised, the client is None.  It
    never lets a NotInGroupError out: one raised while a group is being left
    is caught in the loop.  Whenever it returns, from whatever world it was
    called in, the status is OFFLINE and the groups list is empty.  But it
    does not always return: in a world reached from a fresh service, if a
    group of the participant has another member without a live client,
    detached raises AttributeError from memberLeft, and the status is left
    as it was. *)
Theorem detached_clears_session
    (w : World) (self : pid) (client : client_ref) (identity : pyval) :
  (∀ P, participant_objs w !! self = Some P →
        client_cleared self (detached self client identity w).2) ∧
  (∀ e w', detached self client identity w = (Raise e, w') →
           is_NotInGroupError e = false) ∧
  (∀ w', detached self client identity w = (Return tt, w') →
         ∃ P', participant_objs w' !! self = Some P' ∧
               Participant.client P' = NoClient ∧
               Participant.status P' = OFFLINE ∧
               Participant.groups P' = []) ∧
  (∀ rs P g G m M,
     w = run rs boot →
     participant_objs w !! self = Some P →
     g ∈ Participant.groups P →
     group_objs w !! g = Some G →
     m ∈ Group.members G → m ≠ self →
     participant_objs w !! m = Some M →
     live_session (Participant.client M) = false →
     ∃ w' P',
       detached self client identity w =
         (Raise (AttributeError "memberLeft"), w') ∧
       participant_objs w' !! self = Some P' ∧
       Participant.client P' = NoClient ∧
       Participant.status P' = Participant.status P).
Proof.
  split_and!.
  - intros P EP. by apply (detached_clears_client self client identity w P).
  - assert (raises_only (λ e, is_NotInGroupError e = false)
              (detached self client identity)) as Hr; [|exact (Hr w)].
    unfold detached.
    apply raises_only_bind; [by apply raises_only_update_participant|].
    intros _. apply raises_only_bind; [by apply raises_only_get_participant|].
    intros P. apply raises_only_bind; [|intros _].
    + apply raises_only_for_each. intros g.
      apply raises_only_try_except; [by intros ? ? ? _|].
      apply raises_only_ret.
    + by apply raises_only_changeStatus.
  - intros w'. unfold detached. rewrite run_bind.
    destruct (participant_objs w !! self) as [P|] eqn:EP.
    2:{ unfold update_participant. py_run. by rewrite EP. }
    rewrite (run_update_participant _ _ _ _ EP).
    set (P1 := Participant.with_client NoClient P).
    set (w1 := with_participant_objs _ w).
    assert (participant_objs w1 !! self = Some P1) as EP1.
    { apply list_lookup_insert_eq. by eapply lookup_lt_Some. }
    rewrite (run_bind_return _ _ _ _ _ (run_get_participant _ _ _ EP1)).
    rewrite run_bind.
    destruct (for_each _ _ w1) as [[[]|e] w2] eqn:E2; [|done].
    apply (detached_loop _ _ _ _ _ EP1 eq_refl) in E2.
    intros E3.
    apply (changeStatus_store _ _ _ (Participant.with_groups [] P1)) in E3
      as (_ & Hp3 & _).
    2:{ rewrite E2. apply list_lookup_insert_eq. by eapply lookup_lt_Some. }
    exists (Participant.with_status OFFLINE (Participant.with_groups [] P1)).
    split; [|by subst P1].
    rewrite Hp3. apply list_lookup_insert_eq. rewrite E2, length_insert.
    by eapply lookup_lt_Some.
  - intros rs P g G m M -> EP Hin EG Hm Hne EM Hdead.
    set (w := run rs boot) in *.
    pose proof (linked_reachable rs) as Hl. fold w in Hl.
    unfold detached.
    rewrite (run_bind_return _ _ _ _ _ (run_update_participant _ _ _ _ EP)).
    set (P1 := Participant.with_client NoClient P).
    set (w1 := with_participant_objs _ w).
    assert (participant_objs w1 !! self = Some P1) as EP1.
    { apply list_lookup_insert_eq. by eapply lookup_lt_Some. }
    assert (linked w1) as Hl1.
    { pose proof (linked_update_participant self
                    (Participant.with_client NoClient)
                    ltac:(by intros []) ltac:(by intros [])
                    ltac:(by intros []) w Hl) as H.
      by rewrite (run_update_participant _ _ _ _ EP) in H. }
    rewrite (run_bind_return _ _ _ _ _ (run_get_participant _ _ _ EP1)).
    destruct (detached_loop_aborts self (Participant.groups P1) w1 P1 Hl1 EP1
                eq_refl) as (w' & P' & E & EP' & Hst & Hcl).
    { exists g, G, m, M. split_and!; try done.
      subst w1. simpl. by rewrite list_lookup_insert_ne. }
    exists w', P'. split_and!; try done.
    by apply run_bind_raise.
Qed.

Lemma detached_clears_session_witness :
  let stale :=
    mk_World (Service.mk {[ "alice" := 0 ]} {[ "lobby" := 0 ]})
             [Participant.mk "alice" AWAY [] [] [0] (Remote 7) ""]
             [Group.init "lobby"] [] [] in
  let rs := [CreateParticipant "alice"; CreateParticipant "bob";
             Attached 0 (InProcess 7); JoinGroup 0 "den";
             JoinGroup 1 "den"] in
  leaveGroup 0 "lobby" stale =
    (Raise (NotInGroupError "lobby" (Some "alice")),
     with_participant_objs
       [Participant.mk "alice" AWAY [] [] [] (Remote 7) ""] stale) ∧
  (∃ w' P',
     detached 0 (Remote 7) PNone stale = (Return tt, w') ∧
     participant_objs w' !! 0 = Some P' ∧
     Participant.client P' = NoClient ∧
     Participant.status P' = OFFLINE ∧
     Participant.groups P' = []) ∧
  (∃ w' P',
     detached 0 (InProcess 7) PNone (run rs boot) =
       (Raise (AttributeError "memberLeft"), w') ∧
     participant_objs w' !! 0 = Some P' ∧
     Participant.client P' = NoClient ∧
     Participant.status P' = ONLINE).
Proof.
  intros stale rs. split; [reflexivity|]. split.
  - destruct (detached_clears_session stale 0 (Remote 7) PNone)
      as (_ & _ & H & _).
    destruct (H (detached 0 (Remote 7) PNone stale).2 eq_refl)
      as (P' & HP' & Hc & Hs & Hg).
    by exists (detached 0 (Remote 7) PNone stale).2, P'.
  - destruct (detached_clears_session (run rs boot) 0 (InProcess 7) PNone)
      as (_ & _ & _ & H).
    apply (H rs (Participant.mk "alice" ONLINE [] [] [0] (InProcess 7) "")
             0 (Group.with_members [0; 1] (Group.init "den"))
             1 (Participant.mk "bob" OFFLINE [] [] [0] NoClient "")
             eq_refl eq_refl).
    + by apply list_elem_of_singleton.
    + reflexivity.
    + apply elem_of_cons. right. by apply list_elem_of_singleton.
    + discriminate.
    + reflexivity.
    + reflexivity.
Defined.

(** C6, as the code has it.  The claim fails for a participant that is in
    the group but has no client: the push itself raises. *)
Lemma getGroupMembers_without_client :
  let w := run [CreateParticipant "alice"; JoinGroup 0 "lobby"] boot in
  getGroupMembers 0 "lobby" w =
    (Raise (AttributeError "receiveGroupMembers"), w) ∧
  (getGroupMembers 0 "lobby" w).1 ≠ Raise (NotInGroupError "lobby" None).
Proof. intros w. split; [reflexivity | discriminate]. Qed.

(** C6, amended.  In any world reached from a fresh service, getGroupMembers
    on a participant whose client is live raises NotInGroupError(groupName)
    on every call, after having sent the client the member names of each
    group of that name the participant is in; when the participant is in no
    group of that name it raises NotInGroupError(groupName) with nothing sent
    and nothing changed, whatever its client; and when the participant is in
    a group of that name but has no live client (None, or the placeholder)
    the push itself raises AttributeError, with nothing sent and nothing
    changed. *)
Theorem getGroupMembers_pushes_then_raises
    (rs : list request) (self : pid) (P : Participant.t) (groupName : string) :
  participant_objs (run rs boot) !! self = Some P →
  (live_session (Participant.client P) = true →
     ∃ w',
       getGroupMembers self groupName (run rs boot) =
         (Raise (NotInGroupError groupName None), w') ∧
       same_store (run rs boot) w' ∧
       sent w' =
         sent (run rs boot) ++
         groupMembers_calls (run rs boot) (Participant.client P) groupName
                            (Participant.groups P)) ∧
  ((∀ g G, g ∈ Participant.groups P →
           group_objs (run rs boot) !! g = Some G →
           Group.name G ≠ groupName) →
     getGroupMembers self groupName (run rs boot) =
       (Raise (NotInGroupError groupName None), run rs boot)) ∧
  (∀ g G, g ∈ Participant.groups P →
          group_objs (run rs boot) !! g = Some G →
          Group.name G = groupName →
          live_session (Participant.client P) = false →
          getGroupMembers self groupName (run rs boot) =
            (Raise (AttributeError "receiveGroupMembers"), run rs boot)).
Proof.
  intros EP. pose proof (linked_reachable rs) as Hl.
  assert (Forall (λ g, is_Some (group_objs (run rs boot) !! g))
                 (Participant.groups P)) as Hgs.
  { apply Forall_forall. intros g Hg. by eapply linked_group_allocated. }
  split_and!.
  - intros Hlive. eexists. split; [|split].
    + unfold getGroupMembers.
      rewrite (run_bind_return _ _ _ _ _ (run_get_participant _ _ _ EP)).
      rewrite run_bind.
      change (for_each (Participant.groups P) _)
        with (for_each (Participant.groups P)
                       (getGroupMembers_body self groupName)).
      rewrite (getGroupMembers_loop self P groupName (run rs boot) _ _ Hl
                 (same_store_refl _) EP Hlive Hgs).
      py_step. reflexivity.
    + apply delivered_all_same_store.
    + apply delivered_all_sent.
  - intros Hno. unfold getGroupMembers.
    rewrite (run_bind_return _ _ _ _ _ (run_get_participant _ _ _ EP)).
    rewrite run_bind.
    change (for_each (Participant.groups P) _)
      with (for_each (Participant.groups P)
                     (getGroupMembers_body self groupName)).
    rewrite getGroupMembers_no_match; [done|].
    apply Forall_forall. intros g Hg.
    destruct (proj1 (Forall_forall _ _) Hgs g Hg) as [G EG]. eauto.
  - intros g G Hin EG Hname Hdead. unfold getGroupMembers.
    rewrite (run_bind_return _ _ _ _ _ (run_get_participant _ _ _ EP)).
    apply run_bind_raise.
    change (for_each (Participant.groups P) _)
      with (for_each (Participant.groups P)
                     (getGroupMembers_body self groupName)).
    apply (getGroupMembers_not_live self P); try done.
    by exists g, G.
Qed.

Lemma getGroupMembers_pushes_then_raises_witness :
  let rs := [CreateParticipant "alice"; CreateParticipant "bob";
             Attached 0 (InProcess 7); Attached 1 (InProcess 8);
             JoinGroup 0 "lobby"; JoinGroup 1 "lobby"; Detached 1;
             JoinGroup 1 "lobby"] in
  (∃ w',
     getGroupMembers 0 "lobby" (run rs boot) =
       (Raise (NotInGroupError "lobby" None), w') ∧
     sent w' =
       sent (run rs boot) ++
       [(InProcess 7, WCI.receiveGroupMembers ["alice"; "bob"] "lobby")]) ∧
  getGroupMembers 1 "lobby" (run rs boot) =
    (Raise (AttributeError "receiveGroupMembers"), run rs boot).
Proof.
  intros rs. split.
  - destruct (getGroupMembers_pushes_then_raises rs 0
                (Participant.mk "alice" ONLINE [] [] [0] (InProcess 7) "")
                "lobby" eq_refl) as (H & _ & _).
    destruct (H eq_refl) as (w' & E & _ & Hsent).
    exists w'. split; [exact E | exact Hsent].
  - destruct (getGroupMembers_pushes_then_raises rs 1
                (Participant.mk "bob" OFFLINE [] [] [0] NoClient "")
                "lobby" eq_refl) as (_ & _ & H).
    apply (H 0 (Group.with_members [0; 1] (Group.init "lobby")));
      [by apply list_elem_of_singleton | reflexivity..].
Defined.

(** C7.  With no client attached, receiveDirectMessage raises
    WrongStatusError(status, name) while receiveGroupMessage returns without
    an error and without changing anything; and receiveGroupMessage does
    nothing at all, whatever the client, when the sender is the recipient
    itself. *)
Theorem no_client_direct_raises_group_silent
    (w : World) (self : pid) (P : Participant.t)
    (sender group message metadata : pyval) :
  participant_objs w !! self = Some P →
  (Participant.client P = NoClient →
     receiveDirectMessage self sender message metadata w =
       (Raise (WrongStatusError (Participant.status P) (Participant.name P)),
        w) ∧
     receiveGroupMessage self sender group message metadata w =
       (Return tt, w)) ∧
  receiveGroupMessage self (PParticipant self) group message metadata w =
    (Return tt, w).
Proof.
  intros EP. split; [intros Hc; split|].
  - unfold receiveDirectMessage.
    rewrite (run_bind_return _ _ _ _ _ (run_get_participant _ _ _ EP)).
    by rewrite Hc.
  - unfold receiveGroupMessage.
    rewrite (run_bind_return _ _ _ _ _ (run_get_participant _ _ _ EP)).
    rewrite Hc. simpl. by rewrite andb_false_r.
  - unfold receiveGroupMessage.
    rewrite (run_bind_return _ _ _ _ _ (run_get_participant _ _ _ EP)).
    simpl. by rewrite bool_decide_eq_true_2.
Qed.

Lemma no_client_direct_raises_group_silent_witness :
  let w := run [CreateParticipant "alice"; CreateParticipant "bob";
                ChangeStatus 1 AWAY] boot in
  receiveDirectMessage 1 (PParticipant 0) (PStr "hi") (PDict ∅) w =
    (Raise (WrongStatusError AWAY "bob"), w) ∧
  receiveGroupMessage 1 (PParticipant 0) (PGroup 0) (PStr "hi")
                      (PDict {[ "style" := "emote" ]}) w = (Return tt, w).
Proof.
  intros w.
  destruct (no_client_direct_raises_group_silent w 1
              (Participant.mk "bob" AWAY [] [] [] NoClient "")
              (PParticipant 0) (PGroup 0) (PStr "hi")
              (PDict {[ "style" := "emote" ]}) eq_refl) as [H _].
  destruct (no_client_direct_raises_group_silent w 1
              (Participant.mk "bob" AWAY [] [] [] NoClient "")
              (PParticipant 0) (PGroup 0) (PStr "hi")
              (PDict ∅) eq_refl) as [H' _].
  split; [apply (H' eq_refl) | apply (H eq_refl)].
Defined.

(** C8.  A second joinGroup with the same name, after a first one that
    returned, returns as well and leaves the whole world as the first call
    left it: the participant's groups, the group's members, and what has been
    sent to clients (no join notification, no metadata push). *)
Theorem joinGroup_idempotent (w w1 : World) (self : pid) (name : string) :
  joinGroup self name w = (Return tt, w1) →
  joinGroup self name w1 = (Return tt, w1).
Proof.
  unfold joinGroup at 1. rewrite run_bind.
  destruct (getGroup_returns name w) as (g & w0 & E0 & Hg & _).
  rewrite E0. rewrite run_bind. unfold get_participant at 1.
  destruct (participant_objs w0 !! self) as [P|] eqn:EP; simpl; [|done].
  case_bool_decide as Hin.
  - intros [= <-]. unfold joinGroup.
    rewrite (run_bind_return _ _ _ _ _ (getGroup_known _ _ _ Hg)).
    rewrite (run_bind_return _ _ _ _ _ (run_get_participant _ _ _ EP)).
    by rewrite bool_decide_eq_true_2.
  - rewrite run_bind. destruct (addMember g self w0) as [r wa] eqn:Ea.
    apply addMember_store in Ea as (Hs & Hp & _).
    destruct r as [[]|e]; [|done].
    unfold update_participant. rewrite run_bind. unfold get_participant.
    rewrite Hp, EP. simpl. intros [= <-].
    match goal with |- joinGroup _ _ ?x = _ => set (w1 := x) end.
    assert (group_named name g w1) as Hg1.
    { unfold group_named in *. simpl. by rewrite Hs. }
    assert (participant_objs w1 !! self =
            Some (Participant.with_groups (Participant.groups P ++ [g]) P))
      as EP1.
    { simpl. apply list_lookup_insert_eq. rewrite Hp.
      by eapply lookup_lt_Some. }
    unfold joinGroup.
    rewrite (run_bind_return _ _ _ _ _ (getGroup_known _ _ _ Hg1)).
    rewrite (run_bind_return _ _ _ _ _ (run_get_participant _ _ _ EP1)).
    simpl. rewrite bool_decide_eq_true_2; [done|].
    apply elem_of_app. right. by apply list_elem_of_singleton.
Qed.

Lemma joinGroup_idempotent_witness :
  let w := run [CreateParticipant "alice"; CreateParticipant "bob";
                Attached 0 (Remote 7); Attached 1 (Remote 8);
                JoinGroup 0 "lobby"] boot in
  let w1 := (joinGroup 1 "lobby" w).2 in
  (joinGroup 1 "lobby" w).1 = Return tt ∧
  group_objs w1 !! 0 = Some (Group.with_members [0; 1] (Group.init "lobby")) ∧
  joinGroup 1 "lobby" w1 = (Return tt, w1).
Proof.
  intros w w1. split; [reflexivity|]. split; [reflexivity|].
  apply (joinGroup_idempotent w w1 1 "lobby"). reflexivity.
Defined.

(** C9.  The first getGroup for a name makes a new Group object with that
    name, no members and the metadata {topic: "Welcome to <name>!",
    topic_author: "admin"}; after that, whatever requests the service has
    handled in between, getGroup for the name returns the same object and
    creates nothing. *)
Theorem getGroup_get_or_create (w : World) (name : string) :
  Service.groups (service w) !! name = None →
  ∃ g w',
    getGroup name w = (Return g, w') ∧
    group_objs w !! g = None ∧
    group_objs w' !! g =
      Some (Group.mk name []
              {[ "topic" := "Welcome to " +:+ name +:+ "!";
                 "topic_author" := "admin" ]}) ∧
    ∀ rs, getGroup name (run rs w') = (Return g, run rs w').
Proof.
  intros E. exists (length (group_objs w)). eexists. split_and!.
  - unfold getGroup. rewrite E. reflexivity.
  - by apply lookup_ge_None.
  - simpl. by rewrite lookup_app_r, Nat.sub_diag.
  - intros rs. apply getGroup_known, group_named_run.
    unfold group_named. simpl. by rewrite lookup_insert_eq.
Qed.

Lemma getGroup_get_or_create_witness :
  let w := run [CreateParticipant "alice"; JoinGroup 0 "den"] boot in
  let rs := [CreateParticipant "bob"; JoinGroup 1 "lobby";
             SetMetadata 1 {[ "topic" := "tea" ]}; LeaveGroup 1 "lobby"] in
  ∃ w',
    getGroup "lobby" w = (Return 1, w') ∧
    group_objs w' !! 1 =
      Some (Group.mk "lobby" []
              {[ "topic" := "Welcome to lobby!"; "topic_author" := "admin" ]}) ∧
    getGroup "lobby" (run rs w') = (Return 1, run rs w').
Proof.
  intros w rs.
  destruct (getGroup_get_or_create w "lobby" eq_refl)
    as (g & w' & E1 & _ & E2 & E3).
  exists w'.
  assert (g = 1) as -> by (vm_compute in E1; congruence).
  split; [exact E1|]. split; [exact E2 | exact (E3 rs)].
Defined.

(** C10, as the code has it.  The claim fails where addMember finds the
    participant already among the members: it returns at once, whatever the
    clients of the members. *)
Lemma addMember_again_without_client :
  let w := run [CreateParticipant "alice"; JoinGroup 0 "lobby"] boot in
  members_of w 0 = [0] ∧ client_of w 0 = NoClient ∧
  addMember 0 0 w = (Return tt, w).
Proof. intros w. by split_and!. Qed.

(** C10, amended.  memberJoined and memberLeft call the notified member's
    client without looking whether there is one.  So Group.addMember of a
    participant that is not yet a member returns only if every existing
    member has a live client, and Group.removeMember of a member returns only
    if every remaining member has one; at the first member without a live
    client the loop raises AttributeError, after the members before it have
    been told: addMember then has not added the participant, removeMember
    has already dropped it.  The guarded paths (notifyStatusChanged,
    setGroupMetadata, receiveGroupMessage) return without doing anything for
    a participant whose client is None.  Group.addMember of a participant
    that is already a member returns at once: nobody is notified and nothing
    changes, whatever the clients of the members. *)
Theorem member_notices_need_live_clients
    (w : World) (g : gid) (G : Group.t) (p : pid) (Pp : Participant.t) :
  group_objs w !! g = Some G →
  participant_objs w !! p = Some Pp →
  (p ∉ Group.members G →
     (∀ w', addMember g p w = (Return tt, w') →
            ∀ m, m ∈ Group.members G → has_live_client w m) ∧
     (∀ pre m M post,
        Group.members G = pre ++ m :: post →
        (∀ x, x ∈ pre → has_live_client w x) →
        participant_objs w !! m = Some M →
        live_session (Participant.client M) = false →
        ∃ w',
          addMember g p w = (Raise (AttributeError "memberJoined"), w') ∧
          same_store w w' ∧
          sent w' =
            sent w ++
            map (λ x, (client_of w x,
                       WCI.memberJoined (Participant.name Pp) (Group.name G)))
                pre)) ∧
  (∀ rest,
     list_remove p (Group.members G) = Some rest →
     (∀ w', removeMember g p w = (Return tt, w') →
            ∀ m, m ∈ rest → has_live_client w m) ∧
     (∀ pre m M post,
        rest = pre ++ m :: post →
        (∀ x, x ∈ pre → has_live_client w x) →
        participant_objs w !! m = Some M →
        live_session (Participant.client M) = false →
        ∃ w',
          removeMember g p w = (Raise (AttributeError "memberLeft"), w') ∧
          members_of w' g = rest ∧
          sent w' =
            sent w ++
            map (λ x, (client_of w x,
                       WCI.memberLeft (Participant.name Pp) (Group.name G)))
                pre)) ∧
  (∀ m M dict_ groupName sender group message metadata,
     participant_objs w !! m = Some M →
     Participant.client M = NoClient →
     notifyStatusChanged m p w = (Return tt, w) ∧
     setGroupMetadata m dict_ groupName w = (Return tt, w) ∧
     receiveGroupMessage m sender group message metadata w = (Return tt, w)) ∧
  (p ∈ Group.members G → addMember g p w = (Return tt, w)).
Proof.
  intros EG EP. split_and!.
  - intros Hnew. split.
    + intros w'. unfold addMember.
      rewrite (run_bind_return _ _ _ _ _ (run_get_group _ _ _ EG)).
      rewrite bool_decide_eq_false_2 by done. rewrite run_bind.
      rewrite memberJoined_notice.
      destruct (for_each _ _ w) as [[[]|e] w1] eqn:E1; [|done].
      intros _. by eapply notice_loop_Return.
    + intros pre m M post Hms Hpre EM Hdead. eexists. split; [|split].
      * unfold addMember.
        rewrite (run_bind_return _ _ _ _ _ (run_get_group _ _ _ EG)).
        rewrite bool_decide_eq_false_2 by done.
        rewrite Hms, memberJoined_notice.
        apply run_bind_raise.
        by apply (notice_loop_fails _ _ p Pp g G pre m M post w w
                    (same_store_refl w)).
      * apply delivered_all_same_store.
      * apply delivered_all_sent.
  - intros rest Hrest.
    set (w1 := with_group_objs
                 (<[g := Group.with_members rest G]> (group_objs w)) w).
    assert (group_objs w1 !! g = Some (Group.with_members rest G)) as EG1.
    { apply list_lookup_insert_eq. by eapply lookup_lt_Some. }
    split.
    + intros w'. unfold removeMember.
      rewrite (run_bind_return _ _ _ _ _ (run_get_group _ _ _ EG)).
      rewrite Hrest. rewrite run_bind. py_step. unfold put_group. py_step.
      rewrite memberLeft_notice. intros E m Hm.
      by apply (notice_loop_Return _ _ _ _ _ _ _ E m Hm).
    + intros pre m M post Hms Hpre EM Hdead. subst rest.
      eexists. split; [|split].
      * unfold removeMember.
        rewrite (run_bind_return _ _ _ _ _ (run_get_group _ _ _ EG)).
        rewrite Hrest. rewrite run_bind. py_step. unfold put_group. py_step.
        rewrite memberLeft_notice.
        by apply (notice_loop_fails _ _ p Pp g
                    (Group.with_members (pre ++ m :: post) G)
                    pre m M post w1 w1 (same_store_refl w1)).
      * pose proof (delivered_all_same_store
                      (map (λ x, (client_of w1 x,
                                  WCI.memberLeft (Participant.name Pp)
                                    (Group.name
                                       (Group.with_members
                                          (pre ++ m :: post) G))))
                           pre) w1) as (_ & _ & Hg).
        unfold members_of. rewrite Hg.
        by rewrite (list_field_lookup _ _ _ _ EG1).
      * by rewrite delivered_all_sent.
  - intros m M dict_ groupName sender group message metadata EM Hnone.
    split_and!.
    + unfold notifyStatusChanged.
      rewrite (run_bind_return _ _ _ _ _ (run_get_participant _ _ _ EM)).
      by rewrite Hnone.
    + unfold setGroupMetadata.
      rewrite (run_bind_return _ _ _ _ _ (run_get_participant _ _ _ EM)).
      by rewrite Hnone.
    + unfold receiveGroupMessage.
      rewrite (run_bind_return _ _ _ _ _ (run_get_participant _ _ _ EM)).
      rewrite Hnone. simpl. by rewrite andb_false_r.
  - intros Hin. unfold addMember.
    rewrite (run_bind_return _ _ _ _ _ (run_get_group _ _ _ EG)).
    by rewrite bool_decide_eq_true_2.
Qed.

Lemma member_notices_need_live_clients_witness :
  let w := run [CreateParticipant "alice"; CreateParticipant "bob";
                CreateParticipant "carol"; Attached 0 (Remote 7);
                Attached 2 (Remote 9); JoinGroup 0 "lobby";
                JoinGroup 1 "lobby"] boot in
  members_of w 0 = [0; 1] ∧ client_of w 1 = NoClient ∧
  ∃ w',
    addMember 0 2 w = (Raise (AttributeError "memberJoined"), w') ∧
    members_of w' 0 = [0; 1] ∧
    sent w' = sent w ++ [(Remote 7, WCI.memberJoined "carol" "lobby")] ∧
    addMember 0 1 w = (Return tt, w).
Proof.
  intros w. split; [reflexivity|]. split; [reflexivity|].
  destruct (member_notices_need_live_clients w 0
              (Group.with_members [0; 1] (Group.init "lobby")) 2
              (Participant.mk "carol" ONLINE [] [] [] (Remote 9) "")
              eq_refl eq_refl) as (Hadd & _ & _ & _).
  destruct (member_notices_need_live_clients w 0
              (Group.with_members [0; 1] (Group.init "lobby")) 1
              (Participant.mk "bob" OFFLINE [] [] [0] NoClient "")
              eq_refl eq_refl) as (_ & _ & _ & Hagain).
  destruct Hadd as [_ Hfail]; [exact (bool_decide_unpack (2 ∉ [0; 1]) I)|].
  destruct (Hfail [0] 1 (Participant.mk "bob" OFFLINE [] [] [0] NoClient "") []
              eq_refl) as (w' & E & (_ & _ & Hg) & Hsent);
    [|reflexivity|reflexivity|].
  - intros x ->%list_elem_of_singleton. eexists. split; reflexivity.
  - exists w'. split; [exact E|]. split; [|split; [exact Hsent|]].
    + unfold members_of. by rewrite Hg.
    + apply Hagain. apply elem_of_cons. right. by apply list_elem_of_singleton.
Defined.

(** * Further properties *)

(** ** Names never change *)

Global Instance has_view_ignores_wire v : IgnoresWire (has_view v).
Proof. by split. Qed.

Lemma view_put_participant v p P0 P' w :
  has_view v w →
  participant_objs w !! p = Some P0 →
  Participant.name P' = Participant.name P0 →
  has_view v (put_participant p P' w).2.
Proof.
  unfold has_view, names_view. intros <- E0 Hn. simpl.
  rewrite list_fmap_insert, Hn.
  rewrite (list_insert_id (Participant.name <$> participant_objs w)); [done|].
  by rewrite list_lookup_fmap, E0.
Qed.

Lemma view_put_group v g G0 G' w :
  has_view v w →
  group_objs w !! g = Some G0 →
  Group.name G' = Group.name G0 →
  has_view v (put_group g G' w).2.
Proof.
  unfold has_view, names_view. intros <- E0 Hn. simpl.
  rewrite list_fmap_insert, Hn.
  rewrite (list_insert_id (Group.name <$> group_objs w)); [done|].
  by rewrite list_lookup_fmap, E0.
Qed.

Lemma view_update_participant v p f :
  (∀ P, Participant.name (f P) = Participant.name P) →
  preserves (has_view v) (update_participant p f).
Proof.
  intros Hf w H. unfold update_participant. rewrite run_bind.
  unfold get_participant.
  destruct (participant_objs w !! p) as [P|] eqn:E; [|done].
  by apply (view_put_participant v p P).
Qed.

Lemma view_update_group v g f :
  (∀ G, Group.name (f G) = Group.name G) →
  preserves (has_view v) (update_group g f).
Proof.
  intros Hf w H. unfold update_group. rewrite run_bind. unfold get_group.
  destruct (group_objs w !! g) as [G|] eqn:E; [|done].
  by apply (view_put_group v g G).
Qed.

Section View.
Variable v : Service.t * list string * list string.

Local Hint Extern 1 (KeptByClients _) => apply _ : preserves.
Local Hint Extern 1 (preserves (has_view _) (update_participant _ _)) =>
  apply view_update_participant; intros []; reflexivity : preserves.
Local Hint Extern 1 (preserves (has_view _) (update_group _ _)) =>
  apply view_update_group; intros []; reflexivity : preserves.
Local Hint Resolve preserves_invoke preserves_notifyStatusChanged
  preserves_setGroupMetadata preserves_memberJoined preserves_memberLeft
  : preserves.

Lemma view_changeStatus self newStatus :
  preserves (has_view v) (changeStatus self newStatus).
Proof. unfold changeStatus. preserves_auto. Qed.

Lemma view_attached self client identity :
  preserves (has_view v) (attached self client identity).
Proof.
  unfold attached. preserves_auto. apply view_changeStatus.
Qed.

Lemma view_setMetadata g dict_ : preserves (has_view v) (setMetadata g dict_).
Proof. unfold setMetadata. preserves_auto. Qed.

Lemma view_addMember g p : preserves (has_view v) (addMember g p).
Proof. unfold addMember. preserves_auto. Qed.

Lemma view_addContact self contactName :
  preserves (has_view v) (addContact self contactName).
Proof. unfold addContact. preserves_auto. Qed.

Lemma view_removeMember g p : preserves (has_view v) (removeMember g p).
Proof.
  intros w H. unfold removeMember. rewrite run_bind. unfold get_group.
  destruct (group_objs w !! g) as [G|] eqn:E; [|done]. py_step.
  destruct (list_remove p (Group.members G)) as [rest|].
  - rewrite run_bind.
    pose proof (view_put_group v g G (Group.with_members rest G) w H E
                  eq_refl) as H1.
    destruct (put_group g _ w) as [[[]|e] w1]; [|done]. simpl in H1.
    revert H1. apply preserves_for_each. intros m.
    apply preserves_memberLeft, _.
  - rewrite run_bind. unfold get_participant.
    by destruct (participant_objs w !! p).
Qed.

Lemma view_leaveGroup_scan self name todo :
  preserves (has_view v) (leaveGroup_scan self name todo).
Proof.
  induction todo as [|g todo IH]; intros w H; simpl; [done|].
  rewrite run_bind. unfold get_group at 1.
  destruct (group_objs w !! g) as [G|]; [|done]. py_step.
  destruct (String.eqb (Group.name G) name); [|by apply IH].
  rewrite run_bind. unfold get_participant at 1.
  destruct (participant_objs w !! self) as [P|] eqn:EP; [|done]. py_step.
  destruct (list_remove g (Participant.groups P)) as [gs|]; [|done].
  rewrite run_bind.
  pose proof (view_put_participant v self P (Participant.with_groups gs P)
                w H EP eq_refl) as H1.
  destruct (put_participant self _ w) as [[[]|e] w1]; [|done]. simpl in H1.
  revert H1. apply view_removeMember.
Qed.

Lemma view_leaveGroup self name : preserves (has_view v) (leaveGroup self name).
Proof. unfold leaveGroup. preserves_auto. apply view_leaveGroup_scan. Qed.

Lemma view_detached self client identity :
  preserves (has_view v) (detached self client identity).
Proof.
  unfold detached. preserves_auto.
  - apply view_leaveGroup.
  - apply view_changeStatus.
Qed.

Lemma view_removeContact_scan self contactName todo :
  preserves (has_view v) (removeContact_scan self contactName todo).
Proof.
  induction todo as [|c todo IH]; intros w H; simpl; [done|].
  rewrite run_bind. unfold get_participant at 1.
  destruct (participant_objs w !! c) as [C0|]; [|done]. py_step.
  destruct (String.eqb (Participant.name C0) contactName); [|by apply IH].
  rewrite run_bind. unfold get_participant at 1.
  destruct (participant_objs w !! self) as [P|] eqn:EP; [|done]. py_step.
  destruct (list_remove c (Participant.contacts P)) as [cs|]; [|done].
  rewrite run_bind.
  pose proof (view_put_participant v self P (Participant.with_contacts cs P)
                w H EP eq_refl) as H1.
  destruct (put_participant self _ w) as [[[]|e] w1]; [|done]. simpl in H1.
  rewrite run_bind. unfold get_participant.
  destruct (participant_objs w1 !! c) as [C|] eqn:EC; [|done]. py_step.
  destruct (list_remove self (Participant.reverseContacts C)) as [rs|];
    [|done].
  by apply (view_put_participant v c C).
Qed.

Lemma view_removeContact self contactName :
  preserves (has_view v) (removeContact self contactName).
Proof.
  unfold removeContact. preserves_auto. apply view_removeContact_scan.
Qed.
End View.

Lemma registered_view w w' : names_view w' = names_view w →
  registered w → registered w'.
Proof.
  unfold registered, names_view. intros [= -> -> ->]. done.
Qed.

Lemma registered_kept {A} (m : Py A) :
  (∀ v, preserves (has_view v) m) → preserves registered m.
Proof.
  intros Hm w H. apply (registered_view w); [|done].
  by apply (Hm (names_view w) w).
Qed.

Lemma registered_boot : registered boot.
Proof. by repeat split. Qed.

Lemma registered_getGroup name : preserves registered (getGroup name).
Proof.
  intros w (H1 & H2 & H3 & H4). unfold getGroup.
  destruct (Service.groups (service w) !! name) eqn:E; simpl; [done|].
  split_and!; simpl; try done.
  - intros n g. rewrite fmap_app. simpl.
    destruct (decide (n = name)) as [->|Hne].
    + rewrite lookup_insert_eq. intros [= <-].
      rewrite lookup_app_r by (by rewrite length_fmap).
      by rewrite length_fmap, Nat.sub_diag.
    + rewrite lookup_insert_ne by done. intros Hg.
      apply lookup_app_l_Some. by apply H3.
  - intros g n. rewrite fmap_app. simpl.
    intros [Hg|[Hg ->]]%lookup_snoc_Some.
    + destruct Hg as [Hlt Hg]. rewrite lookup_insert_ne; [by apply H4|].
      apply H4 in Hg. congruence.
    + rewrite length_fmap in Hg. subst g. by rewrite lookup_insert_eq.
Qed.

Lemma registered_createParticipant name :
  preserves registered (createParticipant name).
Proof.
  intros w (H1 & H2 & H3 & H4). unfold createParticipant.
  destruct (Service.participants (service w) !! name) eqn:E; simpl; [done|].
  split_and!; simpl; try done.
  - intros n p. rewrite fmap_app. simpl.
    destruct (decide (n = name)) as [->|Hne].
    + rewrite lookup_insert_eq. intros [= <-].
      rewrite lookup_app_r by (by rewrite length_fmap).
      by rewrite length_fmap, Nat.sub_diag.
    + rewrite lookup_insert_ne by done. intros Hp.
      apply lookup_app_l_Some. by apply H1.
  - intros p n. rewrite fmap_app. simpl.
    intros [Hp|[Hp ->]]%lookup_snoc_Some.
    + destruct Hp as [Hlt Hp]. rewrite lookup_insert_ne; [by apply H2|].
      apply H2 in Hp. congruence.
    + rewrite length_fmap in Hp. subst p. by rewrite lookup_insert_eq.
Qed.

Lemma registered_perform r : preserves registered (perform r).
Proof.
  destruct r; simpl.
  - apply preserves_bind; [apply registered_createParticipant|].
    intros. apply preserves_ret.
  - apply registered_kept. intros v. preserves_auto. apply view_attached.
  - apply registered_kept; intros v; apply view_detached.
  - apply registered_kept; intros v; apply view_changeStatus.
  - apply registered_kept; intros v; apply view_addContact.
  - apply registered_kept; intros v; apply view_removeContact.
  - unfold joinGroup. apply preserves_bind; [apply registered_getGroup|].
    intros g. apply registered_kept. intros v. preserves_auto.
    + apply view_addMember.
    + apply view_update_participant. by intros [].
  - apply registered_kept; intros v; apply view_leaveGroup.
  - apply registered_kept. intros v. apply preserves_getGroupMembers, _.
  - apply registered_kept. intros v. apply preserves_getGroupMetadata, _.
  - apply registered_kept. intros v. apply preserves_directMessage, _.
  - apply registered_kept. intros v. apply preserves_groupMessage, _.
  - apply registered_kept; intros v; apply view_setMetadata.
  - apply registered_kept. intros v. preserves_auto.
    apply preserves_fail_deferred, _.
Qed.

Lemma registered_reachable rs : registered (run rs boot).
Proof.
  assert (∀ w, registered w → registered (run rs w)) as H;
    [|apply H, registered_boot].
  induction rs as [|r rs IH]; intros w H; simpl; [done|].
  apply IH. by apply registered_perform.
Qed.

Lemma registered_participant_named w n p :
  registered w → participant_named n p w →
  ∃ P, participant_objs w !! p = Some P ∧ Participant.name P = n.
Proof.
  intros (H1 & _) Hn. apply H1 in Hn. rewrite list_lookup_fmap in Hn.
  destruct (participant_objs w !! p) as [P|]; [|done].
  injection Hn as <-. eauto.
Qed.

Lemma registered_participant_unique w p q P Q :
  registered w →
  participant_objs w !! p = Some P → participant_objs w !! q = Some Q →
  Participant.name P = Participant.name Q → p = q.
Proof.
  intros (_ & H2 & _) EP EQ Hn.
  pose proof (H2 p (Participant.name P)) as Hp.
  pose proof (H2 q (Participant.name Q)) as Hq.
  rewrite list_lookup_fmap, EP in Hp. rewrite list_lookup_fmap, EQ in Hq.
  specialize (Hp eq_refl). specialize (Hq eq_refl). congruence.
Qed.

Lemma registered_group_named w n g :
  registered w → group_named n g w →
  ∃ G, group_objs w !! g = Some G ∧ Group.name G = n.
Proof.
  intros (_ & _ & H3 & _) Hn. apply H3 in Hn. rewrite list_lookup_fmap in Hn.
  destruct (group_objs w !! g) as [G|]; [|done].
  injection Hn as <-. eauto.
Qed.

Lemma registered_group_unique w g h G H :
  registered w →
  group_objs w !! g = Some G → group_objs w !! h = Some H →
  Group.name G = Group.name H → g = h.
Proof.
  intros (_ & _ & _ & H4) EG EH Hn.
  pose proof (H4 g (Group.name G)) as Hg.
  pose proof (H4 h (Group.name H)) as Hh.
  rewrite list_lookup_fmap, EG in Hg. rewrite list_lookup_fmap, EH in Hh.
  specialize (Hg eq_refl). specialize (Hh eq_refl). congruence.
Qed.

(** ** The dict of participants *)

Global Instance participant_named_ignores_wire n p :
  IgnoresWire (participant_named n p).
Proof. by split. Qed.

Global Instance participant_named_ignores_objects n p :
  IgnoresObjects (participant_named n p).
Proof. by split. Qed.

Lemma participant_named_run n p rs w :
  participant_named n p w → participant_named n p (run rs w).
Proof.
  apply dicts_run; try apply _.
  - intros name w' H. unfold getGroup, participant_named in *.
    by destruct (Service.groups (service w') !! name).
  - intros name w' H. unfold createParticipant, participant_named in *.
    destruct (Service.participants (service w') !! name) eqn:E; simpl;
      [done|].
    rewrite lookup_insert_ne; [done|]. intros <-. congruence.
Qed.

Global Instance unknown_participant_ignores_wire n :
  IgnoresWire (unknown_participant n).
Proof. by split. Qed.

Global Instance unknown_participant_ignores_objects n :
  IgnoresObjects (unknown_participant n).
Proof. by split. Qed.

(** Only [createParticipant] writes [Service.participants]: every other
    request keeps a property of the dicts that [getGroup] keeps. *)
Section OnlyCreated.
Context (I : World → Prop) `{!IgnoresWire I} `{!IgnoresObjects I}.
Hypothesis I_getGroup : ∀ name, preserves I (getGroup name).

Local Hint Extern 1 (KeptByClients _) => apply _ : preserves.
Local Hint Extern 1 (IgnoresObjects _) => apply _ : preserves.
Local Hint Resolve dicts_update_participant dicts_update_group
  dicts_put_participant dicts_put_group dicts_changeStatus dicts_addMember
  dicts_removeMember dicts_leaveGroup_scan dicts_removeContact_scan
  dicts_leaveGroup preserves_invoke preserves_notifyStatusChanged : preserves.

Lemma other_requests_keep r :
  (∀ name, r ≠ CreateParticipant name) → preserves I (perform r).
Proof.
  intros Hr. destruct r; simpl.
  - by destruct (Hr name).
  - unfold attached. preserves_auto.
  - unfold detached. preserves_auto.
  - preserves_auto.
  - unfold addContact. preserves_auto.
  - unfold removeContact. preserves_auto.
  - unfold joinGroup. preserves_auto.
  - preserves_auto.
  - apply preserves_getGroupMembers, _.
  - apply preserves_getGroupMetadata, _.
  - apply preserves_directMessage, _.
  - apply preserves_groupMessage, _.
  - unfold setMetadata. preserves_auto.
    apply preserves_setGroupMetadata, _.
  - preserves_step; [apply preserves_fail_deferred, _ | preserves_auto].
Qed.
End OnlyCreated.

Lemma unknown_participant_run n rs w :
  CreateParticipant n ∉ rs →
  unknown_participant n w → unknown_participant n (run rs w).
Proof.
  revert w. induction rs as [|r rs IH]; intros w Hrs H; simpl; [done|].
  apply not_elem_of_cons in Hrs as [Hr Hrs]. apply IH; [done|].
  unfold step.
  assert (preserves (unknown_participant n) (perform r)) as Hp;
    [|by apply Hp].
  assert (∀ name, preserves (unknown_participant n) (getGroup name)) as Hg.
  { intros name w' H'. unfold getGroup, unknown_participant in *.
    by destruct (Service.groups (service w') !! name). }
  destruct r as [name| | | | | | | | | | | | |];
    try (apply (other_requests_keep (unknown_participant n) Hg);
         intros; discriminate).
  intros w' H'. simpl. unfold createParticipant, unknown_participant in *.
  py_run.
  destruct (Service.participants (service w') !! name) eqn:E; simpl; [done|].
  rewrite lookup_insert_ne; [done|]. congruence.
Qed.

(** X1.  In every world reached from a fresh service the names are in order:
    a name that getPerspectiveNamed resolves leads to a participant bearing
    that name, looking a participant up by its own name finds that very
    object, and the same holds for groups and getGroup (which then creates
    nothing).  So no two objects of a kind share a name. *)
Theorem names_lead_to_their_objects (rs : list request) :
  (∀ n p w', getPerspectiveNamed n (run rs boot) = (Return p, w') →
             ∃ P, participant_objs (run rs boot) !! p = Some P ∧
                  Participant.name P = n) ∧
  (∀ p P, participant_objs (run rs boot) !! p = Some P →
          getPerspectiveNamed (Participant.name P) (run rs boot) =
            (Return p, run rs boot)) ∧
  (∀ n g, Service.groups (service (run rs boot)) !! n = Some g →
          ∃ G, group_objs (run rs boot) !! g = Some G ∧ Group.name G = n) ∧
  (∀ g G, group_objs (run rs boot) !! g = Some G →
          getGroup (Group.name G) (run rs boot) = (Return g, run rs boot)).
Proof.
  pose proof (registered_reachable rs) as H. split_and!.
  - intros n p w'. unfold getPerspectiveNamed.
    destruct (Service.participants _ !! n) as [q|] eqn:E; [|done].
    intros [= <- _]. by apply registered_participant_named.
  - intros p P EP. destruct H as (_ & H2 & _).
    unfold getPerspectiveNamed.
    rewrite (H2 p (Participant.name P)); [done|].
    by rewrite list_lookup_fmap, EP.
  - intros n g. by apply registered_group_named.
  - intros g G EG. destruct H as (_ & _ & _ & H4).
    apply getGroup_known. unfold group_named. apply H4.
    by rewrite list_lookup_fmap, EG.
Qed.

Lemma names_lead_to_their_objects_witness :
  let rs := [CreateParticipant "alice"; CreateParticipant "bob";
             JoinGroup 1 "lobby"; CreateParticipant "alice";
             AddContact 0 "bob"; LeaveGroup 1 "lobby"] in
  getPerspectiveNamed "bob" (run rs boot) = (Return 1, run rs boot) ∧
  getGroup "lobby" (run rs boot) = (Return 0, run rs boot).
Proof.
  intros rs.
  destruct (names_lead_to_their_objects rs) as (_ & Hp & _ & Hg).
  split.
  - exact (Hp 1 (Participant.mk "bob" OFFLINE [] [0] [] NoClient "") eq_refl).
  - exact (Hg 0 (Group.init "lobby") eq_refl).
Defined.

(** X2.  createParticipant for a name that is free makes a new participant
    with that name: OFFLINE, no contacts, no groups, no client.  From then
    on, whatever requests follow, getPerspectiveNamed finds that object under
    the name and a further createParticipant for the name returns None and
    changes nothing, as it does for every name that is taken. *)
Theorem createParticipant_once (w : World) (name : string) :
  (unknown_participant name w →
     ∃ p w',
       createParticipant name w = (Return (Some p), w') ∧
       participant_objs w !! p = None ∧
       participant_objs w' !! p =
         Some (Participant.mk name OFFLINE [] [] [] NoClient "") ∧
       ∀ rs,
         getPerspectiveNamed name (run rs w') = (Return p, run rs w') ∧
         createParticipant name (run rs w') = (Return None, run rs w')) ∧
  (∀ p, participant_named name p w →
        createParticipant name w = (Return None, w)).
Proof.
  split.
  - intros E. exists (length (participant_objs w)). eexists. split_and!.
    + unfold createParticipant. unfold unknown_participant in E.
      rewrite E. reflexivity.
    + by apply lookup_ge_None.
    + simpl. by rewrite lookup_app_r, Nat.sub_diag.
    + intros rs.
      match goal with |- context [run rs ?x] => set (w' := x) end.
      assert (participant_named name (length (participant_objs w))
                                (run rs w')) as Hn.
      { apply participant_named_run. unfold participant_named. simpl.
        by rewrite lookup_insert_eq. }
      unfold participant_named in Hn.
      unfold getPerspectiveNamed, createParticipant. by rewrite Hn.
  - intros p Hn. unfold participant_named in Hn.
    unfold createParticipant. by rewrite Hn.
Qed.

Lemma createParticipant_once_witness :
  let w := run [CreateParticipant "alice"] boot in
  let rs := [Attached 0 (Remote 7); CreateParticipant "bob";
             AddContact 1 "alice"; Detached 0] in
  ∃ w',
    createParticipant "bob" w = (Return (Some 1), w') ∧
    getPerspectiveNamed "bob" (run rs w') = (Return 1, run rs w') ∧
    createParticipant "alice" w = (Return None, w).
Proof.
  intros w rs.
  destruct (createParticipant_once w "bob") as [Hnew _].
  destruct (Hnew eq_refl) as (p & w' & E & _ & _ & Hrs).
  assert (p = 1) as -> by (vm_compute in E; congruence).
  exists w'. split; [exact E|]. split; [exact (proj1 (Hrs rs))|].
  exact (proj2 (createParticipant_once w "alice") 0 eq_refl).
Defined.

(** X3.  Participants are never created on demand: after any requests none
    of which is createParticipant for the name, the name is unknown, and
    getPerspectiveNamed, addContact and directMessage for it raise
    UserNonexistantError(name) and leave the world as it was. *)
Theorem participants_only_by_createParticipant
    (rs : list request) (name : string) (self : pid) :
  CreateParticipant name ∉ rs →
  getPerspectiveNamed name (run rs boot) =
    (Raise (UserNonexistantError name), run rs boot) ∧
  addContact self name (run rs boot) =
    (Raise (UserNonexistantError name), run rs boot) ∧
  ∀ message metadata,
    directMessage self name message metadata (run rs boot) =
      (Raise (UserNonexistantError name), run rs boot).
Proof.
  intros Hrs.
  assert (getPerspectiveNamed name (run rs boot) =
            (Raise (UserNonexistantError name), run rs boot)) as E.
  { pose proof (unknown_participant_run name rs boot Hrs eq_refl) as H.
    unfold unknown_participant in H. unfold getPerspectiveNamed.
    by rewrite H. }
  split_and!; [done| |intros message metadata].
  - unfold addContact. by rewrite (run_bind_raise _ _ _ _ _ E).
  - unfold directMessage. by rewrite (run_bind_raise _ _ _ _ _ E).
Qed.

Lemma participants_only_by_createParticipant_witness :
  let rs := [CreateParticipant "alice"; Attached 0 (Remote 7);
             JoinGroup 0 "ghost"; AddContact 0 "ghost";
             DirectMessage 0 "ghost" (PStr "hi") PNone] in
  directMessage 0 "ghost" (PStr "hi") PNone (run rs boot) =
    (Raise (UserNonexistantError "ghost"), run rs boot).
Proof.
  intros rs.
  refine (proj2 (proj2 (participants_only_by_createParticipant rs "ghost" 0 _))
            (PStr "hi") PNone).
  intros H. subst rs.
  repeat (apply elem_of_cons in H as [H|H]; [discriminate|]).
  by apply elem_of_nil in H.
Defined.

(** ** Loops that only send *)

Lemma for_each_sent {A} (xs : list A) (body : A → Py unit)
    (calls : A → list (client_ref * WCI.call)) w0 :
  (∀ x w, x ∈ xs → same_store w0 w →
          ∃ w', body x w = (Return tt, w') ∧ same_store w0 w' ∧
                sent w' = sent w ++ calls x) →
  ∀ w, same_store w0 w →
       ∃ w', for_each xs body w = (Return tt, w') ∧ same_store w0 w' ∧
             sent w' = sent w ++ flat_map calls xs.
Proof.
  induction xs as [|x xs IH]; intros Hb w Hw; simpl.
  - exists w. by rewrite app_nil_r.
  - destruct (Hb x w) as (w1 & E1 & Hw1 & Hs1); [by left|done|].
    destruct (IH (λ y w' Hy, Hb y w' (list_elem_of_further _ _ _ Hy)) w1 Hw1)
      as (w2 & E2 & Hw2 & Hs2).
    exists w2. split_and!; [|done|].
    + by rewrite (run_bind_return _ _ _ _ _ E1).
    + by rewrite Hs2, Hs1, <- app_assoc.
Qed.

Lemma client_of_lookup w p P :
  participant_objs w !! p = Some P → client_of w p = Participant.client P.
Proof. unfold client_of. by intros ->. Qed.

Lemma client_of_same_store w0 w p :
  same_store w0 w → client_of w p = client_of w0 p.
Proof. intros (_ & Hp & _). unfold client_of. by rewrite Hp. Qed.

Lemma calls_to_ext w w' what ps :
  (∀ p, p ∈ ps → client_of w' p = client_of w p) →
  calls_to w' what ps = calls_to w what ps.
Proof.
  unfold calls_to. induction ps as [|p ps IH]; intros H; simpl; [done|].
  rewrite H by by left. f_equal. apply IH. intros q Hq. apply H. by right.
Qed.

(** The guarded notifications: nothing for a participant without client, one
    call for a participant with a live one. *)
Lemma guarded_call_exact (c : client_ref) attr what w :
  c ≠ Placeholder →
  ∃ w', (if client_truthy c
         then c' ← getattr_client c attr; invoke c' what;; ret tt
         else ret tt) w = (Return tt, w') ∧
        same_store w w' ∧
        sent w' = sent w ++ (if client_truthy c then [(c, what)] else []).
Proof.
  intros Hc. destruct c; simpl; try done.
  - exists w. split_and!; [done|apply same_store_refl|by rewrite app_nil_r].
  - destruct (invoke_returns (Remote c) what w) as (d & w' & E & Hs & Hsent).
    exists w'. split_and!; try done.
    rewrite run_bind. py_step. by rewrite (run_bind_return _ _ _ _ _ E).
  - destruct (invoke_returns (InProcess c) what w) as (d & w' & E & Hs & Hsent).
    exists w'. split_and!; try done.
    rewrite run_bind. py_step. by rewrite (run_bind_return _ _ _ _ _ E).
Qed.

Lemma notifyStatusChanged_exact self contact w P C :
  participant_objs w !! self = Some P →
  Participant.client P ≠ Placeholder →
  participant_objs w !! contact = Some C →
  ∃ w', notifyStatusChanged self contact w = (Return tt, w') ∧
        same_store w w' ∧
        sent w' = sent w ++
          (if client_truthy (Participant.client P)
           then [(Participant.client P,
                  WCI.notifyStatusChanged (Participant.name C)
                                          (Participant.status C))]
           else []).
Proof.
  intros EP Hc EC. unfold notifyStatusChanged.
  rewrite (run_bind_return _ _ _ _ _ (run_get_participant _ _ _ EP)).
  destruct (Participant.client P) as [| |c|c] eqn:Ecl; simpl; try done.
  - exists w. split_and!; [done|apply same_store_refl|by rewrite app_nil_r].
  - rewrite run_bind. py_step.
    rewrite (run_bind_return _ _ _ _ _ (run_get_participant _ _ _ EC)).
    destruct (invoke_returns (Remote c)
                (WCI.notifyStatusChanged (Participant.name C)
                                         (Participant.status C)) w)
      as (d & w' & E & Hs & Hsent).
    exists w'. by rewrite (run_bind_return _ _ _ _ _ E).
  - rewrite run_bind. py_step.
    rewrite (run_bind_return _ _ _ _ _ (run_get_participant _ _ _ EC)).
    destruct (invoke_returns (InProcess c)
                (WCI.notifyStatusChanged (Participant.name C)
                                         (Participant.status C)) w)
      as (d & w' & E & Hs & Hsent).
    exists w'. by rewrite (run_bind_return _ _ _ _ _ E).
Qed.

Lemma setGroupMetadata_exact self dict_ groupName w P :
  participant_objs w !! self = Some P →
  Participant.client P ≠ Placeholder →
  ∃ w', setGroupMetadata self dict_ groupName w = (Return tt, w') ∧
        same_store w w' ∧
        sent w' = sent w ++
          (if client_truthy (Participant.client P)
           then [(Participant.client P,
                  WCI.setGroupMetadata dict_ groupName)]
           else []).
Proof.
  intros EP Hc. unfold setGroupMetadata.
  rewrite (run_bind_return _ _ _ _ _ (run_get_participant _ _ _ EP)).
  by apply guarded_call_exact.
Qed.

(** ** changeStatus *)

(** X4.  changeStatus asks nothing of the participant (it may have no
    client).  When none of its reverse contacts holds the placeholder it
    returns with the new status stored, nothing else in the store changed,
    and one notifyStatusChanged(name, newStatus) sent to each reverse contact
    that has a client, in the order of reverseContacts; reverse contacts
    without client are passed over. *)
Theorem changeStatus_notifies_reverse_contacts
    (w : World) (self : pid) (P : Participant.t) (newStatus : Z) :
  participant_objs w !! self = Some P →
  all_callable w (Participant.reverseContacts P) →
  ∃ w',
    changeStatus self newStatus w = (Return tt, w') ∧
    service w' = service w ∧ group_objs w' = group_objs w ∧
    participant_objs w' =
      (<[self := Participant.with_status newStatus P]> (participant_objs w)) ∧
    sent w' =
      sent w ++
      calls_to w (WCI.notifyStatusChanged (Participant.name P) newStatus)
               (Participant.reverseContacts P).
Proof.
  intros EP Hall. unfold changeStatus.
  rewrite (run_bind_return _ _ _ _ _ (run_update_participant _ _ _ _ EP)).
  set (P1 := Participant.with_status newStatus P).
  set (w1 := with_participant_objs _ w).
  assert (participant_objs w1 !! self = Some P1) as EP1.
  { apply list_lookup_insert_eq. by eapply lookup_lt_Some. }
  rewrite (run_bind_return _ _ _ _ _ (run_get_participant _ _ _ EP1)).
  assert (∀ rc, rc ∈ Participant.reverseContacts P →
            ∃ R, participant_objs w1 !! rc = Some R ∧
                 Participant.client R ≠ Placeholder ∧
                 client_of w rc = Participant.client R) as Hrc.
  { intros rc Hin.
    destruct (proj1 (Forall_forall _ _) Hall rc Hin) as (R & ER & HR).
    destruct (decide (rc = self)) as [->|Hne].
    - exists P1. rewrite (client_of_lookup _ _ _ EP).
      rewrite ER in EP. by injection EP as ->.
    - exists R. rewrite (client_of_lookup _ _ _ ER). split_and!; try done.
      subst w1. simpl. by rewrite list_lookup_insert_ne. }
  destruct (for_each_sent (Participant.reverseContacts P)
              (λ contact, notifyStatusChanged contact self)
              (λ rc, if client_truthy (client_of w rc)
                     then [(client_of w rc,
                            WCI.notifyStatusChanged (Participant.name P)
                                                    newStatus)]
                     else []) w1) with (w := w1)
    as (w' & E & (Hs & Hp & Hg) & Hsent); [|apply same_store_refl|].
  - intros rc wc Hin (Hs & Hp & Hg).
    destruct (Hrc rc Hin) as (R & ER & HR & Hcl).
    destruct (notifyStatusChanged_exact rc self wc R P1)
      as (w' & E & Hw' & Hsent); try done; try by rewrite Hp.
    exists w'. split_and!; [done| |by rewrite Hcl].
    eapply same_store_trans; [|exact Hw']. by repeat split.
  - exists w'. by split_and!.
Qed.

Lemma changeStatus_notifies_reverse_contacts_witness :
  let w := run [CreateParticipant "alice"; CreateParticipant "bob";
                CreateParticipant "carol"; Attached 0 (Remote 7);
                Attached 1 (Remote 8); AddContact 0 "bob";
                AddContact 2 "bob"] boot in
  ∃ w',
    changeStatus 1 AWAY w = (Return tt, w') ∧
    sent w' = sent w ++ [(Remote 7, WCI.notifyStatusChanged "bob" AWAY)].
Proof.
  intros w.
  destruct (changeStatus_notifies_reverse_contacts w 1
              (Participant.mk "bob" ONLINE [] [0; 2] [] (Remote 8) "")
              AWAY eq_refl) as (w' & E & _ & _ & _ & Hsent).
  - repeat constructor; eexists; (split; [reflexivity | discriminate]).
  - exists w'. split; [exact E | exact Hsent].
Defined.

(** ** addContact and removeContact *)

Lemma list_remove_snoc_fresh x xs :
  x ∉ xs → list_remove x (xs ++ [x]) = Some xs.
Proof.
  induction xs as [|y xs IH]; simpl.
  - intros _. by rewrite decide_True.
  - intros [Hne Hxs]%not_elem_of_cons.
    rewrite decide_False by done. by rewrite IH.
Qed.

Lemma with_contacts_restore P cs :
  Participant.with_contacts (Participant.contacts P)
    (Participant.with_contacts cs P) = P.
Proof. by destruct P. Qed.

Lemma with_reverseContacts_restore P rs :
  Participant.with_reverseContacts (Participant.reverseContacts P)
    (Participant.with_reverseContacts rs P) = P.
Proof. by destruct P. Qed.

Lemma addContact_exact self contactName w P c C :
  participant_objs w !! self = Some P →
  Participant.client P ≠ Placeholder →
  participant_named contactName c w →
  participant_objs w !! c = Some C →
  ∃ w',
    addContact self contactName w = (Return tt, w') ∧
    service w' = service w ∧ group_objs w' = group_objs w ∧
    participant_objs w' = contact_added self c (participant_objs w) ∧
    sent w' =
      sent w ++
      (if client_truthy (Participant.client P)
       then [(Participant.client P,
              WCI.notifyStatusChanged (Participant.name C)
                                      (Participant.status C))]
       else []).
Proof.
  intros EP Hcl Hn EC. unfold addContact, contact_added. rewrite EP.
  unfold participant_named in Hn.
  rewrite (run_bind_return (getPerspectiveNamed contactName) _ w c w)
    by (unfold getPerspectiveNamed; by rewrite Hn).
  rewrite (run_bind_return _ _ _ _ _ (run_update_participant _ _ _ _ EP)).
  set (P1 := Participant.with_contacts _ P).
  set (w1 := with_participant_objs _ w).
  assert (∃ C1, participant_objs w1 !! c = Some C1 ∧
                Participant.name C1 = Participant.name C ∧
                Participant.status C1 = Participant.status C) as
    (C1 & EC1 & Hname & Hstatus).
  { subst w1. simpl. destruct (decide (c = self)) as [->|Hne].
    - exists P1. rewrite list_lookup_insert_eq by by eapply lookup_lt_Some.
      rewrite EC in EP. by injection EP as ->.
    - exists C. by rewrite list_lookup_insert_ne. }
  change (<[self := P1]> (participant_objs w)) with (participant_objs w1).
  rewrite EC1.
  rewrite (run_bind_return _ _ _ _ _ (run_update_participant _ _ _ _ EC1)).
  set (C2 := Participant.with_reverseContacts _ C1).
  set (w2 := with_participant_objs _ w1).
  assert (participant_objs w2 !! c = Some C2) as EC2.
  { apply list_lookup_insert_eq. by eapply lookup_lt_Some. }
  assert (∃ P2, participant_objs w2 !! self = Some P2 ∧
                Participant.client P2 = Participant.client P) as
    (P2 & EP2 & Hclient).
  { destruct (decide (c = self)) as [->|Hne].
    - exists C2. split; [done|]. subst C2 w1. simpl in EC1.
      rewrite list_lookup_insert_eq in EC1 by by eapply lookup_lt_Some.
      by injection EC1 as <-.
    - exists P1. split; [|done]. subst w2 w1. simpl.
      rewrite list_lookup_insert_ne by done.
      apply list_lookup_insert_eq. by eapply lookup_lt_Some. }
  destruct (notifyStatusChanged_exact self c w2 P2 C2 EP2) as
    (w' & E & (Hs & Hp & Hg) & Hsent); [by rewrite Hclient|done|].
  exists w'. split_and!; try done.
  by rewrite Hsent, Hclient, <- Hname, <- Hstatus.
Qed.

Lemma contact_added_unfold self c objs P C :
  objs !! self = Some P → objs !! c = Some C →
  ∃ C1,
    (<[self := Participant.with_contacts (Participant.contacts P ++ [c]) P]>
       objs) !! c = Some C1 ∧
    Participant.reverseContacts C1 = Participant.reverseContacts C ∧
    Participant.contacts C1 =
      (if decide (c = self) then Participant.contacts P ++ [c]
       else Participant.contacts C) ∧
    contact_added self c objs =
      (<[c := Participant.with_reverseContacts
                (Participant.reverseContacts C ++ [self]) C1]>
         (<[self := Participant.with_contacts
                      (Participant.contacts P ++ [c]) P]> objs)).
Proof.
  intros EP EC. unfold contact_added. rewrite EP. simpl.
  destruct (decide (c = self)) as [->|Hne].
  - eexists. rewrite list_lookup_insert_eq by by eapply lookup_lt_Some.
    rewrite EC in EP. injection EP as ->. by split_and!.
  - exists C. rewrite list_lookup_insert_ne by done. rewrite EC.
    by split_and!.
Qed.

Lemma contact_added_contacts self c objs P C a :
  objs !! self = Some P → objs !! c = Some C →
  list_field Participant.contacts (contact_added self c objs) a =
    if decide (a = self) then Participant.contacts P ++ [c]
    else list_field Participant.contacts objs a.
Proof.
  intros EP EC.
  destruct (contact_added_unfold self c objs P C EP EC)
    as (C1 & EC1 & Hr & Hc & ->).
  rewrite (list_field_insert_same _ _ c C1) by done.
  by rewrite (list_field_insert _ _ self P).
Qed.

Lemma contact_added_reverseContacts self c objs P C b :
  objs !! self = Some P → objs !! c = Some C →
  list_field Participant.reverseContacts (contact_added self c objs) b =
    if decide (b = c) then Participant.reverseContacts C ++ [self]
    else list_field Participant.reverseContacts objs b.
Proof.
  intros EP EC.
  destruct (contact_added_unfold self c objs P C EP EC)
    as (C1 & EC1 & Hr & Hc & ->).
  rewrite (list_field_insert _ _ c C1) by done. simpl.
  destruct (decide (b = c)); [done|].
  by rewrite (list_field_insert_same _ _ self P).
Qed.

(** X5.  addContact for a known name appends the contact to the end of
    [self.contacts] and self to the end of the contact's [reverseContacts],
    without looking whether the edge is there already, and changes no other
    list; then it tells self's client, if self has one, the contact's name
    and current status. *)
Theorem addContact_appends_and_notifies
    (w : World) (self c : pid) (P C : Participant.t) (contactName : string) :
  participant_objs w !! self = Some P →
  Participant.client P ≠ Placeholder →
  participant_named contactName c w →
  participant_objs w !! c = Some C →
  ∃ w',
    addContact self contactName w = (Return tt, w') ∧
    contacts_of w' self = Participant.contacts P ++ [c] ∧
    reverseContacts_of w' c = Participant.reverseContacts C ++ [self] ∧
    (∀ a, a ≠ self → contacts_of w' a = contacts_of w a) ∧
    (∀ b, b ≠ c → reverseContacts_of w' b = reverseContacts_of w b) ∧
    (∀ a, groups_of w' a = groups_of w a) ∧
    (∀ g, members_of w' g = members_of w g) ∧
    sent w' =
      sent w ++
      (if client_truthy (Participant.client P)
       then [(Participant.client P,
              WCI.notifyStatusChanged (Participant.name C)
                                      (Participant.status C))]
       else []).
Proof.
  intros EP Hcl Hn EC.
  destruct (addContact_exact self contactName w P c C EP Hcl Hn EC)
    as (w' & E & Hs & Hg & Hp & Hsent).
  exists w'. unfold contacts_of, reverseContacts_of, groups_of, members_of.
  rewrite Hp, Hg. split_and!; try done.
  - rewrite (contact_added_contacts self c _ P C) by done.
    by rewrite decide_True.
  - rewrite (contact_added_reverseContacts self c _ P C) by done.
    by rewrite decide_True.
  - intros a Ha. rewrite (contact_added_contacts self c _ P C) by done.
    by rewrite decide_False.
  - intros b Hb.
    rewrite (contact_added_reverseContacts self c _ P C) by done.
    by rewrite decide_False.
  - intros a.
    destruct (contact_added_unfold self c _ P C EP EC)
      as (C1 & EC1 & _ & _ & ->).
    rewrite (list_field_insert_same _ _ c C1) by done.
    by rewrite (list_field_insert_same _ _ self P).
Qed.

Lemma addContact_appends_and_notifies_witness :
  let w := run [CreateParticipant "alice"; CreateParticipant "bob";
                Attached 0 (Remote 7); Attached 1 (Remote 8);
                ChangeStatus 1 AWAY; AddContact 0 "bob"] boot in
  ∃ w',
    addContact 0 "bob" w = (Return tt, w') ∧
    contacts_of w' 0 = [1; 1] ∧ reverseContacts_of w' 1 = [0; 0] ∧
    sent w' = sent w ++ [(Remote 7, WCI.notifyStatusChanged "bob" AWAY)].
Proof.
  intros w.
  destruct (addContact_appends_and_notifies w 0 1
              (Participant.mk "alice" ONLINE [1] [] [] (Remote 7) "")
              (Participant.mk "bob" AWAY [] [0] [] (Remote 8) "")
              "bob" eq_refl ltac:(discriminate) eq_refl eq_refl)
    as (w' & E & Hc & Hr & _ & _ & _ & _ & Hsent).
  exists w'. by split_and!.
Defined.

Lemma list_remove_split x xs :
  x ∈ xs →
  ∃ pre post, xs = pre ++ x :: post ∧ (x ∉ pre) ∧
              list_remove x xs = Some (pre ++ post).
Proof.
  induction xs as [|y xs IH]; [by intros ?%elem_of_nil|].
  intros Hin. simpl. destruct (decide (y = x)) as [->|Hne].
  - exists [], xs. split_and!; [done|apply not_elem_of_nil|done].
  - apply elem_of_cons in Hin as [->|Hin]; [done|].
    destruct (IH Hin) as (pre & post & -> & Hpre & ->).
    exists (y :: pre), post. split_and!; try done.
    apply not_elem_of_cons. split; [congruence|done].
Qed.

Lemma removeContact_scan_skip self contactName pre rest w :
  Forall (λ x, ∃ X, participant_objs w !! x = Some X ∧
                    Participant.name X ≠ contactName) pre →
  removeContact_scan self contactName (pre ++ rest) w =
    removeContact_scan self contactName rest w.
Proof.
  induction 1 as [|x pre (X & EX & Hne) _ IH]; simpl; [done|].
  rewrite (run_bind_return _ _ _ _ _ (run_get_participant _ _ _ EX)).
  apply String.eqb_neq in Hne. by rewrite Hne.
Qed.

(** The scan at the first contact of the name. *)
Lemma removeContact_scan_hit self contactName c rest w C0 P cs C rs :
  participant_objs w !! c = Some C0 →
  Participant.name C0 = contactName →
  participant_objs w !! self = Some P →
  list_remove c (Participant.contacts P) = Some cs →
  (<[self := Participant.with_contacts cs P]> (participant_objs w)) !! c
    = Some C →
  list_remove self (Participant.reverseContacts C) = Some rs →
  removeContact_scan self contactName (c :: rest) w =
    (Return tt,
     with_participant_objs
       (<[c := Participant.with_reverseContacts rs C]>
          (<[self := Participant.with_contacts cs P]> (participant_objs w)))
       w).
Proof.
  intros EC0 Hn EP Ecs EC Ers. simpl.
  rewrite (run_bind_return _ _ _ _ _ (run_get_participant _ _ _ EC0)).
  rewrite Hn, String.eqb_refl.
  rewrite (run_bind_return _ _ _ _ _ (run_get_participant _ _ _ EP)).
  rewrite Ecs. rewrite run_bind. unfold put_participant at 1. py_step.
  rewrite run_bind. unfold get_participant. simpl. rewrite EC. py_step.
  by rewrite Ers.
Qed.

(** X6.  In a world reached from a fresh service, removeContact for the name
    of a participant that is among self's contacts returns: it drops the
    first occurrence of that contact from [self.contacts] and the first
    occurrence of self from the contact's [reverseContacts], leaves every
    other list alone, and sends nothing to anybody. *)
Theorem removeContact_drops_one_edge
    (rs : list request) (self c : pid) (P C : Participant.t)
    (contactName : string) :
  participant_objs (run rs boot) !! self = Some P →
  participant_named contactName c (run rs boot) →
  participant_objs (run rs boot) !! c = Some C →
  c ∈ Participant.contacts P →
  ∃ cs rv w',
    list_remove c (Participant.contacts P) = Some cs ∧
    list_remove self (Participant.reverseContacts C) = Some rv ∧
    removeContact self contactName (run rs boot) = (Return tt, w') ∧
    contacts_of w' self = cs ∧
    reverseContacts_of w' c = rv ∧
    (∀ a, a ≠ self → contacts_of w' a = contacts_of (run rs boot) a) ∧
    (∀ b, b ≠ c →
          reverseContacts_of w' b = reverseContacts_of (run rs boot) b) ∧
    service w' = service (run rs boot) ∧
    group_objs w' = group_objs (run rs boot) ∧
    sent w' = sent (run rs boot).
Proof.
  set (w := run rs boot). intros EP Hn EC Hin.
  pose proof (linked_reachable rs) as Hl.
  pose proof (registered_reachable rs) as Hr. fold w in Hl, Hr.
  destruct (list_remove_split c _ Hin) as (pre & post & Hsplit & Hpre & Ecs).
  destruct (registered_participant_named w contactName c Hr Hn)
    as (C' & EC' & Hname).
  rewrite EC in EC'. injection EC' as <-.
  (* the object at [c] once [self.contacts] has been rewritten *)
  set (cs := pre ++ post) in *.
  assert (∃ C1, (<[self := Participant.with_contacts cs P]>
                   (participant_objs w)) !! c = Some C1 ∧
                Participant.reverseContacts C1 = Participant.reverseContacts C ∧
                Participant.contacts C1 =
                  (if decide (c = self) then cs else Participant.contacts C))
    as (C1 & EC1 & Hrev & Hcon).
  { destruct (decide (c = self)) as [->|Hne].
    - eexists. rewrite list_lookup_insert_eq by by eapply lookup_lt_Some.
      rewrite EC in EP. injection EP as ->. by split_and!.
    - exists C. by rewrite list_lookup_insert_ne. }
  assert (self ∈ Participant.reverseContacts C) as Hself.
  { apply occurrences_pos. apply occurrences_pos in Hin.
    pose proof (linked_contacts _ Hl self c) as Hocc.
    unfold contacts_of, reverseContacts_of in Hocc.
    rewrite (list_field_lookup _ _ _ _ EP), (list_field_lookup _ _ _ _ EC)
      in Hocc. lia. }
  destruct (list_remove_split self _ Hself) as (rpre & rpost & _ & _ & Erv).
  set (rv := rpre ++ rpost) in *.
  exists cs, rv,
    (with_participant_objs
       (<[c := Participant.with_reverseContacts rv C1]>
          (<[self := Participant.with_contacts cs P]> (participant_objs w)))
       w).
  split_and!; try done.
  - unfold removeContact.
    rewrite (run_bind_return _ _ _ _ _ (run_get_participant _ _ _ EP)).
    rewrite Hsplit, removeContact_scan_skip.
    + apply (removeContact_scan_hit self contactName c post w C P cs C1 rv);
        try done; by rewrite Hrev.
    + apply Forall_forall. intros x Hx.
      assert (x ∈ Participant.contacts P) as HxP.
      { rewrite Hsplit. apply elem_of_app. by left. }
      destruct (linked_contact_allocated _ _ _ _ Hl EP HxP) as [X EX].
      exists X. split; [done|]. intros HXn.
      assert (x = c) as -> by
        (eapply (registered_participant_unique w); eauto; congruence).
      done.
  - unfold contacts_of. simpl.
    rewrite (list_field_insert _ _ c C1) by done. simpl.
    destruct (decide (self = c)) as [<-|Hne].
    + rewrite Hcon. by rewrite decide_True.
    + rewrite (list_field_insert _ _ self P) by done. by rewrite decide_True.
  - unfold reverseContacts_of. simpl.
    rewrite (list_field_insert _ _ c C1) by done. by rewrite decide_True.
  - intros a Ha. unfold contacts_of. simpl.
    rewrite (list_field_insert_same _ _ c C1) by done.
    rewrite (list_field_insert _ _ self P) by done. by rewrite decide_False.
  - intros b Hb. unfold reverseContacts_of. simpl.
    rewrite (list_field_insert _ _ c C1) by done. rewrite decide_False by done.
    by rewrite (list_field_insert_same _ _ self P).
Qed.

Lemma removeContact_drops_one_edge_witness :
  let rs := [CreateParticipant "alice"; CreateParticipant "bob";
             CreateParticipant "carol"; Attached 0 (Remote 7);
             AddContact 0 "carol"; AddContact 0 "bob"; AddContact 0 "carol";
             AddContact 1 "carol"] in
  ∃ w',
    removeContact 0 "carol" (run rs boot) = (Return tt, w') ∧
    contacts_of w' 0 = [1; 2] ∧ reverseContacts_of w' 2 = [0; 1] ∧
    sent w' = sent (run rs boot).
Proof.
  intros rs.
  destruct (removeContact_drops_one_edge rs 0 2
              (Participant.mk "alice" ONLINE [2; 1; 2] [] [] (Remote 7) "")
              (Participant.mk "carol" OFFLINE [] [0; 0; 1] [] NoClient "")
              "carol" eq_refl eq_refl eq_refl)
    as (cs & rv & w' & Ecs & Erv & E & Hc & Hr & _ & _ & _ & _ & Hsent).
  - by left.
  - exists w'. injection Ecs as <-. injection Erv as <-. by split_and!.
Defined.

(** X7.  In a world reached from a fresh service, adding a contact that self
    does not have yet and removing it again by the same name puts every
    object back as it was: contacts, reverseContacts and all.  Only the
    notification that addContact sent remains. *)
Theorem addContact_then_removeContact_restores
    (rs : list request) (self c : pid) (P : Participant.t)
    (contactName : string) :
  participant_objs (run rs boot) !! self = Some P →
  Participant.client P ≠ Placeholder →
  participant_named contactName c (run rs boot) →
  c ∉ Participant.contacts P →
  ∃ w1 w2,
    addContact self contactName (run rs boot) = (Return tt, w1) ∧
    removeContact self contactName w1 = (Return tt, w2) ∧
    same_store (run rs boot) w2 ∧
    sent w2 = sent w1.
Proof.
  set (w := run rs boot). intros EP Hcl Hn Hfresh.
  pose proof (linked_reachable rs) as Hl.
  pose proof (registered_reachable rs) as Hr. fold w in Hl, Hr.
  destruct (registered_participant_named w contactName c Hr Hn)
    as (C & EC & Hname).
  destruct (addContact_exact self contactName w P c C EP Hcl Hn EC)
    as (w1 & E1 & Hs1 & Hg1 & Hp1 & _).
  assert (linked w1 ∧ registered w1) as [Hl1 Hr1].
  { pose proof (linked_addContact self contactName w Hl) as H1.
    pose proof (registered_perform (AddContact self contactName) w Hr) as H2.
    simpl in H2. by rewrite E1 in H1, H2. }
  assert (self ∉ Participant.reverseContacts C) as Hself.
  { apply occurrences_zero. apply occurrences_zero in Hfresh.
    pose proof (linked_contacts _ Hl self c) as Hocc.
    unfold contacts_of, reverseContacts_of in Hocc.
    rewrite (list_field_lookup _ _ _ _ EP), (list_field_lookup _ _ _ _ EC)
      in Hocc. lia. }
  destruct (contact_added_unfold self c _ P C EP EC)
    as (C1 & EC1 & Hrev1 & Hcon1 & Hobjs).
  pose proof Hp1 as Hadded. rewrite Hobjs in Hp1. clear Hobjs.
  set (Pc := Participant.with_contacts (Participant.contacts P ++ [c]) P) in *.
  set (Cr := Participant.with_reverseContacts
               (Participant.reverseContacts C ++ [self]) C1) in *.
  assert (length (participant_objs w1) = length (participant_objs w)) as Hlen
    by (by rewrite Hp1, !length_insert).
  assert (participant_objs w1 !! c = Some Cr) as ECr.
  { rewrite Hp1. apply list_lookup_insert_eq. rewrite length_insert.
    by eapply lookup_lt_Some. }
  (* what the scan finds at [self] *)
  assert (∃ P1, participant_objs w1 !! self = Some P1 ∧
                Participant.contacts P1 = Participant.contacts P ++ [c])
    as (P1 & EP1 & Hcon).
  { destruct (lookup_lt_is_Some_2 (participant_objs w1) self) as [P1 EP1].
    { rewrite Hlen. by eapply lookup_lt_Some. }
    exists P1. split; [done|].
    pose proof (contact_added_contacts self c (participant_objs w) P C self
                  EP EC) as H.
    rewrite decide_True in H by done. rewrite <- H, <- Hadded.
    by rewrite (list_field_lookup _ _ _ _ EP1). }
  (* the store when both lists have been rewritten *)
  set (Q := Participant.with_contacts (Participant.contacts P) P1).
  assert (∃ C2, (<[self := Q]> (participant_objs w1)) !! c = Some C2 ∧
                Participant.reverseContacts C2 =
                  Participant.reverseContacts C ++ [self] ∧
                (<[c := Participant.with_reverseContacts
                          (Participant.reverseContacts C) C2]>
                   (<[self := Q]> (participant_objs w1)))
                  = participant_objs w) as (C2 & EC2 & Hrev2 & Hback).
  { destruct (decide (c = self)) as [->|Hne].
    - exists Q. rewrite list_lookup_insert_eq by by eapply lookup_lt_Some.
      rewrite EC in EP. injection EP as ->.
      rewrite ECr in EP1. injection EP1 as <-.
      rewrite list_lookup_insert_eq in EC1 by by eapply lookup_lt_Some.
      injection EC1 as <-.
      split_and!; [done|done|].
      rewrite Hp1, !list_insert_insert_eq. apply list_insert_id.
      rewrite EC. f_equal. subst Q Cr Pc. by destruct P.
    - rewrite list_lookup_insert_ne in EC1 by done.
      rewrite EC in EC1. injection EC1 as <-.
      exists Cr. rewrite list_lookup_insert_ne by done.
      split_and!; [done|done|].
      assert (P1 = Pc) as ->.
      { rewrite Hp1, list_lookup_insert_ne in EP1 by done.
        rewrite list_lookup_insert_eq in EP1 by by eapply lookup_lt_Some.
        by injection EP1. }
      rewrite Hp1. subst Q Cr Pc.
      rewrite with_contacts_restore, with_reverseContacts_restore.
      rewrite (list_insert_insert_ne _ self c P) by done.
      rewrite (list_insert_insert_eq _ c C).
      rewrite (list_insert_insert_eq _ self P).
      rewrite (list_insert_id _ self P) by done.
      by apply list_insert_id. }
  exists w1.
  exists (with_participant_objs
            (<[c := Participant.with_reverseContacts
                      (Participant.reverseContacts C) C2]>
               (<[self := Q]> (participant_objs w1))) w1).
  split_and!; [done| | |done].
  - unfold removeContact.
    rewrite (run_bind_return _ _ _ _ _ (run_get_participant _ _ _ EP1)).
    rewrite Hcon, removeContact_scan_skip.
    + apply (removeContact_scan_hit self contactName c [] w1 Cr P1
               (Participant.contacts P) C2 (Participant.reverseContacts C));
        try done.
      * destruct (registered_participant_named w1 contactName c Hr1)
          as (C' & EC' & HC'); [unfold participant_named; by rewrite Hs1|].
        rewrite ECr in EC'. by injection EC' as <-.
      * rewrite Hcon. by apply list_remove_snoc_fresh.
      * rewrite Hrev2. by apply list_remove_snoc_fresh.
    + apply Forall_forall. intros x Hx.
      destruct (lookup_lt_is_Some_2 (participant_objs w1) x) as [X EX].
      { rewrite Hlen.
        destruct (linked_contact_allocated _ _ _ _ Hl EP Hx) as [X0 EX0].
        by eapply lookup_lt_Some. }
      exists X. split; [done|]. intros HXn.
      destruct (registered_participant_named w1 contactName c Hr1)
        as (C' & EC' & HC'); [unfold participant_named; by rewrite Hs1|].
      assert (x = c) as -> by
        (eapply (registered_participant_unique w1); eauto; congruence).
      done.
  - repeat split; simpl; [done|by rewrite Hback|done].
Qed.

Lemma addContact_then_removeContact_restores_witness :
  let rs := [CreateParticipant "alice"; CreateParticipant "bob";
             CreateParticipant "carol"; Attached 0 (Remote 7);
             AddContact 0 "bob"; AddContact 2 "alice"] in
  ∃ w1 w2,
    addContact 0 "carol" (run rs boot) = (Return tt, w1) ∧
    removeContact 0 "carol" w1 = (Return tt, w2) ∧
    participant_objs w2 = participant_objs (run rs boot).
Proof.
  intros rs.
  destruct (addContact_then_removeContact_restores rs 0 2
              (Participant.mk "alice" ONLINE [1] [2] [] (Remote 7) "")
              "carol" eq_refl ltac:(discriminate) eq_refl)
    as (w1 & w2 & E1 & E2 & (_ & Hp & _) & _).
  - intros H. apply list_elem_of_singleton in H. discriminate.
  - by exists w1, w2.
Defined.

(** ** joinGroup and leaveGroup *)

Lemma joinGroup_exact self name w P g G :
  linked w →
  participant_objs w !! self = Some P →
  Participant.client P ≠ Placeholder →
  group_named name g w →
  group_objs w !! g = Some G →
  g ∉ Participant.groups P →
  (∀ m, m ∈ Group.members G → has_live_client w m) →
  ∃ w',
    joinGroup self name w = (Return tt, w') ∧
    service w' = service w ∧
    participant_objs w' =
      (<[self := Participant.with_groups (Participant.groups P ++ [g]) P]>
         (participant_objs w)) ∧
    group_objs w' =
      (<[g := Group.with_members (Group.members G ++ [self]) G]>
         (group_objs w)) ∧
    sent w' =
      sent w ++
      map (λ m, (client_of w m,
                 WCI.memberJoined (Participant.name P) (Group.name G)))
          (Group.members G) ++
      (if client_truthy (Participant.client P)
       then [(Participant.client P,
              WCI.setGroupMetadata (Group.metadata G) (Group.name G))]
       else []).
Proof.
  intros Hl EP Hcl Hn EG Hnew Hlive.
  assert (self ∉ Group.members G) as Hself.
  { apply occurrences_zero. apply occurrences_zero in Hnew.
    pose proof (linked_groups _ Hl self g) as Hocc.
    unfold groups_of, members_of in Hocc.
    rewrite (list_field_lookup _ _ _ _ EP), (list_field_lookup _ _ _ _ EG)
      in Hocc. lia. }
  unfold joinGroup.
  rewrite (run_bind_return _ _ _ _ _ (getGroup_known _ _ _ Hn)).
  rewrite (run_bind_return _ _ _ _ _ (run_get_participant _ _ _ EP)).
  rewrite bool_decide_eq_false_2 by done.
  (* addMember *)
  set (calls := map (λ m, (client_of w m,
                           WCI.memberJoined (Participant.name P)
                                            (Group.name G)))
                    (Group.members G)).
  set (wa := delivered_all calls w).
  pose proof (delivered_all_same_store calls w) as (Hsa & Hpa & Hga).
  pose proof (delivered_all_sent calls w) as Hsenta. fold wa in Hsa, Hpa, Hga, Hsenta.
  destruct (setGroupMetadata_exact self (Group.metadata G) (Group.name G)
              wa P) as (wb & Eb & (Hsb & Hpb & Hgb) & Hsentb);
    [by rewrite Hpa|done|].
  assert (addMember g self w =
            (Return tt,
             with_group_objs
               (<[g := Group.with_members (Group.members G ++ [self]) G]>
                  (group_objs wb)) wb)) as Eadd.
  { unfold addMember.
    rewrite (run_bind_return _ _ _ _ _ (run_get_group _ _ _ EG)).
    rewrite bool_decide_eq_false_2 by done.
    rewrite memberJoined_notice.
    rewrite (run_bind_return _ _ _ tt wa)
      by (by apply (notice_loop_all_live _ _ self P g G _ w w
                      (same_store_refl w))).
    rewrite (run_bind_return _ _ _ G wa)
      by (apply run_get_group; by rewrite Hga).
    rewrite (run_bind_return _ _ _ _ _ Eb).
    unfold update_group.
    rewrite (run_bind_return _ _ _ G wb)
      by (apply run_get_group; by rewrite Hgb, Hga).
    reflexivity. }
  rewrite (run_bind_return _ _ _ _ _ Eadd).
  unfold update_participant. rewrite run_bind. unfold get_participant.
  simpl. rewrite Hpb, Hpa, EP. py_step. unfold put_participant. simpl.
  eexists. split; [reflexivity|]. simpl.
  rewrite Hsb, Hsa, Hpb, Hpa, Hgb, Hga, Hsentb, Hsenta.
  split_and!; try done. by rewrite <- app_assoc.
Qed.

(** X8.  In a world reached from a fresh service, joinGroup for a group the
    participant is not in, whose members all have live clients, returns:
    every member is sent memberJoined(name of the joiner, group) in the order
    of [members], then the joiner, if it has a client, is sent the group's
    metadata, and only then is the joiner put at the end of [members] and the
    group at the end of the joiner's [groups].  For a name no group bears yet
    the group is created first, so the joiner becomes its only member and is
    sent the default metadata. *)
Theorem joinGroup_notifies_then_adds
    (rs : list request) (self : pid) (P : Participant.t) (name : string) :
  participant_objs (run rs boot) !! self = Some P →
  Participant.client P ≠ Placeholder →
  (∀ g G,
     group_named name g (run rs boot) →
     group_objs (run rs boot) !! g = Some G →
     g ∉ Participant.groups P →
     (∀ m, m ∈ Group.members G → has_live_client (run rs boot) m) →
     ∃ w',
       joinGroup self name (run rs boot) = (Return tt, w') ∧
       groups_of w' self = Participant.groups P ++ [g] ∧
       members_of w' g = Group.members G ++ [self] ∧
       sent w' =
         sent (run rs boot) ++
         map (λ m, (client_of (run rs boot) m,
                    WCI.memberJoined (Participant.name P) name))
             (Group.members G) ++
         (if client_truthy (Participant.client P)
          then [(Participant.client P,
                 WCI.setGroupMetadata (Group.metadata G) name)]
          else [])) ∧
  (Service.groups (service (run rs boot)) !! name = None →
     ∃ w',
       joinGroup self name (run rs boot) = (Return tt, w') ∧
       group_named name (length (group_objs (run rs boot))) w' ∧
       groups_of w' self =
         Participant.groups P ++ [length (group_objs (run rs boot))] ∧
       members_of w' (length (group_objs (run rs boot))) = [self] ∧
       sent w' =
         sent (run rs boot) ++
         (if client_truthy (Participant.client P)
          then [(Participant.client P,
                 WCI.setGroupMetadata
                   {[ "topic" := "Welcome to " +:+ name +:+ "!";
                      "topic_author" := "admin" ]} name)]
          else [])).
Proof.
  set (w := run rs boot). intros EP Hcl.
  pose proof (linked_reachable rs) as Hl.
  pose proof (registered_reachable rs) as Hr. fold w in Hl, Hr.
  split.
  - intros g G Hn EG Hnew Hlive.
    destruct (joinGroup_exact self name w P g G) as
      (w' & E & Hs & Hp & Hg & Hsent); try done.
    destruct (registered_group_named w name g Hr Hn) as (G' & EG' & Hname).
    rewrite EG in EG'. injection EG' as <-.
    exists w'. unfold groups_of, members_of. rewrite Hp, Hg, Hsent, Hname.
    split_and!; try done.
    + rewrite (list_field_insert _ _ self P) by done. by rewrite decide_True.
    + rewrite (list_field_insert _ _ g G) by done. by rewrite decide_True.
  - intros Hnone.
    set (g := length (group_objs w)).
    set (w0 := (getGroup name w).2).
    assert (getGroup name w = (Return g, w0)) as E0.
    { subst w0. unfold getGroup. by rewrite Hnone. }
    assert (group_named name g w0) as Hn0.
    { subst w0. unfold getGroup, group_named. rewrite Hnone. simpl.
      by rewrite lookup_insert_eq. }
    assert (group_objs w0 !! g = Some (Group.init name)) as EG0.
    { subst w0. unfold getGroup. rewrite Hnone. simpl.
      by rewrite lookup_app_r, Nat.sub_diag. }
    assert (participant_objs w0 = participant_objs w ∧ sent w0 = sent w)
      as [Hp0 Hsent0].
    { subst w0. unfold getGroup. by rewrite Hnone. }
    assert (linked w0) as Hl0.
    { pose proof (linked_getGroup name w Hl) as H. by rewrite E0 in H. }
    destruct (joinGroup_exact self name w0 P g (Group.init name)) as
      (w' & E & Hs & Hp & Hg & Hsent); try done.
    { by rewrite Hp0. }
    { intros Hin.
      destruct (linked_group_allocated w self P g Hl EP Hin) as [G EG].
      apply lookup_lt_Some in EG. subst g. lia. }
    { intros m Hm. by apply elem_of_nil in Hm. }
    exists w'. split_and!.
    + rewrite <- E. unfold joinGroup.
      rewrite (run_bind_return _ _ _ _ _ E0).
      by rewrite (run_bind_return _ _ _ _ _ (getGroup_known _ _ _ Hn0)).
    + unfold group_named in *. by rewrite Hs.
    + unfold groups_of. rewrite Hp, Hp0.
      rewrite (list_field_insert _ _ self P) by done. by rewrite decide_True.
    + unfold members_of. rewrite Hg.
      rewrite (list_field_insert _ _ g (Group.init name)) by done.
      by rewrite decide_True.
    + rewrite Hsent, Hsent0. done.
Qed.

Lemma joinGroup_notifies_then_adds_witness :
  let rs := [CreateParticipant "alice"; CreateParticipant "bob";
             CreateParticipant "carol"; Attached 0 (Remote 7);
             Attached 1 (InProcess 8); Attached 2 (Remote 9);
             JoinGroup 0 "lobby"; JoinGroup 1 "lobby"] in
  ∃ w',
    joinGroup 2 "lobby" (run rs boot) = (Return tt, w') ∧
    members_of w' 0 = [0; 1; 2] ∧
    sent w' =
      sent (run rs boot) ++
      [(Remote 7, WCI.memberJoined "carol" "lobby");
       (InProcess 8, WCI.memberJoined "carol" "lobby");
       (Remote 9, WCI.setGroupMetadata
                    {[ "topic" := "Welcome to lobby!";
                       "topic_author" := "admin" ]} "lobby")].
Proof.
  intros rs.
  destruct (joinGroup_notifies_then_adds rs 2
              (Participant.mk "carol" ONLINE [] [] [] (Remote 9) "")
              "lobby" eq_refl ltac:(discriminate)) as [Hjoin _].
  destruct (Hjoin 0 (Group.with_members [0; 1] (Group.init "lobby"))
              eq_refl eq_refl) as (w' & E & _ & Hm & Hsent).
  - apply not_elem_of_nil.
  - intros m Hm.
    apply elem_of_cons in Hm as [->|Hm];
      [eexists; split; reflexivity|].
    apply list_elem_of_singleton in Hm as ->. eexists; split; reflexivity.
  - exists w'. by split_and!.
Defined.

Lemma leaveGroup_scan_skip self name pre rest w :
  Forall (λ x, ∃ X, group_objs w !! x = Some X ∧ Group.name X ≠ name) pre →
  leaveGroup_scan self name (pre ++ rest) w =
    leaveGroup_scan self name rest w.
Proof.
  induction 1 as [|x pre (X & EX & Hne) _ IH]; simpl; [done|].
  rewrite (run_bind_return _ _ _ _ _ (run_get_group _ _ _ EX)).
  apply String.eqb_neq in Hne. by rewrite Hne.
Qed.

(** In a linked and registered world the groups of a participant that do not
    bear a name are allocated and named otherwise. *)
Lemma groups_named_otherwise w self P name gs :
  linked w → registered w →
  participant_objs w !! self = Some P →
  (∀ x, x ∈ gs → x ∈ Participant.groups P) →
  (∀ x, x ∈ gs → ¬ group_named name x w) →
  Forall (λ x, ∃ X, group_objs w !! x = Some X ∧ Group.name X ≠ name) gs.
Proof.
  intros Hl Hr EP Hsub Hnot. apply Forall_forall. intros x Hx.
  destruct (linked_group_allocated w self P x Hl EP (Hsub x Hx)) as [X EX].
  exists X. split; [done|]. intros Hname. apply (Hnot x Hx).
  destruct Hr as (_ & _ & _ & H4). apply H4.
  by rewrite list_lookup_fmap, EX, <- Hname.
Qed.

Lemma leaveGroup_exact self w P g G gs rest :
  linked w → registered w →
  participant_objs w !! self = Some P →
  group_objs w !! g = Some G →
  list_remove g (Participant.groups P) = Some gs →
  list_remove self (Group.members G) = Some rest →
  (∀ m, m ∈ rest → has_live_client w m) →
  ∃ w',
    leaveGroup self (Group.name G) w = (Return tt, w') ∧
    service w' = service w ∧
    participant_objs w' =
      (<[self := Participant.with_groups gs P]> (participant_objs w)) ∧
    group_objs w' = (<[g := Group.with_members rest G]> (group_objs w)) ∧
    sent w' =
      sent w ++
      map (λ m, (client_of w m,
                 WCI.memberLeft (Participant.name P) (Group.name G)))
          rest.
Proof.
  intros Hl Hr EP EG Egs Ems Hlive.
  assert (g ∈ Participant.groups P) as Hin.
  { destruct (decide (g ∈ Participant.groups P)) as [|Hout]; [done|].
    apply list_remove_None in Hout. congruence. }
  destruct (list_remove_split g _ Hin) as (pre & post & Hsplit & Hpre & _).
  set (P' := Participant.with_groups gs P).
  set (G' := Group.with_members rest G).
  set (w2 := with_group_objs (<[g := G']> (group_objs w))
               (with_participant_objs (<[self := P']> (participant_objs w))
                                      w)).
  assert (∀ m, client_of w2 m = client_of w m) as Hclient.
  { intros m. unfold client_of. simpl.
    destruct (decide (m = self)) as [->|Hne].
    - rewrite list_lookup_insert_eq by (by eapply lookup_lt_Some).
      by rewrite EP.
    - by rewrite list_lookup_insert_ne. }
  assert (∀ m, m ∈ rest → has_live_client w2 m) as Hlive2.
  { intros m Hm. destruct (Hlive m Hm) as (M & EM & HM).
    unfold has_live_client. simpl.
    destruct (decide (m = self)) as [->|Hne].
    - exists P'. rewrite list_lookup_insert_eq by (by eapply lookup_lt_Some).
      rewrite EP in EM. injection EM as <-. done.
    - exists M. by rewrite list_lookup_insert_ne. }
  assert (participant_objs w2 !! self = Some P') as EP2.
  { simpl. by rewrite list_lookup_insert_eq by (by eapply lookup_lt_Some). }
  assert (group_objs w2 !! g = Some G') as EG2.
  { simpl. by rewrite list_lookup_insert_eq by (by eapply lookup_lt_Some). }
  pose proof (notice_loop_all_live "memberLeft" WCI.memberLeft self P' g G'
                rest w2 w2 (same_store_refl w2) EP2 EG2 Hlive2) as Hloop.
  set (calls := map (λ x, (client_of w2 x,
                           WCI.memberLeft (Participant.name P')
                                          (Group.name G'))) rest) in Hloop.
  pose proof (delivered_all_same_store calls w2) as (Hs3 & Hp3 & Hg3).
  pose proof (delivered_all_sent calls w2) as Hsent3.
  exists (delivered_all calls w2). split_and!.
  - unfold leaveGroup.
    rewrite (run_bind_return _ _ _ _ _ (run_get_participant _ _ _ EP)).
    rewrite Hsplit. rewrite leaveGroup_scan_skip.
    2:{ apply (groups_named_otherwise w self P); try done.
        - intros x Hx. rewrite Hsplit. apply elem_of_app. by left.
        - intros x Hx Hnamed.
          destruct (registered_group_named w _ x Hr Hnamed) as (X & EX & HX).
          assert (x = g) as -> by by eapply registered_group_unique.
          done. }
    simpl.
    rewrite (run_bind_return _ _ _ _ _ (run_get_group _ _ _ EG)).
    rewrite String.eqb_refl.
    rewrite (run_bind_return _ _ _ _ _ (run_get_participant _ _ _ EP)).
    rewrite Egs. rewrite run_bind. unfold put_participant at 1.
    py_step. unfold removeMember. rewrite run_bind. unfold get_group at 1.
    simpl. rewrite EG. py_step. rewrite Ems. rewrite run_bind.
    unfold put_group at 1. py_step. rewrite memberLeft_notice.
    exact Hloop.
  - by rewrite Hs3.
  - by rewrite Hp3.
  - by rewrite Hg3.
  - rewrite Hsent3. simpl. f_equal. subst calls. apply map_ext.
    intros m. by rewrite Hclient.
Qed.

(** X9.  In a world reached from a fresh service, leaveGroup for a group the
    participant is in first drops the group from the participant's [groups]
    and the participant from the group's [members]; if every remaining member
    has a live client it then returns, having sent each of them
    memberLeft(name of the leaver, group) in the order of [members].  The
    dicts of the service are left alone: a group stays registered when its
    last member leaves. *)
Theorem leaveGroup_drops_then_notifies
    (rs : list request) (self : pid) (P : Participant.t)
    (g : gid) (G : Group.t) :
  participant_objs (run rs boot) !! self = Some P →
  group_objs (run rs boot) !! g = Some G →
  g ∈ Participant.groups P →
  ∃ gs rest,
    list_remove g (Participant.groups P) = Some gs ∧
    list_remove self (Group.members G) = Some rest ∧
    ((∀ m, m ∈ rest → has_live_client (run rs boot) m) →
     ∃ w',
       leaveGroup self (Group.name G) (run rs boot) = (Return tt, w') ∧
       groups_of w' self = gs ∧
       members_of w' g = rest ∧
       service w' = service (run rs boot) ∧
       sent w' =
         sent (run rs boot) ++
         map (λ m, (client_of (run rs boot) m,
                    WCI.memberLeft (Participant.name P) (Group.name G)))
             rest).
Proof.
  set (w := run rs boot). intros EP EG Hin.
  pose proof (linked_reachable rs) as Hl.
  pose proof (registered_reachable rs) as Hr. fold w in Hl, Hr.
  destruct (list_remove_split g _ Hin) as (pre & post & _ & _ & Egs).
  assert (self ∈ Group.members G) as Hself.
  { apply occurrences_pos. apply occurrences_pos in Hin.
    pose proof (linked_groups _ Hl self g) as Hocc.
    unfold groups_of, members_of in Hocc.
    rewrite (list_field_lookup _ _ _ _ EP), (list_field_lookup _ _ _ _ EG)
      in Hocc. lia. }
  destruct (list_remove_split self _ Hself) as (mpre & mpost & _ & _ & Ems).
  exists (pre ++ post), (mpre ++ mpost). split; [done|]. split; [done|].
  intros Hlive.
  destruct (leaveGroup_exact self w P g G _ _ Hl Hr EP EG Egs Ems Hlive)
    as (w' & E & Hs & Hp & Hg & Hsent).
  exists w'. unfold groups_of, members_of. rewrite Hp, Hg.
  split_and!; try done.
  - rewrite (list_field_insert _ _ self P) by done. by rewrite decide_True.
  - rewrite (list_field_insert _ _ g G) by done. by rewrite decide_True.
Qed.

Lemma leaveGroup_drops_then_notifies_witness :
  let rs := [CreateParticipant "alice"; CreateParticipant "bob";
             Attached 0 (Remote 7); Attached 1 (InProcess 8);
             JoinGroup 0 "lobby"; JoinGroup 1 "lobby"] in
  ∃ w',
    leaveGroup 0 "lobby" (run rs boot) = (Return tt, w') ∧
    groups_of w' 0 = [] ∧
    members_of w' 0 = [1] ∧
    sent w' =
      sent (run rs boot) ++ [(InProcess 8, WCI.memberLeft "alice" "lobby")].
Proof.
  intros rs.
  destruct (leaveGroup_drops_then_notifies rs 0
              (Participant.mk "alice" ONLINE [] [] [0] (Remote 7) "")
              0 (Group.with_members [0; 1] (Group.init "lobby"))
              eq_refl eq_refl)
    as (gs & rest & Egs & Erest & Hleave).
  - by apply list_elem_of_singleton.
  - injection Egs as <-. injection Erest as <-.
    destruct Hleave as (w' & E & Hg & Hm & _ & Hsent).
    + intros m Hm. apply list_elem_of_singleton in Hm as ->.
      eexists; split; reflexivity.
    + exists w'. by split_and!.
Defined.

(** ** Asking about a group one is not in *)

Lemma groupMessage_scan_skip self groupName message metadata pre rest w :
  Forall (λ x, ∃ X, group_objs w !! x = Some X ∧ Group.name X ≠ groupName)
         pre →
  groupMessage_scan self groupName message metadata (pre ++ rest) w =
    groupMessage_scan self groupName message metadata rest w.
Proof.
  induction 1 as [|x pre (X & EX & Hne) _ IH]; simpl; [done|].
  rewrite (run_bind_return _ _ _ _ _ (run_get_group _ _ _ EX)).
  apply String.eqb_neq in Hne. by rewrite Hne.
Qed.

Lemma getGroupMetadata_no_match self groupName gs w :
  Forall (λ g, ∃ G, group_objs w !! g = Some G ∧ Group.name G ≠ groupName) gs →
  for_each gs
    (λ group,
       G ← get_group group;
       if String.eqb (Group.name G) groupName then
         P ← get_participant self;
         c ← getattr_client (Participant.client P) "setGroupMetadata";
         G ← get_group group;
         invoke c (WCI.setGroupMetadata (Group.metadata G) (Group.name G));;
         ret tt
       else ret tt) w = (Return tt, w).
Proof.
  induction 1 as [|g gs (G & EG & Hne) _ IH]; simpl; [done|].
  rewrite run_bind.
  rewrite (run_bind_return _ _ _ _ _ (run_get_group _ _ _ EG)).
  apply String.eqb_neq in Hne. rewrite Hne. py_step. apply IH.
Qed.

(** X10.  In a world reached from a fresh service, a participant that is in
    no group of a given name (whether or not the service has such a group)
    gets NotInGroupError for that name, printed as "You are not in group
    '<name>'.", from leaveGroup, groupMessage and getGroupMembers, while
    getGroupMetadata returns as if nothing were wrong.  None of the four
    changes anything or sends anything; in particular none creates the group,
    as joinGroup would. *)
Theorem outside_a_group
    (rs : list request) (self : pid) (P : Participant.t) (name : string)
    (message metadata : pyval) :
  participant_objs (run rs boot) !! self = Some P →
  (∀ g, group_named name g (run rs boot) → g ∉ Participant.groups P) →
  leaveGroup self name (run rs boot) =
    (Raise (NotInGroupError name None), run rs boot) ∧
  groupMessage self name message metadata (run rs boot) =
    (Raise (NotInGroupError name None), run rs boot) ∧
  getGroupMembers self name (run rs boot) =
    (Raise (NotInGroupError name None), run rs boot) ∧
  getGroupMetadata self name (run rs boot) = (Return tt, run rs boot) ∧
  error_str (NotInGroupError name None) =
    Some ("You are not in group '" +:+ name +:+ "'.").
Proof.
  set (w := run rs boot). intros EP Hout.
  pose proof (linked_reachable rs) as Hl.
  pose proof (registered_reachable rs) as Hr. fold w in Hl, Hr.
  assert (Forall (λ x, ∃ X, group_objs w !! x = Some X ∧ Group.name X ≠ name)
                 (Participant.groups P)) as Hall.
  { apply (groups_named_otherwise w self P); try done.
    intros x Hx Hnamed. by apply (Hout x). }
  split_and!.
  - unfold leaveGroup.
    rewrite (run_bind_return _ _ _ _ _ (run_get_participant _ _ _ EP)).
    rewrite <- (app_nil_r (Participant.groups P)).
    by rewrite leaveGroup_scan_skip.
  - unfold groupMessage.
    rewrite (run_bind_return _ _ _ _ _ (run_get_participant _ _ _ EP)).
    rewrite <- (app_nil_r (Participant.groups P)).
    by rewrite groupMessage_scan_skip.
  - unfold getGroupMembers.
    rewrite (run_bind_return _ _ _ _ _ (run_get_participant _ _ _ EP)).
    by rewrite (run_bind_return _ _ _ _ _
                  (getGroupMembers_no_match self name _ w Hall)).
  - unfold getGroupMetadata.
    rewrite (run_bind_return _ _ _ _ _ (run_get_participant _ _ _ EP)).
    by apply getGroupMetadata_no_match.
  - done.
Qed.

Lemma outside_a_group_witness :
  let rs := [CreateParticipant "alice"; CreateParticipant "bob";
             Attached 0 (Remote 7); JoinGroup 0 "lobby";
             JoinGroup 1 "lobby"; JoinGroup 1 "cellar"] in
  leaveGroup 0 "cellar" (run rs boot) =
    (Raise (NotInGroupError "cellar" None), run rs boot) ∧
  getGroupMetadata 0 "attic" (run rs boot) = (Return tt, run rs boot) ∧
  error_str (NotInGroupError "cellar" None) =
    Some "You are not in group 'cellar'.".
Proof.
  intros rs.
  assert (∀ name, name ≠ "lobby" →
            ∀ g, group_named name g (run rs boot) → g ∉ [0]) as Hout.
  { intros name Hne g Hnamed Hin. apply list_elem_of_singleton in Hin as ->.
    destruct (registered_group_named _ _ _ (registered_reachable rs) Hnamed)
      as (G & EG & Hname).
    change (Some (Group.with_members [0; 1] (Group.init "lobby")) = Some G)
      in EG.
    injection EG as <-. by apply Hne. }
  pose proof (outside_a_group rs 0
                (Participant.mk "alice" ONLINE [] [] [0] (Remote 7) "")
                "cellar" PNone PNone eq_refl
                (Hout "cellar" ltac:(discriminate)))
    as (Hleave & _ & _ & _ & Hstr).
  pose proof (outside_a_group rs 0
                (Participant.mk "alice" ONLINE [] [] [0] (Remote 7) "")
                "attic" PNone PNone eq_refl
                (Hout "attic" ltac:(discriminate)))
    as (_ & _ & _ & Hmeta & _).
  by split_and!.
Defined.

(** ** Messages *)

(** A remote client's Deferred is there when the errback is added. *)
Lemma invoke_then_addErrback c what eb w :
  ∃ w', (d ← invoke (Remote c) what;
         if truthy d then addErrback d eb else ret tt) w = (Return tt, w') ∧
        same_store w w' ∧
        sent w' = sent w ++ [(Remote c, what)] ∧
        deferreds w' = deferreds w ++ [[eb]].
Proof.
  eexists. split; [|split_and!].
  - rewrite run_bind. unfold invoke. cbn beta iota zeta. unfold addErrback.
    simpl. rewrite lookup_app_r by done. rewrite Nat.sub_diag. reflexivity.
  - done.
  - done.
  - simpl. rewrite insert_app_r_alt by done. by rewrite Nat.sub_diag.
Qed.

Lemma passed_on_or_empty_dict metadata :
  passed_on (or_empty_dict metadata) = passed_on metadata.
Proof.
  unfold passed_on, or_empty_dict.
  destruct (truthy metadata) eqn:E; [by rewrite E|done].
Qed.

(** An in-process client answers [None]: no errback is added. *)
Lemma invoke_in_process c what (k : pyval → Py unit) w :
  (d ← invoke (InProcess c) what; if truthy d then k d else ret tt) w =
    (Return tt, with_sent (sent w ++ [(InProcess c, what)]) w).
Proof. reflexivity. Qed.

Lemma receiveGroupMessage_exact m M self P g G message metadata w :
  participant_objs w !! m = Some M →
  (m ≠ self → Participant.client M ≠ Placeholder) →
  participant_objs w !! self = Some P →
  group_objs w !! g = Some G →
  ∃ w',
    receiveGroupMessage m (PParticipant self) (PGroup g) message metadata w
      = (Return tt, w') ∧
    same_store w w' ∧
    sent w' =
      sent w ++
      (if bool_decide (m ≠ self) then
         if client_truthy (Participant.client M)
         then [(Participant.client M,
                WCI.receiveGroupMessage (Participant.name P) (Group.name G)
                                        message (passed_on metadata))]
         else []
       else []).
Proof.
  intros EM Hc EP EG. unfold receiveGroupMessage.
  rewrite (run_bind_return _ _ _ _ _ (run_get_participant _ _ _ EM)).
  unfold is_not. destruct (decide (self = m)) as [<-|Hne].
  { rewrite bool_decide_eq_true_2 by done.
    rewrite bool_decide_eq_false_2 by (intros H; by apply H). simpl.
    exists w. split_and!; [done|apply same_store_refl|by rewrite app_nil_r]. }
  rewrite (bool_decide_eq_false_2 (self = m)) by done.
  rewrite bool_decide_eq_true_2 by congruence.
  assert (Participant.client M ≠ Placeholder) as Hc' by (apply Hc; congruence).
  unfold passed_on.
  destruct (Participant.client M) as [| |c|c]; simpl; try done.
  - exists w. split_and!; [done|apply same_store_refl|by rewrite app_nil_r].
  - destruct (truthy metadata).
    + rewrite run_bind. py_step. unfold getattr_name.
      rewrite run_bind.
      rewrite (run_bind_return _ _ _ _ _ (run_get_participant _ _ _ EP)).
      py_step. rewrite run_bind.
      rewrite (run_bind_return _ _ _ _ _ (run_get_group _ _ _ EG)).
      py_step.
      destruct (invoke_then_addErrback c
                  (WCI.receiveGroupMessage (Participant.name P) (Group.name G)
                                           message (Some metadata))
                  (mk_errback m m_receiveGroupMessage
                              [PParticipant self; PGroup g; message; PNone])
                  w) as (w' & E & Hs & Hsent & _).
      exists w'. by split_and!.
    + rewrite run_bind. py_step. unfold getattr_name.
      rewrite run_bind.
      rewrite (run_bind_return _ _ _ _ _ (run_get_participant _ _ _ EP)).
      py_step. rewrite run_bind.
      rewrite (run_bind_return _ _ _ _ _ (run_get_group _ _ _ EG)).
      py_step.
      destruct (invoke_returns (Remote c)
                  (WCI.receiveGroupMessage (Participant.name P) (Group.name G)
                                           message None) w)
        as (d & w' & E & Hs & Hsent).
      exists w'. by rewrite (run_bind_return _ _ _ _ _ E).
  - destruct (truthy metadata).
    + rewrite run_bind. py_step. unfold getattr_name.
      rewrite run_bind.
      rewrite (run_bind_return _ _ _ _ _ (run_get_participant _ _ _ EP)).
      py_step. rewrite run_bind.
      rewrite (run_bind_return _ _ _ _ _ (run_get_group _ _ _ EG)).
      py_step. rewrite invoke_in_process.
      eexists. split_and!; try done.
    + rewrite run_bind. py_step. unfold getattr_name.
      rewrite run_bind.
      rewrite (run_bind_return _ _ _ _ _ (run_get_participant _ _ _ EP)).
      py_step. rewrite run_bind.
      rewrite (run_bind_return _ _ _ _ _ (run_get_group _ _ _ EG)).
      py_step.
      destruct (invoke_returns (InProcess c)
                  (WCI.receiveGroupMessage (Participant.name P) (Group.name G)
                                           message None) w)
        as (d & w' & E & Hs & Hsent).
      exists w'. by rewrite (run_bind_return _ _ _ _ _ E).
Qed.

Lemma calls_to_others w what self ms :
  flat_map (λ m, if bool_decide (m ≠ self) then
                   if client_truthy (client_of w m)
                   then [(client_of w m, what)] else []
                 else []) ms =
    calls_to w what (filter (λ m, m ≠ self) ms).
Proof.
  induction ms as [|m ms IH]; [done|]. rewrite filter_cons. simpl.
  destruct (decide (m ≠ self)) as [Hne|Heq].
  - rewrite bool_decide_eq_true_2 by done. simpl. by rewrite IH.
  - rewrite bool_decide_eq_false_2 by done. simpl. by rewrite IH.
Qed.

(** The groups ahead of the first occurrence of [g] in a participant's
    [groups] bear another name than [g]'s. *)
Lemma groups_before_named_otherwise w self P g G pre post :
  linked w → registered w →
  participant_objs w !! self = Some P →
  group_objs w !! g = Some G →
  Participant.groups P = pre ++ g :: post → g ∉ pre →
  Forall (λ x, ∃ X, group_objs w !! x = Some X ∧ Group.name X ≠ Group.name G)
         pre.
Proof.
  intros Hl Hr EP EG Hsplit Hpre.
  apply (groups_named_otherwise w self P); try done.
  - intros x Hx. rewrite Hsplit. apply elem_of_app. by left.
  - intros x Hx Hnamed.
    destruct (registered_group_named w _ x Hr Hnamed) as (X & EX & HX).
    assert (x = g) as -> by by eapply registered_group_unique.
    done.
Qed.

(** X11.  In a world reached from a fresh service, groupMessage to a group
    the sender is in returns when no other member holds the placeholder: it
    sends receiveGroupMessage(name of the sender, group, message) once to
    every other member that has a client, in the order of [members], with the
    metadata when it is non-empty and without it otherwise.  The sender gets
    no copy, members without client are passed over, and no dict or object is
    changed. *)
Theorem groupMessage_reaches_the_others
    (rs : list request) (self : pid) (P : Participant.t)
    (g : gid) (G : Group.t) (message metadata : pyval) :
  participant_objs (run rs boot) !! self = Some P →
  group_objs (run rs boot) !! g = Some G →
  g ∈ Participant.groups P →
  all_callable (run rs boot) (filter (λ m, m ≠ self) (Group.members G)) →
  ∃ w',
    groupMessage self (Group.name G) message metadata (run rs boot)
      = (Return tt, w') ∧
    same_store (run rs boot) w' ∧
    sent w' =
      sent (run rs boot) ++
      calls_to (run rs boot)
        (WCI.receiveGroupMessage (Participant.name P) (Group.name G)
                                 message (passed_on metadata))
        (filter (λ m, m ≠ self) (Group.members G)).
Proof.
  set (w := run rs boot). intros EP EG Hin Hall.
  pose proof (linked_reachable rs) as Hl.
  pose proof (registered_reachable rs) as Hr. fold w in Hl, Hr.
  destruct (list_remove_split g _ Hin) as (pre & post & Hsplit & Hpre & _).
  set (what := WCI.receiveGroupMessage (Participant.name P) (Group.name G)
                 message (passed_on metadata)).
  destruct (for_each_sent (Group.members G)
              (λ member, receiveGroupMessage member (PParticipant self)
                           (PGroup g) message (or_empty_dict metadata))
              (λ m, if bool_decide (m ≠ self) then
                      if client_truthy (client_of w m)
                      then [(client_of w m, what)] else []
                    else []) w) with (w := w)
    as (w' & E & Hw' & Hsent); [|apply same_store_refl|].
  - intros m wm Hm (Hs & Hp & Hg).
    assert (∃ M, participant_objs w !! m = Some M ∧
                 (m ≠ self → Participant.client M ≠ Placeholder))
      as (M & EM & HM).
    { destruct (decide (m = self)) as [->|Hne]; [by exists P|].
      destruct (proj1 (Forall_forall _ _) Hall m) as (M & EM & HM).
      - by apply list_elem_of_filter.
      - by exists M. }
    destruct (receiveGroupMessage_exact m M self P g G message
                (or_empty_dict metadata) wm)
      as (w' & E & Hw' & Hsent); try done; try by rewrite ?Hp, ?Hg.
    exists w'. split_and!; [done| |].
    + eapply same_store_trans; [|exact Hw']. by repeat split.
    + rewrite Hsent, passed_on_or_empty_dict.
      by rewrite (client_of_lookup _ _ _ EM).
  - exists w'. split_and!; [|done|by rewrite Hsent, calls_to_others].
    unfold groupMessage.
    rewrite (run_bind_return _ _ _ _ _ (run_get_participant _ _ _ EP)).
    rewrite Hsplit, groupMessage_scan_skip
      by by eapply groups_before_named_otherwise.
    simpl.
    rewrite (run_bind_return _ _ _ _ _ (run_get_group _ _ _ EG)).
    rewrite String.eqb_refl. unfold sendMessage.
    by rewrite (run_bind_return _ _ _ _ _ (run_get_group _ _ _ EG)).
Qed.

Lemma groupMessage_reaches_the_others_witness :
  let rs := [CreateParticipant "alice"; CreateParticipant "bob";
             CreateParticipant "carol"; CreateParticipant "dave";
             Attached 0 (Remote 7); Attached 1 (InProcess 8);
             Attached 3 (Remote 9);
             JoinGroup 0 "lobby"; JoinGroup 1 "lobby"; JoinGroup 3 "lobby";
             Detached 3; JoinGroup 3 "lobby"] in
  ∃ w',
    groupMessage 0 "lobby" (PStr "hi") (PDict ∅) (run rs boot)
      = (Return tt, w') ∧
    sent w' =
      sent (run rs boot) ++
      [(InProcess 8, WCI.receiveGroupMessage "alice" "lobby" (PStr "hi")
                                             None)].
Proof.
  intros rs.
  destruct (groupMessage_reaches_the_others rs 0
              (Participant.mk "alice" ONLINE [] [] [0] (Remote 7) "")
              0 (Group.with_members [0; 1; 3] (Group.init "lobby"))
              (PStr "hi") (PDict ∅) eq_refl eq_refl)
    as (w' & E & _ & Hsent).
  - by apply list_elem_of_singleton.
  - change (all_callable (run rs boot) [1; 3]).
    constructor; [|constructor; [|constructor]].
    + exists (Participant.mk "bob" ONLINE [] [] [0] (InProcess 8) "").
      split; [reflexivity | discriminate].
    + exists (Participant.mk "dave" OFFLINE [] [] [0] NoClient "").
      split; [reflexivity | discriminate].
  - exists w'. split; [exact E | exact Hsent].
Defined.

(** X12.  directMessage looks the recipient up by name and hands it the
    message with the sender's name.  An unknown name gives
    UserNonexistantError and a recipient without client WrongStatusError
    (with the recipient's status and name), in both cases with nothing
    changed.  A recipient with a live client, the sender itself included, is
    sent exactly one receiveDirectMessage, with the metadata when it is
    non-empty and without it otherwise; only a remote client that was handed
    metadata gets the errback [receiveDirectMessage(sender name, message,
    None)] on the Deferred of that call. *)
Theorem directMessage_outcomes
    (w : World) (self : pid) (P : Participant.t) (recipientName : string)
    (message metadata : pyval) :
  participant_objs w !! self = Some P →
  (unknown_participant recipientName w →
     directMessage self recipientName message metadata w =
       (Raise (UserNonexistantError recipientName), w)) ∧
  (∀ r R,
     participant_named recipientName r w →
     participant_objs w !! r = Some R →
     (Participant.client R = NoClient →
        directMessage self recipientName message metadata w =
          (Raise (WrongStatusError (Participant.status R)
                                   (Participant.name R)), w)) ∧
     (live_session (Participant.client R) = true →
        ∃ w',
          directMessage self recipientName message metadata w
            = (Return tt, w') ∧
          same_store w w' ∧
          sent w' =
            sent w ++
            [(Participant.client R,
              WCI.receiveDirectMessage (Participant.name P) message
                                       (passed_on metadata))] ∧
          deferreds w' =
            deferreds w ++
            match Participant.client R with
            | Remote _ =>
                [if truthy metadata
                 then [mk_errback r m_receiveDirectMessage
                                  [PStr (Participant.name P); message; PNone]]
                 else []]
            | _ => []
            end)).
Proof.
  intros EP. split.
  { intros Hnone. unfold directMessage, unknown_participant in *.
    rewrite run_bind. unfold getPerspectiveNamed. by rewrite Hnone. }
  intros r R Hnamed ER.
  assert (directMessage self recipientName message metadata w =
            receiveDirectMessage r (PParticipant self) message
                                 (or_empty_dict metadata) w) as ->.
  { unfold directMessage, participant_named in *.
    rewrite run_bind. unfold getPerspectiveNamed. by rewrite Hnamed. }
  unfold receiveDirectMessage.
  rewrite (run_bind_return _ _ _ _ _ (run_get_participant _ _ _ ER)).
  split.
  { intros ->. done. }
  intros Hlive.
  assert (truthy (or_empty_dict metadata) = truthy metadata) as Htruthy.
  { unfold or_empty_dict. by destruct (truthy metadata) eqn:E. }
  assert (truthy metadata = true → or_empty_dict metadata = metadata)
    as Hsame.
  { unfold or_empty_dict. by intros ->. }
  rewrite Htruthy. unfold passed_on.
  destruct (Participant.client R) as [| |c|c]; simpl; try done.
  - destruct (truthy metadata) eqn:Et.
    + rewrite Hsame by done.
      rewrite run_bind. py_step. unfold getattr_name.
      rewrite run_bind.
      rewrite (run_bind_return _ _ _ _ _ (run_get_participant _ _ _ EP)).
      py_step. rewrite run_bind. unfold invoke. cbn beta iota zeta.
      cbn [truthy]. py_run. rewrite EP. unfold addErrback. simpl.
      rewrite lookup_app_r by done. rewrite Nat.sub_diag. simpl.
      eexists. split_and!; try done. simpl.
      rewrite insert_app_r_alt by done. by rewrite Nat.sub_diag.
    + rewrite run_bind. py_step. unfold getattr_name.
      rewrite run_bind.
      rewrite (run_bind_return _ _ _ _ _ (run_get_participant _ _ _ EP)).
      py_step. rewrite run_bind. unfold invoke. cbn beta iota zeta.
      py_step. eexists. by split_and!.
  - destruct (truthy metadata) eqn:Et.
    + rewrite Hsame by done.
      rewrite run_bind. py_step. unfold getattr_name.
      rewrite run_bind.
      rewrite (run_bind_return _ _ _ _ _ (run_get_participant _ _ _ EP)).
      py_step. rewrite invoke_in_process.
      eexists. split_and!; try done. simpl. by rewrite app_nil_r.
    + rewrite run_bind. py_step. unfold getattr_name.
      rewrite run_bind.
      rewrite (run_bind_return _ _ _ _ _ (run_get_participant _ _ _ EP)).
      py_step. rewrite run_bind. unfold invoke. cbn beta iota zeta.
      py_step. eexists. split_and!; try done. simpl. by rewrite app_nil_r.
Qed.

Lemma directMessage_outcomes_witness :
  let w := run [CreateParticipant "alice"; CreateParticipant "bob";
                Attached 1 (Remote 8)] boot in
  directMessage 0 "zed" (PStr "hi") PNone w =
    (Raise (UserNonexistantError "zed"), w) ∧
  directMessage 1 "alice" (PStr "hi") PNone w =
    (Raise (WrongStatusError OFFLINE "alice"), w) ∧
  ∃ w',
    directMessage 0 "bob" (PStr "hi") (PStr "emote") w = (Return tt, w') ∧
    sent w' =
      sent w ++
      [(Remote 8, WCI.receiveDirectMessage "alice" (PStr "hi")
                                           (Some (PStr "emote")))] ∧
    deferreds w' =
      deferreds w ++
      [[mk_errback 1 m_receiveDirectMessage
                   [PStr "alice"; PStr "hi"; PNone]]].
Proof.
  intros w.
  pose proof (directMessage_outcomes w 0
                (Participant.mk "alice" OFFLINE [] [] [] NoClient "")
                "zed" (PStr "hi") PNone eq_refl) as [Hzed _].
  pose proof (directMessage_outcomes w 1
                (Participant.mk "bob" ONLINE [] [] [] (Remote 8) "")
                "alice" (PStr "hi") PNone eq_refl) as [_ Halice].
  destruct (Halice 0 (Participant.mk "alice" OFFLINE [] [] [] NoClient "")
              eq_refl eq_refl) as [Hnone _].
  pose proof (directMessage_outcomes w 0
                (Participant.mk "alice" OFFLINE [] [] [] NoClient "")
                "bob" (PStr "hi") (PStr "emote") eq_refl) as [_ Hbob].
  destruct (Hbob 1 (Participant.mk "bob" ONLINE [] [] [] (Remote 8) "")
              eq_refl eq_refl) as [_ Hlive].
  destruct (Hlive eq_refl) as (w' & E & _ & Hsent & Hdef).
  split; [exact (Hzed eq_refl)|]. split; [exact (Hnone eq_refl)|].
  exists w'. split; [exact E|]. split; [exact Hsent | exact Hdef].
Defined.

(** ** Group metadata *)

Lemma run_update_group g f w G :
  group_objs w !! g = Some G →
  update_group g f w =
    (Return tt, with_group_objs (<[g := f G]> (group_objs w)) w).
Proof. intros EG. unfold update_group. py_run. by rewrite EG. Qed.

(** X13.  Group.setMetadata, when no member holds the placeholder, returns
    with the given entries merged into the group's metadata: a key of the
    argument takes the argument's value, every other key keeps its old one,
    and name and members stay.  Each member that has a client is then sent
    setGroupMetadata once, in the order of [members], with the argument
    alone, not the merged metadata. *)
Theorem setMetadata_merges_and_pushes_the_update
    (w : World) (g : gid) (G : Group.t) (dict_ : gmap string string) :
  group_objs w !! g = Some G →
  all_callable w (Group.members G) →
  ∃ w' G',
    setMetadata g dict_ w = (Return tt, w') ∧
    service w' = service w ∧
    participant_objs w' = participant_objs w ∧
    group_objs w' = (<[g := G']> (group_objs w)) ∧
    Group.name G' = Group.name G ∧
    Group.members G' = Group.members G ∧
    (∀ k v, dict_ !! k = Some v → Group.metadata G' !! k = Some v) ∧
    (∀ k, dict_ !! k = None →
          Group.metadata G' !! k = Group.metadata G !! k) ∧
    sent w' =
      sent w ++
      calls_to w (WCI.setGroupMetadata dict_ (Group.name G))
               (Group.members G).
Proof.
  intros EG Hall. unfold setMetadata.
  rewrite (run_bind_return _ _ _ _ _ (run_update_group _ _ _ _ EG)).
  set (G1 := Group.with_metadata (dict_ ∪ Group.metadata G) G).
  set (w1 := with_group_objs _ w).
  assert (group_objs w1 !! g = Some G1) as EG1.
  { apply list_lookup_insert_eq. by eapply lookup_lt_Some. }
  rewrite (run_bind_return _ _ _ _ _ (run_get_group _ _ _ EG1)).
  destruct (for_each_sent (Group.members G1)
              (λ member, setGroupMetadata member dict_ (Group.name G1))
              (λ m, if client_truthy (client_of w m)
                    then [(client_of w m,
                           WCI.setGroupMetadata dict_ (Group.name G))]
                    else []) w1) with (w := w1)
    as (w' & E & (Hs & Hp & Hg) & Hsent); [|apply same_store_refl|].
  - intros m wm Hin (Hs & Hp & Hg).
    destruct (proj1 (Forall_forall _ _) Hall m Hin) as (M & EM & HM).
    destruct (setGroupMetadata_exact m dict_ (Group.name G1) wm M)
      as (w' & E & Hw' & Hsent); [by rewrite Hp|done|].
    exists w'. split_and!; [done| |].
    + eapply same_store_trans; [|exact Hw']. by repeat split.
    + by rewrite Hsent, (client_of_lookup _ _ _ EM).
  - exists w', G1. split_and!; try done.
    + intros k v Hk. simpl. by apply lookup_union_Some_l.
    + intros k Hk. simpl. by apply lookup_union_r.
Qed.

Lemma setMetadata_merges_and_pushes_the_update_witness :
  let w := run [CreateParticipant "alice"; CreateParticipant "bob";
                Attached 0 (Remote 7); JoinGroup 0 "lobby";
                JoinGroup 1 "lobby"] boot in
  ∃ w' G',
    setMetadata 0 {[ "topic" := "Tea" ]} w = (Return tt, w') ∧
    group_objs w' = [G'] ∧
    Group.metadata G' !! "topic" = Some "Tea" ∧
    Group.metadata G' !! "topic_author" = Some "admin" ∧
    sent w' =
      sent w ++
      [(Remote 7, WCI.setGroupMetadata {[ "topic" := "Tea" ]} "lobby")].
Proof.
  intros w.
  destruct (setMetadata_merges_and_pushes_the_update w 0
              (Group.with_members [0; 1] (Group.init "lobby"))
              {[ "topic" := "Tea" ]} eq_refl)
    as (w' & G' & E & _ & _ & Hg & _ & _ & Hnew & Hold & Hsent).
  - constructor; [|constructor; [|constructor]].
    + exists (Participant.mk "alice" ONLINE [] [] [0] (Remote 7) "").
      split; [reflexivity | discriminate].
    + exists (Participant.mk "bob" OFFLINE [] [] [0] NoClient "").
      split; [reflexivity | discriminate].
  - exists w', G'. split; [exact E|]. split; [exact Hg|].
    split; [exact (Hnew "topic" "Tea" eq_refl)|].
    split; [exact (Hold "topic_author" eq_refl)|exact Hsent].
Defined.

(** ** A participant is in a group at most once *)

Global Instance single_membership_ignores_wire :
  IgnoresWire single_membership.
Proof. by split. Qed.

Lemma occurrences_NoDup xs : NoDup xs ↔ ∀ x, occurrences x xs ≤ 1.
Proof.
  induction xs as [|y xs IH]; simpl.
  - split; [intros _ x; lia | intros _; constructor].
  - rewrite NoDup_cons, IH. split.
    + intros [Hy Hxs] x. destruct (decide (y = x)) as [<-|]; [|apply Hxs].
      apply occurrences_zero in Hy. lia.
    + intros H. split.
      * apply occurrences_zero. specialize (H y).
        rewrite decide_True in H by done. lia.
      * intros x. specialize (H x). destruct (decide (y = x)); lia.
Qed.

Lemma list_remove_NoDup x xs xs' :
  list_remove x xs = Some xs' → NoDup xs → NoDup xs'.
Proof.
  intros Hr. rewrite !occurrences_NoDup. intros H y.
  specialize (H y). rewrite (list_remove_occurrences _ _ _ y Hr) in H. lia.
Qed.

Lemma single_put_participant p P' w :
  single_membership w → NoDup (Participant.groups P') →
  single_membership (put_participant p P' w).2.
Proof.
  unfold single_membership. simpl. intros H HP.
  apply Forall_forall. intros Q HQ.
  apply list_elem_of_lookup in HQ as [i HQ].
  destruct (decide (i = p)) as [->|Hne].
  - destruct (decide (p < length (participant_objs w))) as [Hlt|Hge].
    + rewrite list_lookup_insert_eq in HQ by done. by injection HQ as <-.
    + rewrite list_insert_ge in HQ by lia.
      by eapply (proj1 (Forall_forall _ _) H), list_elem_of_lookup_2.
  - rewrite list_lookup_insert_ne in HQ by done.
    by eapply (proj1 (Forall_forall _ _) H), list_elem_of_lookup_2.
Qed.

Lemma single_lookup w p P :
  single_membership w → participant_objs w !! p = Some P →
  NoDup (Participant.groups P).
Proof.
  intros H EP. by eapply (proj1 (Forall_forall _ _) H), list_elem_of_lookup_2.
Qed.

Lemma single_update_participant p f :
  (∀ P, Participant.groups (f P) = Participant.groups P) →
  preserves single_membership (update_participant p f).
Proof.
  intros Hf w H. unfold update_participant. rewrite run_bind.
  unfold get_participant.
  destruct (participant_objs w !! p) as [P|] eqn:E; [|done].
  apply single_put_participant; [done|]. rewrite Hf.
  by apply (single_lookup w p).
Qed.

Lemma single_update_group g f :
  preserves single_membership (update_group g f).
Proof.
  intros w H. unfold update_group. rewrite run_bind. unfold get_group.
  by destruct (group_objs w !! g).
Qed.

Section Single.
Local Hint Extern 1 (KeptByClients _) => apply _ : preserves.
Local Hint Extern 1
    (preserves single_membership (update_participant _ _)) =>
  apply single_update_participant; intros []; reflexivity : preserves.
Local Hint Resolve single_update_group preserves_invoke
  preserves_notifyStatusChanged preserves_setGroupMetadata
  preserves_memberJoined preserves_memberLeft : preserves.

Lemma single_changeStatus self newStatus :
  preserves single_membership (changeStatus self newStatus).
Proof. unfold changeStatus. preserves_auto. Qed.

Lemma single_attached self client identity :
  preserves single_membership (attached self client identity).
Proof. unfold attached. preserves_auto. apply single_changeStatus. Qed.

Lemma single_setMetadata g dict_ :
  preserves single_membership (setMetadata g dict_).
Proof. unfold setMetadata. preserves_auto. Qed.

Lemma single_addContact self contactName :
  preserves single_membership (addContact self contactName).
Proof. unfold addContact. preserves_auto. Qed.

Lemma single_removeMember g p :
  preserves single_membership (removeMember g p).
Proof.
  intros w H. unfold removeMember. rewrite run_bind. unfold get_group.
  destruct (group_objs w !! g) as [G|] eqn:E; [|done]. py_step.
  destruct (list_remove p (Group.members G)) as [rest|].
  - rewrite run_bind. unfold put_group at 1. py_step.
    apply preserves_for_each; [|done]. intros m.
    apply preserves_memberLeft, _.
  - rewrite run_bind. unfold get_participant.
    by destruct (participant_objs w !! p).
Qed.

Lemma single_leaveGroup_scan self name todo :
  preserves single_membership (leaveGroup_scan self name todo).
Proof.
  induction todo as [|g todo IH]; intros w H; simpl; [done|].
  rewrite run_bind. unfold get_group at 1.
  destruct (group_objs w !! g) as [G|]; [|done]. py_step.
  destruct (String.eqb (Group.name G) name); [|by apply IH].
  rewrite run_bind. unfold get_participant at 1.
  destruct (participant_objs w !! self) as [P|] eqn:EP; [|done]. py_step.
  destruct (list_remove g (Participant.groups P)) as [gs|] eqn:Egs; [|done].
  rewrite run_bind.
  assert (NoDup gs) as Hgs.
  { eapply list_remove_NoDup; [exact Egs|]. by apply (single_lookup w self). }
  pose proof (single_put_participant self (Participant.with_groups gs P) w H
                Hgs) as H1.
  destruct (put_participant self _ w) as [[[]|e] w1]; [|done]. simpl in H1.
  by apply single_removeMember.
Qed.

Lemma single_leaveGroup self name :
  preserves single_membership (leaveGroup self name).
Proof. unfold leaveGroup. preserves_auto. apply single_leaveGroup_scan. Qed.

Lemma single_detached self client identity :
  preserves single_membership (detached self client identity).
Proof.
  unfold detached. preserves_auto.
  - apply single_leaveGroup.
  - apply single_changeStatus.
Qed.

Lemma single_removeContact_scan self contactName todo :
  preserves single_membership (removeContact_scan self contactName todo).
Proof.
  induction todo as [|c todo IH]; intros w H; simpl; [done|].
  rewrite run_bind. unfold get_participant at 1.
  destruct (participant_objs w !! c) as [C0|]; [|done]. py_step.
  destruct (String.eqb (Participant.name C0) contactName); [|by apply IH].
  rewrite run_bind. unfold get_participant at 1.
  destruct (participant_objs w !! self) as [P|] eqn:EP; [|done]. py_step.
  destruct (list_remove c (Participant.contacts P)) as [cs|]; [|done].
  rewrite run_bind.
  pose proof (single_put_participant self (Participant.with_contacts cs P)
                w H (single_lookup w self P H EP)) as H1.
  destruct (put_participant self _ w) as [[[]|e] w1]; [|done]. simpl in H1.
  rewrite run_bind. unfold get_participant.
  destruct (participant_objs w1 !! c) as [C|] eqn:EC; [|done]. py_step.
  destruct (list_remove self (Participant.reverseContacts C)) as [rs|];
    [|done].
  apply single_put_participant; [done|]. exact (single_lookup w1 c C H1 EC).
Qed.

Lemma single_removeContact self contactName :
  preserves single_membership (removeContact self contactName).
Proof.
  unfold removeContact. preserves_auto. apply single_removeContact_scan.
Qed.

Lemma single_joinGroup self name :
  preserves single_membership (joinGroup self name).
Proof.
  intros w H. unfold joinGroup. rewrite run_bind.
  assert (single_membership (getGroup name w).2) as H0.
  { unfold getGroup. by destruct (Service.groups (service w) !! name). }
  destruct (getGroup name w) as [[g|e] w0]; [|done]. simpl in H0.
  rewrite run_bind. unfold get_participant at 1.
  destruct (participant_objs w0 !! self) as [P|] eqn:EP; [|done]. py_step.
  destruct (decide (g ∈ Participant.groups P)) as [Hin|Hnew].
  { by rewrite bool_decide_eq_true_2. }
  rewrite bool_decide_eq_false_2 by done. rewrite run_bind.
  destruct (addMember g self w0) as [r w1] eqn:Eadd.
  destruct (addMember_store _ _ _ _ _ Eadd) as (_ & Hp & _).
  assert (single_membership w1) as H1.
  { unfold single_membership. by rewrite Hp. }
  destruct r as [[]|e]; [|done].
  unfold update_participant. rewrite run_bind. unfold get_participant.
  rewrite Hp, EP. py_step. apply single_put_participant; [done|]. simpl.
  apply NoDup_app. split_and!.
  - by apply (single_lookup w0 self).
  - intros x Hx ->%list_elem_of_singleton. done.
  - apply NoDup_singleton.
Qed.

Lemma single_createParticipant name :
  preserves single_membership (createParticipant name).
Proof.
  intros w H. unfold createParticipant.
  destruct (Service.participants (service w) !! name); [done|]. simpl.
  apply Forall_app. split; [done|]. repeat constructor.
Qed.

Lemma single_perform r : preserves single_membership (perform r).
Proof.
  destruct r; simpl.
  - apply preserves_bind; [apply single_createParticipant|].
    intros. apply preserves_ret.
  - preserves_auto. apply single_attached.
  - apply single_detached.
  - apply single_changeStatus.
  - apply single_addContact.
  - apply single_removeContact.
  - apply single_joinGroup.
  - apply single_leaveGroup.
  - apply preserves_getGroupMembers, _.
  - apply preserves_getGroupMetadata, _.
  - apply preserves_directMessage, _.
  - apply preserves_groupMessage, _.
  - apply single_setMetadata.
  - preserves_auto. apply preserves_fail_deferred, _.
Qed.
End Single.

Lemma single_reachable rs : single_membership (run rs boot).
Proof.
  assert (∀ w, single_membership w → single_membership (run rs w)) as H;
    [|apply H; constructor].
  induction rs as [|r rs IH]; intros w H; simpl; [done|].
  apply IH. by apply single_perform.
Qed.

(** X14.  In every world reached from a fresh service no membership is
    doubled: a participant's [groups] holds no group twice and a group's
    [members] holds no participant twice, whatever was requested and whatever
    failed on the way. *)
Theorem memberships_are_never_doubled
    (rs : list request) (p : pid) (g : gid) :
  NoDup (groups_of (run rs boot) p) ∧ NoDup (members_of (run rs boot) g).
Proof.
  pose proof (linked_reachable rs) as Hl.
  pose proof (single_reachable rs) as Hs.
  assert (∀ q, NoDup (groups_of (run rs boot) q)) as Hgroups.
  { intros q. unfold groups_of, list_field.
    destruct (participant_objs (run rs boot) !! q) as [Q|] eqn:EQ;
      [|constructor].
    exact (single_lookup _ q Q Hs EQ). }
  split; [done|]. apply occurrences_NoDup. intros q.
  rewrite <- (linked_groups _ Hl q g).
  by apply occurrences_NoDup.
Qed.

Lemma memberships_are_never_doubled_witness :
  let rs := [CreateParticipant "alice"; JoinGroup 0 "lobby";
             JoinGroup 0 "lobby"; Attached 0 (Remote 7);
             JoinGroup 0 "lobby"] in
  NoDup (groups_of (run rs boot) 0) ∧ NoDup (members_of (run rs boot) 0).
Proof.
  intros rs. exact (memberships_are_never_doubled rs 0 0).
Defined.

(** ** getGroupMetadata *)

Lemma for_each_app {A} (xs ys : list A) (body : A → Py unit) w :
  for_each (xs ++ ys) body w = (for_each xs body;; for_each ys body) w.
Proof.
  revert w. induction xs as [|x xs IH]; intros w; simpl; [done|].
  rewrite !run_bind. destruct (body x w) as [[[]|e] w1]; [|done].
  rewrite IH. by rewrite run_bind.
Qed.

(** X15.  In a world reached from a fresh service, getGroupMetadata for a
    group the participant is in returns after one setGroupMetadata call to
    the participant's own client, carrying the group's whole metadata, when
    that client is live; nothing else changes.  Without a live client it
    raises AttributeError, since here the client is used unguarded, and
    leaves the world as it was. *)
Theorem getGroupMetadata_pushes_once
    (rs : list request) (self : pid) (P : Participant.t)
    (g : gid) (G : Group.t) :
  participant_objs (run rs boot) !! self = Some P →
  group_objs (run rs boot) !! g = Some G →
  g ∈ Participant.groups P →
  (live_session (Participant.client P) = true →
     getGroupMetadata self (Group.name G) (run rs boot) =
       (Return tt,
        delivered (Participant.client P)
                  (WCI.setGroupMetadata (Group.metadata G) (Group.name G))
                  (run rs boot))) ∧
  (live_session (Participant.client P) = false →
     getGroupMetadata self (Group.name G) (run rs boot) =
       (Raise (AttributeError "setGroupMetadata"), run rs boot)).
Proof.
  set (w := run rs boot). intros EP EG Hin.
  pose proof (linked_reachable rs) as Hl.
  pose proof (registered_reachable rs) as Hr.
  pose proof (single_reachable rs) as Hs. fold w in Hl, Hr, Hs.
  destruct (list_remove_split g _ Hin) as (pre & post & Hsplit & Hpre & _).
  pose proof (single_lookup w self P Hs EP) as Hnodup.
  rewrite Hsplit in Hnodup.
  apply NoDup_app in Hnodup as (_ & _ & [Hpost _]%NoDup_cons).
  pose proof (groups_before_named_otherwise w self P g G pre post
                Hl Hr EP EG Hsplit Hpre) as Hbefore.
  assert (Forall (λ x, ∃ X, group_objs w !! x = Some X ∧
                            Group.name X ≠ Group.name G) post) as Hafter.
  { apply (groups_named_otherwise w self P); try done.
    - intros x Hx. rewrite Hsplit. apply elem_of_app. right. by right.
    - intros x Hx Hnamed.
      destruct (registered_group_named w _ x Hr Hnamed) as (X & EX & HX).
      assert (x = g) as -> by by eapply registered_group_unique.
      done. }
  unfold getGroupMetadata.
  rewrite !(run_bind_return _ _ _ _ _ (run_get_participant _ _ _ EP)).
  match goal with |- context [for_each _ ?b] => set (body := b) end.
  assert (∀ w1, group_objs w1 = group_objs w →
                for_each post body w1 = (Return tt, w1)) as Hrest.
  { intros w1 Hg. apply getGroupMetadata_no_match. by rewrite Hg. }
  rewrite Hsplit, !for_each_app.
  rewrite !(run_bind_return _ _ _ _ _
              (getGroupMetadata_no_match self _ pre w Hbefore)).
  simpl for_each.
  split; intros Hlive.
  - assert (body g w =
              (Return tt,
               delivered (Participant.client P)
                 (WCI.setGroupMetadata (Group.metadata G) (Group.name G)) w))
      as Hbody.
    { subst body. cbn beta.
      rewrite (run_bind_return _ _ _ _ _ (run_get_group _ _ _ EG)).
      rewrite String.eqb_refl.
      rewrite (run_bind_return _ _ _ _ _ (run_get_participant _ _ _ EP)).
      rewrite (run_bind_return _ _ _ _ _ (getattr_client_live _ _ _ Hlive)).
      rewrite (run_bind_return _ _ _ _ _ (run_get_group _ _ _ EG)).
      destruct (invoke_delivered (Participant.client P)
                  (WCI.setGroupMetadata (Group.metadata G) (Group.name G)) w)
        as [d Ed].
      by rewrite (run_bind_return _ _ _ _ _ Ed). }
    rewrite (run_bind_return _ _ _ _ _ Hbody).
    apply Hrest. apply delivered_same_store.
  - assert (body g w = (Raise (AttributeError "setGroupMetadata"), w))
      as Hbody.
    { subst body. cbn beta.
      rewrite (run_bind_return _ _ _ _ _ (run_get_group _ _ _ EG)).
      rewrite String.eqb_refl.
      rewrite (run_bind_return _ _ _ _ _ (run_get_participant _ _ _ EP)).
      by rewrite (run_bind_raise _ _ _ _ _
                    (getattr_client_not_live _ _ _ Hlive)). }
    by rewrite (run_bind_raise _ _ _ _ _ Hbody).
Qed.

Lemma getGroupMetadata_pushes_once_witness :
  let rs := [CreateParticipant "alice"; CreateParticipant "bob";
             Attached 0 (InProcess 7); JoinGroup 0 "lobby";
             JoinGroup 0 "cellar"; JoinGroup 1 "cellar"] in
  getGroupMetadata 0 "cellar" (run rs boot) =
    (Return tt,
     delivered (InProcess 7)
       (WCI.setGroupMetadata {[ "topic" := "Welcome to cellar!";
                                "topic_author" := "admin" ]} "cellar")
       (run rs boot)) ∧
  getGroupMetadata 1 "cellar" (run rs boot) =
    (Raise (AttributeError "setGroupMetadata"), run rs boot).
Proof.
  intros rs. split.
  - refine (proj1 (getGroupMetadata_pushes_once rs 0
                     (Participant.mk "alice" ONLINE [] [] [0; 1]
                                     (InProcess 7) "")
                     1 (Group.with_members [0; 1] (Group.init "cellar"))
                     eq_refl eq_refl _) eq_refl).
    apply elem_of_cons. right. by apply list_elem_of_singleton.
  - refine (proj2 (getGroupMetadata_pushes_once rs 1
                     (Participant.mk "bob" OFFLINE [] [] [1] NoClient "")
                     1 (Group.with_members [0; 1] (Group.init "cellar"))
                     eq_refl eq_refl _) eq_refl).
    by apply list_elem_of_singleton.
Defined.

(** ** What the exceptions print *)

Lemma string_app_assoc (s1 s2 s3 : string) :
  (s1 +:+ s2) +:+ s3 = s1 +:+ s2 +:+ s3.
Proof.
  induction s1 as [|a s1 IH]; [done|].
  change (String a ((s1 +:+ s2) +:+ s3) = String a (s1 +:+ s2 +:+ s3)).
  by f_equal.
Qed.

Lemma name_given_Some p : p ≠ "" → name_given (Some p) = Some p.
Proof.
  intros Hp. unfold name_given. apply String.eqb_neq in Hp. by rewrite Hp.
Qed.

(** X16.  WrongStatusError.__str__ names the status only when it is one of
    the strings of [statuses]: "Offline", "Online" or "Away" print as they
    are, any other string prints as 'unknown? (<string>)', and a number, as
    the constants OFFLINE, ONLINE and AWAY are, prints as
    'unknown? (<number>)'.  receiveDirectMessage raises the error with the
    recipient's stored status, so for a recipient without client whose
    status is a number a direct message fails with
    "'<name>' status is 'unknown? (<number>)'.". *)
Theorem wrong_status_names_only_listed_strings (pName : string) :
  pName ≠ "" →
  (∀ s, s ∈ statuses →
        WrongStatusError_str (StrStatus s) (Some pName) =
          "'" +:+ pName +:+ "' status is '" +:+ s +:+ "'.") ∧
  (∀ s, s ∉ statuses →
        WrongStatusError_str (StrStatus s) (Some pName) =
          "'" +:+ pName +:+ "' status is 'unknown? (" +:+ s +:+ ")'.") ∧
  (∀ n, WrongStatusError_str (IntStatus n) (Some pName) =
          "'" +:+ pName +:+ "' status is 'unknown? (" +:+ pretty n +:+
          ")'.") ∧
  (∀ w self r R recipientName message metadata,
     participant_named recipientName r w →
     participant_objs w !! r = Some R →
     Participant.client R = NoClient →
     Participant.name R = pName →
     directMessage self recipientName message metadata w =
       (Raise (WrongStatusError (Participant.status R) pName), w) ∧
     WrongStatusError_str (IntStatus (Participant.status R)) (Some pName) =
       "'" +:+ pName +:+ "' status is 'unknown? (" +:+
       pretty (Participant.status R) +:+ ")'.").
Proof.
  intros Hname.
  assert (∀ n, WrongStatusError_str (IntStatus n) (Some pName) =
               "'" +:+ pName +:+ "' status is 'unknown? (" +:+ pretty n +:+
               ")'.") as Hint.
  { intros n. unfold WrongStatusError_str. rewrite name_given_Some by done.
    cbv zeta. simpl. by rewrite !string_app_assoc. }
  split_and!.
  - intros s Hs. unfold WrongStatusError_str.
    rewrite name_given_Some by done. cbv zeta. simpl.
    rewrite bool_decide_eq_true_2 by done. by rewrite !string_app_assoc.
  - intros s Hs. unfold WrongStatusError_str.
    rewrite name_given_Some by done. cbv zeta. simpl.
    rewrite bool_decide_eq_false_2 by done. by rewrite !string_app_assoc.
  - done.
  - intros w self r R recipientName message metadata Hnamed ER Hc <-.
    split; [|done].
    unfold directMessage, participant_named in *. rewrite run_bind.
    unfold getPerspectiveNamed. rewrite Hnamed. cbn beta iota.
    unfold receiveDirectMessage.
    rewrite (run_bind_return _ _ _ _ _ (run_get_participant _ _ _ ER)).
    by rewrite Hc.
Qed.

Lemma wrong_status_names_only_listed_strings_witness :
  let w := run [CreateParticipant "alice"; CreateParticipant "bob";
                ChangeStatus 1 AWAY] boot in
  WrongStatusError_str (StrStatus "Away") (Some "bob") =
    "'bob' status is 'Away'." ∧
  WrongStatusError_str (StrStatus "Busy") (Some "bob") =
    "'bob' status is 'unknown? (Busy)'." ∧
  directMessage 0 "bob" (PStr "hi") PNone w =
    (Raise (WrongStatusError AWAY "bob"), w) ∧
  WrongStatusError_str (IntStatus AWAY) (Some "bob") =
    "'bob' status is 'unknown? (2)'.".
Proof.
  intros w.
  destruct (wrong_status_names_only_listed_strings "bob" ltac:(discriminate))
    as (Hlisted & Hother & _ & Hdirect).
  split; [apply (Hlisted "Away"); by do 2 right; left|].
  split.
  { apply (Hother "Busy"). intros Hin.
    repeat (apply elem_of_cons in Hin as [Hin|Hin]; [discriminate|]).
    by apply elem_of_nil in Hin. }
  exact (Hdirect w 0 1 (Participant.mk "bob" AWAY [] [] [] NoClient "")
           "bob" (PStr "hi") PNone eq_refl eq_refl eq_refl eq_refl).
Defined.

(** X17.  Group.removeMember of a participant that is not a member raises
    NotInGroupError with the group's and the participant's name, printed as
    "'<participant>' is not in group '<group>'." when the participant's name
    is not empty, and leaves the world as it was: nobody is notified. *)
Theorem removeMember_of_a_stranger
    (w : World) (g : gid) (G : Group.t) (p : pid) (P : Participant.t) :
  group_objs w !! g = Some G →
  participant_objs w !! p = Some P →
  p ∉ Group.members G →
  Participant.name P ≠ "" →
  ∃ e,
    removeMember g p w = (Raise e, w) ∧
    e = NotInGroupError (Group.name G) (Some (Participant.name P)) ∧
    error_str e =
      Some ("'" +:+ Participant.name P +:+ "' is not in group '" +:+
            Group.name G +:+ "'.").
Proof.
  intros EG EP Hout Hname. eexists. split_and!; [|reflexivity|].
  - unfold removeMember.
    rewrite (run_bind_return _ _ _ _ _ (run_get_group _ _ _ EG)).
    rewrite (proj2 (list_remove_None _ _) Hout).
    by rewrite (run_bind_return _ _ _ _ _ (run_get_participant _ _ _ EP)).
  - simpl. unfold NotInGroupError_str. rewrite name_given_Some by done.
    cbv zeta. simpl. by rewrite !string_app_assoc.
Qed.

Lemma removeMember_of_a_stranger_witness :
  let w := run [CreateParticipant "alice"; CreateParticipant "bob";
                JoinGroup 0 "lobby"] boot in
  ∃ e,
    removeMember 0 1 w = (Raise e, w) ∧
    e = NotInGroupError "lobby" (Some "bob") ∧
    error_str e = Some "'bob' is not in group 'lobby'.".
Proof.
  intros w.
  refine (removeMember_of_a_stranger w 0
            (Group.with_members [0] (Group.init "lobby")) 1
            (Participant.mk "bob" OFFLINE [] [] [] NoClient "")
            eq_refl eq_refl _ ltac:(discriminate)).
  intros Hin. apply list_elem_of_singleton in Hin. discriminate.
Defined.

(** ** Snapshots *)

Lemma persisted_participant w p :
  participant_objs (persisted w) !! p =
    Participant__getstate__ <$> participant_objs w !! p.
Proof. unfold persisted. simpl. apply list_lookup_fmap. Qed.

Lemma persisted_group w g :
  group_objs (persisted w) !! g = Group__getstate__ <$> group_objs w !! g.
Proof. unfold persisted. simpl. apply list_lookup_fmap. Qed.

Lemma persisted_contacts w p :
  contacts_of (persisted w) p = contacts_of w p.
Proof.
  unfold contacts_of, list_field. rewrite persisted_participant.
  by destruct (participant_objs w !! p).
Qed.

Lemma persisted_reverseContacts w p :
  reverseContacts_of (persisted w) p = reverseContacts_of w p.
Proof.
  unfold reverseContacts_of, list_field. rewrite persisted_participant.
  by destruct (participant_objs w !! p).
Qed.

Lemma persisted_groups w p : groups_of (persisted w) p = [].
Proof.
  unfold groups_of, list_field. rewrite persisted_participant.
  by destruct (participant_objs w !! p).
Qed.

Lemma persisted_members w g : members_of (persisted w) g = [].
Proof.
  unfold members_of, list_field. rewrite persisted_group.
  by destruct (group_objs w !! g).
Qed.

(** X18.  What is saved of a world reached from a fresh service, every
    participant and group by its __getstate__, is a consistent service
    again: the two __getstate__ agree, one emptying every [groups] and the
    other every [members], so the memberships match on both sides; contacts
    and reverse contacts are kept and still match; every name still leads to
    the object that bears it; and every participant is saved OFFLINE and
    without client, so that nobody is locked out by the duplicate-login
    check after a restart. *)
Theorem snapshot_is_consistent (rs : list request) :
  linked (persisted (run rs boot)) ∧
  registered (persisted (run rs boot)) ∧
  (∀ p, groups_of (persisted (run rs boot)) p = [] ∧
        contacts_of (persisted (run rs boot)) p = contacts_of (run rs boot) p ∧
        reverseContacts_of (persisted (run rs boot)) p =
          reverseContacts_of (run rs boot) p) ∧
  (∀ g, members_of (persisted (run rs boot)) g = []) ∧
  (∀ p P, participant_objs (persisted (run rs boot)) !! p = Some P →
          Participant.status P = OFFLINE ∧
          Participant.client P = NoClient ∧
          live_session (Participant.client P) = false).
Proof.
  set (w := run rs boot).
  pose proof (linked_reachable rs) as Hl.
  pose proof (registered_reachable rs) as Hr. fold w in Hl, Hr.
  split_and!.
  - split.
    + intros n p Hn. unfold persisted. simpl. rewrite length_fmap.
      by apply (linked_names _ Hl n).
    + intros a b. rewrite persisted_contacts, persisted_reverseContacts.
      apply (linked_contacts _ Hl).
    + intros p g. by rewrite persisted_groups, persisted_members.
  - apply (registered_view w); [|done].
    unfold names_view, persisted. simpl. f_equal; [f_equal|].
    + rewrite <- list_fmap_compose. by apply list_fmap_ext.
    + rewrite <- list_fmap_compose. by apply list_fmap_ext.
  - intros p. by rewrite persisted_groups, persisted_contacts,
      persisted_reverseContacts.
  - intros g. apply persisted_members.
  - intros p P. rewrite persisted_participant.
    destruct (participant_objs w !! p) as [P0|]; [|done].
    by intros [= <-].
Qed.

Lemma snapshot_is_consistent_witness :
  let rs := [CreateParticipant "alice"; CreateParticipant "bob";
             Attached 0 (Remote 7); AddContact 0 "bob";
             JoinGroup 0 "lobby"; ChangeStatus 1 AWAY] in
  linked (persisted (run rs boot)) ∧
  groups_of (persisted (run rs boot)) 0 = [] ∧
  members_of (persisted (run rs boot)) 0 = [] ∧
  contacts_of (persisted (run rs boot)) 0 = [1] ∧
  Participant.status (Participant__getstate__
                        (Participant.mk "bob" AWAY [] [0] [] NoClient ""))
    = OFFLINE.
Proof.
  intros rs.
  destruct (snapshot_is_consistent rs) as (Hl & _ & Hp & Hg & Hoff).
  split; [exact Hl|]. split; [exact (proj1 (Hp 0))|].
  split; [exact (Hg 0)|]. split; [exact (proj1 (proj2 (Hp 0)))|].
  exact (proj1 (Hoff 1 _ eq_refl)).
Defined.

(** ** Joining and leaving again *)

Lemma with_groups_restore P gs :
  Participant.with_groups (Participant.groups P)
    (Participant.with_groups gs P) = P.
Proof. by destruct P. Qed.

Lemma with_members_restore G ms :
  Group.with_members (Group.members G) (Group.with_members ms G) = G.
Proof. by destruct G. Qed.

(** X19.  In a world reached from a fresh service, when a participant joins
    a group it was not in, whose members all have live clients, and then
    leaves it again, both calls return and every dict and object is as it was
    before: the members were told of the arrival and then of the departure,
    in the order of [members], and the participant's client, if any, got the
    group's metadata in between. *)
Theorem joinGroup_then_leaveGroup_restores
    (rs : list request) (self : pid) (P : Participant.t) (name : string)
    (g : gid) (G : Group.t) :
  participant_objs (run rs boot) !! self = Some P →
  Participant.client P ≠ Placeholder →
  group_named name g (run rs boot) →
  group_objs (run rs boot) !! g = Some G →
  g ∉ Participant.groups P →
  (∀ m, m ∈ Group.members G → has_live_client (run rs boot) m) →
  ∃ w1 w2,
    joinGroup self name (run rs boot) = (Return tt, w1) ∧
    leaveGroup self name w1 = (Return tt, w2) ∧
    same_store (run rs boot) w2 ∧
    sent w2 =
      sent (run rs boot) ++
      map (λ m, (client_of (run rs boot) m,
                 WCI.memberJoined (Participant.name P) name))
          (Group.members G) ++
      (if client_truthy (Participant.client P)
       then [(Participant.client P,
              WCI.setGroupMetadata (Group.metadata G) name)]
       else []) ++
      map (λ m, (client_of (run rs boot) m,
                 WCI.memberLeft (Participant.name P) name))
          (Group.members G).
Proof.
  set (w := run rs boot). intros EP Hcl Hn EG Hnew Hlive.
  pose proof (linked_reachable rs) as Hl.
  pose proof (registered_reachable rs) as Hr. fold w in Hl, Hr.
  destruct (registered_group_named w name g Hr Hn) as (G0 & EG0 & Hname).
  rewrite EG in EG0. injection EG0 as <-.
  assert (self ∉ Group.members G) as Hself.
  { apply occurrences_zero. apply occurrences_zero in Hnew.
    pose proof (linked_groups _ Hl self g) as Hocc.
    unfold groups_of, members_of in Hocc.
    rewrite (list_field_lookup _ _ _ _ EP), (list_field_lookup _ _ _ _ EG)
      in Hocc. lia. }
  destruct (joinGroup_exact self name w P g G) as
    (w1 & E1 & Hs1 & Hp1 & Hg1 & Hsent1); try done.
  set (P1 := Participant.with_groups (Participant.groups P ++ [g]) P) in *.
  set (G1 := Group.with_members (Group.members G ++ [self]) G) in *.
  assert (linked w1) as Hl1.
  { pose proof (linked_perform (JoinGroup self name) w Hl) as H.
    simpl in H. by rewrite E1 in H. }
  assert (registered w1) as Hr1.
  { pose proof (registered_perform (JoinGroup self name) w Hr) as H.
    simpl in H. by rewrite E1 in H. }
  assert (participant_objs w1 !! self = Some P1) as EP1.
  { rewrite Hp1. apply list_lookup_insert_eq. by eapply lookup_lt_Some. }
  assert (group_objs w1 !! g = Some G1) as EG1.
  { rewrite Hg1. apply list_lookup_insert_eq. by eapply lookup_lt_Some. }
  assert (∀ m, client_of w1 m = client_of w m) as Hclient.
  { intros m. unfold client_of. rewrite Hp1.
    destruct (decide (m = self)) as [->|Hne].
    - rewrite list_lookup_insert_eq by (by eapply lookup_lt_Some).
      by rewrite EP.
    - by rewrite list_lookup_insert_ne. }
  destruct (leaveGroup_exact self w1 P1 g G1 (Participant.groups P)
              (Group.members G) Hl1 Hr1 EP1 EG1)
    as (w2 & E2 & Hs2 & Hp2 & Hg2 & Hsent2).
  { by apply list_remove_snoc_fresh. }
  { by apply list_remove_snoc_fresh. }
  { intros m Hm. destruct (Hlive m Hm) as (M & EM & HM).
    assert (m ≠ self) as Hne by (intros ->; done).
    exists M. split; [|done]. rewrite Hp1. by rewrite list_lookup_insert_ne. }
  exists w1, w2. split_and!.
  - done.
  - by rewrite <- Hname.
  - split_and!.
    + by rewrite Hs2, Hs1.
    + rewrite Hp2, Hp1. subst P1. rewrite with_groups_restore.
      rewrite list_insert_insert_eq. by apply list_insert_id.
    + rewrite Hg2, Hg1. subst G1. rewrite with_members_restore.
      rewrite list_insert_insert_eq. by apply list_insert_id.
  - rewrite Hsent2, Hsent1, Hname. rewrite <- !app_assoc. do 3 f_equal.
    apply map_ext. intros m. rewrite Hclient. subst P1 G1. simpl.
    by rewrite Hname.
Qed.

Lemma joinGroup_then_leaveGroup_restores_witness :
  let rs := [CreateParticipant "alice"; CreateParticipant "bob";
             Attached 0 (Remote 7); JoinGroup 0 "lobby"] in
  ∃ w1 w2,
    joinGroup 1 "lobby" (run rs boot) = (Return tt, w1) ∧
    leaveGroup 1 "lobby" w1 = (Return tt, w2) ∧
    same_store (run rs boot) w2 ∧
    sent w2 =
      sent (run rs boot) ++
      [(Remote 7, WCI.memberJoined "bob" "lobby");
       (Remote 7, WCI.memberLeft "bob" "lobby")].
Proof.
  intros rs.
  destruct (joinGroup_then_leaveGroup_restores rs 1
              (Participant.mk "bob" OFFLINE [] [] [] NoClient "") "lobby"
              0 (Group.with_members [0] (Group.init "lobby"))
              eq_refl ltac:(discriminate) eq_refl eq_refl)
    as (w1 & w2 & E1 & E2 & Hsame & Hsent).
  - apply not_elem_of_nil.
  - intros m Hm. apply list_elem_of_singleton in Hm as ->.
    exists (Participant.mk "alice" ONLINE [] [] [0] (Remote 7) "").
    split; reflexivity.
  - exists w1, w2. split; [exact E1|]. split; [exact E2|].
    split; [exact Hsame | exact Hsent].
Defined.

(** ** Requests that only ask or tell *)

(** X20.  getGroupMembers, getGroupMetadata, directMessage, groupMessage and
    the errbacks that a failed Deferred runs never write to the service:
    whatever their arguments, and whether they return or raise, the two dicts
    and every participant and group are afterwards what they were before. *)
Theorem asking_and_telling_change_no_object (w : World) :
  (∀ self groupName, same_store w (getGroupMembers self groupName w).2) ∧
  (∀ self groupName, same_store w (getGroupMetadata self groupName w).2) ∧
  (∀ self recipientName message metadata,
     same_store w (directMessage self recipientName message metadata w).2) ∧
  (∀ self groupName message metadata,
     same_store w (groupMessage self groupName message metadata w).2) ∧
  (∀ d supplied, same_store w (fail_deferred d supplied w).2).
Proof.
  split_and!; intros.
  - apply (preserves_getGroupMembers (same_store w)), same_store_refl.
  - apply (preserves_getGroupMetadata (same_store w)), same_store_refl.
  - apply (preserves_directMessage (same_store w)), same_store_refl.
  - apply (preserves_groupMessage (same_store w)), same_store_refl.
  - apply (preserves_fail_deferred (same_store w)), same_store_refl.
Qed.

Lemma asking_and_telling_change_no_object_witness :
  let w := run [CreateParticipant "alice"; CreateParticipant "bob";
                Attached 1 (Remote 8); JoinGroup 0 "lobby"] boot in
  same_store w (getGroupMembers 0 "lobby" w).2 ∧
  same_store w (directMessage 0 "bob" (PStr "hi") (PStr "emote") w).2.
Proof.
  intros w.
  destruct (asking_and_telling_change_no_object w)
    as (Hmembers & _ & Hdirect & _).
  split; [exact (Hmembers 0 "lobby")|].
  exact (Hdirect 0 "bob" (PStr "hi") (PStr "emote")).
Defined.
